(** * Orchestration engine of the document-translation workflow

    A shallow embedding of the supervisor loop ([MasterAgent.orchestrate]),
    the router ([determine_next_step]), the shared [WorkflowState] and the
    run-status derivation, followed by the properties of the engine.

    Conventions of the embedding:
    - Python [int] is [Z]; [str] is [string] (ASCII case folding for
      [str.lower]); a [dict] with string keys is a [gmap string _];
    - a Python value stored without validation is a [PyVal];
    - wall-clock readings come from an oracle indexed by the number of
      events emitted so far; event timestamps are left out;
    - a worker is a function of the state it receives: it returns a result
      mapping or raises, and may add warnings to the state on the way
      (as [ExecutionAgent] does);
    - what a run does besides changing the state (events pushed to the
      progress sink, snapshots persisted, assignments of [run_status],
      calls of the workers) is recorded in a trace next to the state;
    - persistence and the progress sink do not raise. *)

From stdpp Require Import base gmap strings list pretty.
From Stdlib Require Import ZArith String Ascii Lia Sorted.

Open Scope string_scope.
Open Scope list_scope.
Open Scope Z_scope.

(** ** Python values *)

Module Py.

(** [class QAStatus(str, Enum)] *)
Inductive QAStatus := PASS | FAIL | PENDING.

Definition QAStatus_value (q : QAStatus) : string :=
  match q with PASS => "pass" | FAIL => "fail" | PENDING => "pending" end.

Definition QAStatus_name (q : QAStatus) : string :=
  match q with PASS => "PASS" | FAIL => "FAIL" | PENDING => "PENDING" end.

(** The values a result mapping or an unvalidated state field can hold.
    [VOther] is any object that is neither [None], a [bool], a [str] nor a
    [QAStatus] member, given by its [str()] rendering and its truth value. *)
Inductive PyVal :=
| VNone
| VBool (b : bool)
| VStr (s : string)
| VStatus (q : QAStatus)
| VOther (repr : string) (truth : bool).

(** [str(v)] *)
Definition str (v : PyVal) : string :=
  match v with
  | VNone => "None"
  | VBool true => "True"
  | VBool false => "False"
  | VStr s => s
  | VStatus q => "QAStatus." +:+ QAStatus_name q
  | VOther r _ => r
  end.

(** [bool(v)] *)
Definition truthy (v : PyVal) : bool :=
  match v with
  | VNone => false
  | VBool b => b
  | VStr s => negb (s =? "")%string
  | VStatus _ => true
  | VOther _ t => t
  end.

(** [v == "..."] for a string literal: a [str]-mixin enum member equals
    its value. *)
Definition eq_str (v : PyVal) (lit : string) : bool :=
  match v with
  | VStr s => (s =? lit)%string
  | VStatus q => (QAStatus_value q =? lit)%string
  | _ => false
  end.

(** [v == QAStatus.FAIL] *)
Definition eq_FAIL (v : PyVal) : bool := eq_str v "fail".

(** [isinstance(v, QAStatus)] *)
Definition is_QAStatus (v : PyVal) : bool :=
  match v with VStatus _ => true | _ => false end.

Definition lower_ascii (c : ascii) : ascii :=
  let n := nat_of_ascii c in
  if (65 <=? n)%nat && (n <=? 90)%nat then ascii_of_nat (n + 32) else c.

(** [s.lower()] *)
Fixpoint lower (s : string) : string :=
  match s with
  | EmptyString => EmptyString
  | String c r => String (lower_ascii c) (lower r)
  end.

(** the decimal rendering of an [int] inside an f-string *)
Definition str_of_Z (z : Z) : string := pretty z.

(** [d.get(key, default)] *)
Definition get (d : gmap string PyVal) (key : string) (default : PyVal) : PyVal :=
  match d !! key with Some v => v | None => default end.

(** [x in names] for a set or list literal of strings *)
Fixpoint mem (x : string) (names : list string) : bool :=
  match names with
  | [] => false
  | y :: r => (x =? y)%string || mem x r
  end.

End Py.

Import Py.

(** ** The state record ([src/models/workflow_state.py]) *)

(** [class WorkflowStatus(str, Enum)] *)
Inductive WorkflowStatus := W_PENDING | IN_PROGRESS | COMPLETED | FAILED | PAUSED.

Definition WorkflowStatus_value (w : WorkflowStatus) : string :=
  match w with
  | W_PENDING => "pending"
  | IN_PROGRESS => "in_progress"
  | COMPLETED => "completed"
  | FAILED => "failed"
  | PAUSED => "paused"
  end.

Definition WorkflowStatus_eqb (a b : WorkflowStatus) : bool :=
  match a, b with
  | W_PENDING, W_PENDING | IN_PROGRESS, IN_PROGRESS | COMPLETED, COMPLETED
  | FAILED, FAILED | PAUSED, PAUSED => true
  | _, _ => false
  end.

(** The request handed to [orchestrate]: the fields of the request shape,
    plus the two that [WorkflowOrchestrator.execute_workflow] adds
    ([requested_real_llm] and the initial [warnings]). *)
Record Request := mkRequest {
  source_language : string;
  target_language : string;
  document_type : string;
  page_count : Z;
  raw_text : string;
  req_max_retries : Z;
  parallel_execution : bool;
  force_qa_fail_once : bool;
  requested_real_llm : bool;
  req_warnings : list string
}.

(** An entry of [state.events]; the timestamp is left out. *)
Record Event := mkEvent {
  ev_step : string;
  ev_status : string;
  ev_level : string;
  ev_message : string
}.

(** The keys that [_refresh_delivery_metadata] writes under
    [final_output["metadata"]]. *)
Record Metadata := mkMetadata {
  m_step_status : gmap string string;
  m_events : list Event;
  m_warnings : list string;
  m_errors : list string;
  m_route_history : list string;
  m_translation_method : PyVal
}.

Record WorkflowState := mkState {
  request : Request;
  status : WorkflowStatus;
  run_status : string;
  current_agent : option string;
  execution_plan : PyVal;
  route_history : list string;
  step_status : gmap string string;
  events : list Event;
  normalized_request : gmap string PyVal;
  translation_output : PyVal;
  translation_method : PyVal;
  qa_result : gmap string PyVal;
  judge_result : gmap string PyVal;
  final_output : gmap string PyVal;
  final_metadata : option Metadata;
  retry_count : Z;
  start_time : option Z;
  end_time : option Z;
  agent_timings : gmap string string;
  requires_approval : PyVal;
  approval_granted : option bool;
  pause_reason : PyVal;
  errors : list string;
  warnings : list string
}.

Definition set_status (v : WorkflowStatus) (s : WorkflowState) : WorkflowState :=
  mkState (request s) v (run_status s) (current_agent s) (execution_plan s) (route_history
    s) (step_status s) (events s) (normalized_request s) (translation_output s)
    (translation_method s) (qa_result s) (judge_result s) (final_output s) (final_metadata
    s) (retry_count s) (start_time s) (end_time s) (agent_timings s) (requires_approval s)
    (approval_granted s) (pause_reason s) (errors s) (warnings s).

Definition set_run_status (v : string) (s : WorkflowState) : WorkflowState :=
  mkState (request s) (status s) v (current_agent s) (execution_plan s) (route_history s)
    (step_status s) (events s) (normalized_request s) (translation_output s)
    (translation_method s) (qa_result s) (judge_result s) (final_output s) (final_metadata
    s) (retry_count s) (start_time s) (end_time s) (agent_timings s) (requires_approval s)
    (approval_granted s) (pause_reason s) (errors s) (warnings s).

Definition set_current_agent (v : option string) (s : WorkflowState) : WorkflowState :=
  mkState (request s) (status s) (run_status s) v (execution_plan s) (route_history s)
    (step_status s) (events s) (normalized_request s) (translation_output s)
    (translation_method s) (qa_result s) (judge_result s) (final_output s) (final_metadata
    s) (retry_count s) (start_time s) (end_time s) (agent_timings s) (requires_approval s)
    (approval_granted s) (pause_reason s) (errors s) (warnings s).

Definition set_execution_plan (v : PyVal) (s : WorkflowState) : WorkflowState :=
  mkState (request s) (status s) (run_status s) (current_agent s) v (route_history s)
    (step_status s) (events s) (normalized_request s) (translation_output s)
    (translation_method s) (qa_result s) (judge_result s) (final_output s) (final_metadata
    s) (retry_count s) (start_time s) (end_time s) (agent_timings s) (requires_approval s)
    (approval_granted s) (pause_reason s) (errors s) (warnings s).

Definition set_route_history (v : list string) (s : WorkflowState) : WorkflowState :=
  mkState (request s) (status s) (run_status s) (current_agent s) (execution_plan s) v
    (step_status s) (events s) (normalized_request s) (translation_output s)
    (translation_method s) (qa_result s) (judge_result s) (final_output s) (final_metadata
    s) (retry_count s) (start_time s) (end_time s) (agent_timings s) (requires_approval s)
    (approval_granted s) (pause_reason s) (errors s) (warnings s).

Definition set_step_status_map (v : gmap string string) (s : WorkflowState) : WorkflowState :=
  mkState (request s) (status s) (run_status s) (current_agent s) (execution_plan s)
    (route_history s) v (events s) (normalized_request s) (translation_output s)
    (translation_method s) (qa_result s) (judge_result s) (final_output s) (final_metadata
    s) (retry_count s) (start_time s) (end_time s) (agent_timings s) (requires_approval s)
    (approval_granted s) (pause_reason s) (errors s) (warnings s).

Definition set_events (v : list Event) (s : WorkflowState) : WorkflowState :=
  mkState (request s) (status s) (run_status s) (current_agent s) (execution_plan s)
    (route_history s) (step_status s) v (normalized_request s) (translation_output s)
    (translation_method s) (qa_result s) (judge_result s) (final_output s) (final_metadata
    s) (retry_count s) (start_time s) (end_time s) (agent_timings s) (requires_approval s)
    (approval_granted s) (pause_reason s) (errors s) (warnings s).

Definition set_normalized_request (v : gmap string PyVal) (s : WorkflowState) : WorkflowState :=
  mkState (request s) (status s) (run_status s) (current_agent s) (execution_plan s)
    (route_history s) (step_status s) (events s) v (translation_output s)
    (translation_method s) (qa_result s) (judge_result s) (final_output s) (final_metadata
    s) (retry_count s) (start_time s) (end_time s) (agent_timings s) (requires_approval s)
    (approval_granted s) (pause_reason s) (errors s) (warnings s).

Definition set_translation_output (v : PyVal) (s : WorkflowState) : WorkflowState :=
  mkState (request s) (status s) (run_status s) (current_agent s) (execution_plan s)
    (route_history s) (step_status s) (events s) (normalized_request s) v
    (translation_method s) (qa_result s) (judge_result s) (final_output s) (final_metadata
    s) (retry_count s) (start_time s) (end_time s) (agent_timings s) (requires_approval s)
    (approval_granted s) (pause_reason s) (errors s) (warnings s).

Definition set_translation_method (v : PyVal) (s : WorkflowState) : WorkflowState :=
  mkState (request s) (status s) (run_status s) (current_agent s) (execution_plan s)
    (route_history s) (step_status s) (events s) (normalized_request s) (translation_output
    s) v (qa_result s) (judge_result s) (final_output s) (final_metadata s) (retry_count s)
    (start_time s) (end_time s) (agent_timings s) (requires_approval s) (approval_granted s)
    (pause_reason s) (errors s) (warnings s).

Definition set_qa_result (v : gmap string PyVal) (s : WorkflowState) : WorkflowState :=
  mkState (request s) (status s) (run_status s) (current_agent s) (execution_plan s)
    (route_history s) (step_status s) (events s) (normalized_request s) (translation_output
    s) (translation_method s) v (judge_result s) (final_output s) (final_metadata s)
    (retry_count s) (start_time s) (end_time s) (agent_timings s) (requires_approval s)
    (approval_granted s) (pause_reason s) (errors s) (warnings s).

Definition set_judge_result (v : gmap string PyVal) (s : WorkflowState) : WorkflowState :=
  mkState (request s) (status s) (run_status s) (current_agent s) (execution_plan s)
    (route_history s) (step_status s) (events s) (normalized_request s) (translation_output
    s) (translation_method s) (qa_result s) v (final_output s) (final_metadata s)
    (retry_count s) (start_time s) (end_time s) (agent_timings s) (requires_approval s)
    (approval_granted s) (pause_reason s) (errors s) (warnings s).

Definition set_final_output (v : gmap string PyVal) (s : WorkflowState) : WorkflowState :=
  mkState (request s) (status s) (run_status s) (current_agent s) (execution_plan s)
    (route_history s) (step_status s) (events s) (normalized_request s) (translation_output
    s) (translation_method s) (qa_result s) (judge_result s) v (final_metadata s)
    (retry_count s) (start_time s) (end_time s) (agent_timings s) (requires_approval s)
    (approval_granted s) (pause_reason s) (errors s) (warnings s).

Definition set_final_metadata (v : option Metadata) (s : WorkflowState) : WorkflowState :=
  mkState (request s) (status s) (run_status s) (current_agent s) (execution_plan s)
    (route_history s) (step_status s) (events s) (normalized_request s) (translation_output
    s) (translation_method s) (qa_result s) (judge_result s) (final_output s) v (retry_count
    s) (start_time s) (end_time s) (agent_timings s) (requires_approval s) (approval_granted
    s) (pause_reason s) (errors s) (warnings s).

Definition set_retry_count (v : Z) (s : WorkflowState) : WorkflowState :=
  mkState (request s) (status s) (run_status s) (current_agent s) (execution_plan s)
    (route_history s) (step_status s) (events s) (normalized_request s) (translation_output
    s) (translation_method s) (qa_result s) (judge_result s) (final_output s)
    (final_metadata s) v (start_time s) (end_time s) (agent_timings s) (requires_approval s)
    (approval_granted s) (pause_reason s) (errors s) (warnings s).

Definition set_start_time (v : option Z) (s : WorkflowState) : WorkflowState :=
  mkState (request s) (status s) (run_status s) (current_agent s) (execution_plan s)
    (route_history s) (step_status s) (events s) (normalized_request s) (translation_output
    s) (translation_method s) (qa_result s) (judge_result s) (final_output s)
    (final_metadata s) (retry_count s) v (end_time s) (agent_timings s) (requires_approval
    s) (approval_granted s) (pause_reason s) (errors s) (warnings s).

Definition set_end_time (v : option Z) (s : WorkflowState) : WorkflowState :=
  mkState (request s) (status s) (run_status s) (current_agent s) (execution_plan s)
    (route_history s) (step_status s) (events s) (normalized_request s) (translation_output
    s) (translation_method s) (qa_result s) (judge_result s) (final_output s)
    (final_metadata s) (retry_count s) (start_time s) v (agent_timings s) (requires_approval
    s) (approval_granted s) (pause_reason s) (errors s) (warnings s).

Definition set_agent_timings (v : gmap string string) (s : WorkflowState) : WorkflowState :=
  mkState (request s) (status s) (run_status s) (current_agent s) (execution_plan s)
    (route_history s) (step_status s) (events s) (normalized_request s) (translation_output
    s) (translation_method s) (qa_result s) (judge_result s) (final_output s)
    (final_metadata s) (retry_count s) (start_time s) (end_time s) v (requires_approval s)
    (approval_granted s) (pause_reason s) (errors s) (warnings s).

Definition set_requires_approval (v : PyVal) (s : WorkflowState) : WorkflowState :=
  mkState (request s) (status s) (run_status s) (current_agent s) (execution_plan s)
    (route_history s) (step_status s) (events s) (normalized_request s) (translation_output
    s) (translation_method s) (qa_result s) (judge_result s) (final_output s)
    (final_metadata s) (retry_count s) (start_time s) (end_time s) (agent_timings s) v
    (approval_granted s) (pause_reason s) (errors s) (warnings s).

Definition set_approval_granted (v : option bool) (s : WorkflowState) : WorkflowState :=
  mkState (request s) (status s) (run_status s) (current_agent s) (execution_plan s)
    (route_history s) (step_status s) (events s) (normalized_request s) (translation_output
    s) (translation_method s) (qa_result s) (judge_result s) (final_output s)
    (final_metadata s) (retry_count s) (start_time s) (end_time s) (agent_timings s)
    (requires_approval s) v (pause_reason s) (errors s) (warnings s).

Definition set_pause_reason (v : PyVal) (s : WorkflowState) : WorkflowState :=
  mkState (request s) (status s) (run_status s) (current_agent s) (execution_plan s)
    (route_history s) (step_status s) (events s) (normalized_request s) (translation_output
    s) (translation_method s) (qa_result s) (judge_result s) (final_output s)
    (final_metadata s) (retry_count s) (start_time s) (end_time s) (agent_timings s)
    (requires_approval s) (approval_granted s) v (errors s) (warnings s).

Definition set_errors (v : list string) (s : WorkflowState) : WorkflowState :=
  mkState (request s) (status s) (run_status s) (current_agent s) (execution_plan s)
    (route_history s) (step_status s) (events s) (normalized_request s) (translation_output
    s) (translation_method s) (qa_result s) (judge_result s) (final_output s)
    (final_metadata s) (retry_count s) (start_time s) (end_time s) (agent_timings s)
    (requires_approval s) (approval_granted s) (pause_reason s) v (warnings s).

Definition set_warnings (v : list string) (s : WorkflowState) : WorkflowState :=
  mkState (request s) (status s) (run_status s) (current_agent s) (execution_plan s)
    (route_history s) (step_status s) (events s) (normalized_request s) (translation_output
    s) (translation_method s) (qa_result s) (judge_result s) (final_output s)
    (final_metadata s) (retry_count s) (start_time s) (end_time s) (agent_timings s)
    (requires_approval s) (approval_granted s) (pause_reason s) (errors s) v.

Definition max_retries (s : WorkflowState) : Z := req_max_retries (request s).

(** The state built from the request's keyword arguments: every field the
    request does not carry takes its declared default. *)
Definition WorkflowState_init (r : Request) : WorkflowState :=
  {| request := r;
     status := W_PENDING;
     run_status := "pending";
     current_agent := None;
     execution_plan := VOther "[]" false;
     route_history := [];
     step_status := ∅;
     events := [];
     normalized_request := ∅;
     translation_output := VNone;
     translation_method := VNone;
     qa_result := ∅;
     judge_result := ∅;
     final_output := ∅;
     final_metadata := None;
     retry_count := 0;
     start_time := None;
     end_time := None;
     agent_timings := ∅;
     requires_approval := VBool false;
     approval_granted := None;
     pause_reason := VNone;
     errors := [];
     warnings := req_warnings r |}.

Definition add_error (message : string) (s : WorkflowState) : WorkflowState :=
  if mem message (errors s) then s else set_errors (errors s ++ [message]) s.

Definition add_warning (message : string) (s : WorkflowState) : WorkflowState :=
  if mem message (warnings s) then s else set_warnings (warnings s ++ [message]) s.

Definition set_step_status (step status : string) (s : WorkflowState) : WorkflowState :=
  set_step_status_map (<[step := status]> (step_status s)) s.

Definition add_event (e : Event) (s : WorkflowState) : WorkflowState :=
  set_events (events s ++ [e]) s.

(** ** The router ([src/workflow/routing.py]) *)

Definition determine_next_step (current_step : string) (state : WorkflowState) : string :=
  if (current_step =? "intake")%string then "planner"
  else if (current_step =? "planner")%string then
    if truthy (requires_approval state) && bool_decide (approval_granted state = None)
    then "pause_for_approval"
    else "execution"
  else if (current_step =? "execution")%string then "qa"
  else if (current_step =? "qa")%string then
    let qa_status := get (qa_result state) "status" VNone in
    if eq_FAIL qa_status && (retry_count state <? max_retries state)
    then "execution"
    else "judge"
  else if (current_step =? "judge")%string then
    let action := lower (str (get (judge_result state) "action" (VStr "accept"))) in
    if (action =? "retry")%string && (retry_count state <? max_retries state)
    then "execution"
    else "delivery"
  else if (current_step =? "delivery")%string then "end"
  else "end".

(** ** Workers, the environment of a run, and what a run makes observable *)

Inductive Completion :=
| Returns (result : gmap string PyVal)
| Raises (message : string).

(** What one call of [worker.execute(state)] does: the warnings it adds to
    the state while it runs, and how it completes. *)
Record Outcome := mkOutcome {
  added_warnings : list string;
  completion : Completion
}.

Definition Worker : Type := WorkflowState → Outcome.

Record Env := mkEnv {
  worker_agents : gmap string Worker;
  sla_seconds : Z;
  (** reading of the wall clock once [n] events have been emitted *)
  clock : nat → Z;
  (** rendering of a step's elapsed time once [n] events have been emitted *)
  perf_elapsed : nat → string
}.

Inductive Action :=
| Emitted (e : Event) (snapshot : WorkflowState)
| Saved (snapshot : WorkflowState)
| Assigned_run_status (v : string)
| Called (agent_name : string) (outcome : Outcome).

Record World := mkWorld {
  wstate : WorkflowState;
  wtrace : list Action
}.

Definition mutate (f : WorkflowState → WorkflowState) (w : World) : World :=
  mkWorld (f (wstate w)) (wtrace w).

Definition record (a : Action) (w : World) : World :=
  mkWorld (wstate w) (wtrace w ++ [a]).

(** The states pushed to the progress sink or persisted, in order. *)
Fixpoint observed (t : list Action) : list WorkflowState :=
  match t with
  | [] => []
  | Emitted _ s :: r => s :: observed r
  | Saved s :: r => s :: observed r
  | Assigned_run_status _ :: r => observed r
  | Called _ _ :: r => observed r
  end.

(** The values assigned to [state.run_status], in order. *)
Fixpoint run_status_writes (t : list Action) : list string :=
  match t with
  | [] => []
  | Assigned_run_status v :: r => v :: run_status_writes r
  | _ :: r => run_status_writes r
  end.

(** The messages of the exceptions the workers raised, in order. *)
Fixpoint raised_messages (t : list Action) : list string :=
  match t with
  | [] => []
  | Called _ (mkOutcome _ (Raises message)) :: r => message :: raised_messages r
  | _ :: r => raised_messages r
  end.

Inductive Res :=
| Ok (w : World)
| Raised (message : string) (w : World).

(** ** The supervisor ([src/agents/master_agent.py]) *)

Definition utcnow (env : Env) (s : WorkflowState) : Z := clock env (List.length (events s)).

(** [state.run_status = v] *)
Definition assign_run_status (v : string) (w : World) : World :=
  record (Assigned_run_status v) (mutate (set_run_status v) w).

(** [self.state_manager.save(state)] *)
Definition save (w : World) : World := record (Saved (wstate w)) w.

Definition _emit_event (w : World) (step status message level : string) : World :=
  let event := mkEvent step status level message in
  let w := mutate (add_event event) w in
  record (Emitted event (wstate w)) w.

(** [SLAMonitor.is_breached(state.start_time)] *)
Definition is_breached (env : Env) (s : WorkflowState) : bool :=
  let elapsed :=
    match start_time s with
    | None => 0
    | Some started_at => utcnow env s - started_at
    end in
  sla_seconds env <? elapsed.

Definition _qa_failed (state : WorkflowState) : bool :=
  let qa_status := get (qa_result state) "status" VNone in
  if is_QAStatus qa_status then eq_FAIL qa_status
  else (lower (str qa_status) =? "fail")%string.

Definition _retry_condition (previous_step : option string) (state : WorkflowState) : bool :=
  match previous_step with
  | Some p =>
      if (p =? "qa")%string then _qa_failed state
      else if (p =? "judge")%string then
        (lower (str (get (judge_result state) "action" (VStr ""))) =? "retry")%string
      else false
  | None => false
  end.

Definition _derive_run_status (state : WorkflowState) : string :=
  if WorkflowStatus_eqb (status state) FAILED then WorkflowStatus_value FAILED
  else if WorkflowStatus_eqb (status state) PAUSED then WorkflowStatus_value PAUSED
  else
    let qa_failed := _qa_failed state in
    let judge_action := lower (str (get (judge_result state) "action" (VStr "accept"))) in
    if negb (bool_decide (errors state = []))
       || negb (bool_decide (warnings state = []))
       || qa_failed
       || negb (judge_action =? "accept")%string
       || (0 <? retry_count state)
    then "completed_with_warnings"
    else WorkflowStatus_value COMPLETED.

Definition _merge_result (agent_name : string) (result : gmap string PyVal)
    (state : WorkflowState) : WorkflowState :=
  if (agent_name =? "intake")%string then set_normalized_request result state
  else if (agent_name =? "planner")%string then
    let state := set_execution_plan (get result "plan" (VOther "[]" false)) state in
    let state := set_requires_approval (get result "requires_approval" (VBool false)) state in
    if truthy (get result "approval_reason" VNone)
    then set_pause_reason (get result "approval_reason" VNone) state
    else state
  else if (agent_name =? "execution")%string then
    let state := set_translation_output (get result "translation" (VStr "")) state in
    let state := set_translation_method (get result "method" VNone) state in
    if eq_str (translation_method state) "mock" && requested_real_llm (request state)
    then add_warning "Mock translation path used." state
    else state
  else if (agent_name =? "qa")%string then
    let state := set_qa_result result state in
    if _qa_failed state
    then add_warning "QA check failed. Workflow may retry or require review." state
    else state
  else if (agent_name =? "judge")%string then
    let state := set_judge_result result state in
    let action := lower (str (get result "action" (VStr ""))) in
    if (action =? "retry")%string
    then add_warning ("Judge requested action: " +:+ action +:+ " (score="
                        +:+ str (get result "score" (VStr "n/a")) +:+ ").") state
    else state
  else if (agent_name =? "delivery")%string then set_final_output result state
  else state.

(** [state.run_status or state.status.value] *)
Definition run_status_or_status (state : WorkflowState) : string :=
  if (run_status state =? "")%string then WorkflowStatus_value (status state)
  else run_status state.

Definition _refresh_delivery_metadata (state : WorkflowState) : WorkflowState :=
  if bool_decide (final_output state = ∅) then state
  else
    let metadata :=
      mkMetadata (step_status state) (events state) (warnings state) (errors state)
                 (route_history state) (translation_method state) in
    let state := set_final_metadata (Some metadata) state in
    set_final_output (<["status" := VStr (run_status_or_status state)]> (final_output state))
                     state.

Definition _execute_step (env : Env) (agent_name : string) (w : World) : Res :=
  match worker_agents env !! agent_name with
  | None => Raised ("Unknown agent: " +:+ agent_name) w
  | Some worker =>
      let w := mutate (set_current_agent (Some agent_name)) w in
      let w := mutate (set_step_status agent_name "in_progress") w in
      let w := _emit_event w agent_name "in_progress" (agent_name +:+ " started.") "info" in
      let outcome := worker (wstate w) in
      let w := record (Called agent_name outcome) w in
      let w := mutate (λ s, fold_left (λ s m, add_warning m s) (added_warnings outcome) s) w in
      match completion outcome with
      | Raises message =>
          let w := mutate (set_step_status agent_name "failed") w in
          Raised message (_emit_event w agent_name "failed" message "error")
      | Returns result =>
          let elapsed := perf_elapsed env (List.length (events (wstate w))) in
          let w := mutate (λ s, set_agent_timings (<[agent_name := elapsed]> (agent_timings s)) s) w in
          let w := mutate (_merge_result agent_name result) w in
          let w := mutate (set_step_status agent_name "completed") w in
          let w := _emit_event w agent_name "completed"
                     (agent_name +:+ " completed in " +:+ elapsed +:+ "s.") "info" in
          Ok (if (agent_name =? "delivery")%string
              then mutate _refresh_delivery_metadata w else w)
      end
  end.

(** How one pass through the body of the [while] loop ends. *)
Inductive Iter :=
| Continue (current_step : string) (previous_step : option string) (w : World)
| Return (w : World)
| Throw (message : string) (w : World).

(** The retry gate at the head of the loop body. *)
Definition retry_gate (current_step : string) (previous_step : option string)
    (state : WorkflowState) : bool :=
  (current_step =? "execution")%string
  && match previous_step with Some p => mem p ["qa"; "judge"] | None => false end
  && _retry_condition previous_step state
  && (retry_count state <? max_retries state).

Definition retry_attempt (w : World) : World :=
  let w := mutate (λ s, set_retry_count (retry_count s + 1) s) w in
  let retry_message :=
    "Retrying translation, attempt " +:+ str_of_Z (retry_count (wstate w)) in
  let w := mutate (add_warning retry_message) w in
  _emit_event w "execution" "retry" retry_message "warning".

Definition sla_check (env : Env) (w : World) : World :=
  if is_breached env (wstate w) then
    let sla_warning := "SLA threshold exceeded" in
    if mem sla_warning (warnings (wstate w)) then w
    else _emit_event (mutate (add_warning sla_warning) w)
           "workflow" "sla_warning" sla_warning "warning"
  else w.

(** One pass through the body of [while current_step not in {end, delivery}]. *)
Definition iteration (env : Env) (auto_approve : bool) (current_step : string)
    (previous_step : option string) (w : World) : Iter :=
  if (current_step =? "pause_for_approval")%string then
    if auto_approve then
      let w := mutate (set_approval_granted (Some true)) w in
      let w := mutate (set_status IN_PROGRESS) w in
      let w := assign_run_status (WorkflowStatus_value IN_PROGRESS) w in
      let w := mutate (set_pause_reason VNone) w in
      let w := _emit_event w "approval" "auto_approved"
                 "Approval gate auto-approved by configuration." "info" in
      Continue "execution" previous_step w
    else
      let w := mutate (set_status PAUSED) w in
      let w := assign_run_status (WorkflowStatus_value PAUSED) w in
      let w := mutate (set_pause_reason (VStr "Awaiting human approval")) w in
      let w := _emit_event w "approval" "paused" (str (pause_reason (wstate w))) "warning" in
      Return (save w)
  else
    let w := if retry_gate current_step previous_step (wstate w)
             then retry_attempt w else w in
    let w := mutate (λ s, set_route_history (route_history s ++ [current_step]) s) w in
    match _execute_step env current_step w with
    | Raised message w => Throw message w
    | Ok w =>
        let w := sla_check env (save w) in
        Continue (determine_next_step current_step (wstate w)) (Some current_step) w
    end.

(** How the [while] loop ends. *)
Inductive LoopEnd :=
| Exit (current_step : string) (w : World)
| Returned (w : World)
| Thrown (message : string) (w : World).

(** The [while] loop; [None] when [fuel] passes do not suffice. *)
Fixpoint loop (fuel : nat) (env : Env) (auto_approve : bool) (current_step : string)
    (previous_step : option string) (w : World) : option LoopEnd :=
  if mem current_step ["end"; "delivery"] then Some (Exit current_step w)
  else
    match fuel with
    | O => None
    | S fuel =>
        match iteration env auto_approve current_step previous_step w with
        | Continue c p w => loop fuel env auto_approve c p w
        | Return w => Some (Returned w)
        | Throw message w => Some (Thrown message w)
        end
    end.

(** Lines 32-46: the state is built and the run is announced. *)
Definition begin (env : Env) (initial_request : Request) : World :=
  let state := WorkflowState_init initial_request in
  let state := set_start_time (Some (utcnow env state)) state in
  let state := set_status IN_PROGRESS state in
  let w := assign_run_status (WorkflowStatus_value IN_PROGRESS) (mkWorld state []) in
  let w := mutate (set_step_status_map ((λ _, "pending") <$> worker_agents env)) w in
  let w := save w in
  _emit_event w "workflow" "started" "Workflow started." "info".

(** Lines 120-126: the delivery step, when the loop left on it. *)
Definition deliver (env : Env) (current_step : string) (w : World) : Res :=
  if (current_step =? "delivery")%string then
    let w := mutate (λ s, set_route_history (route_history s ++ [current_step]) s) w in
    let w := mutate (set_status COMPLETED) w in
    let w := mutate (λ s, set_end_time (Some (utcnow env s)) s) w in
    let w := assign_run_status (_derive_run_status (wstate w)) w in
    match _execute_step env "delivery" w with
    | Raised message w => Raised message w
    | Ok w => Ok (save w)
    end
  else Ok w.

(** Lines 128-140: finalisation. *)
Definition finalize (env : Env) (w : World) : World :=
  let w := mutate (set_status COMPLETED) w in
  let w := mutate (λ s, set_end_time
                          (Some (match end_time s with Some t => t | None => utcnow env s end))
                          s) w in
  let w := assign_run_status (_derive_run_status (wstate w)) w in
  let w := _emit_event w "workflow" (run_status (wstate w))
             ("Workflow finished with status: " +:+ run_status (wstate w)) "info" in
  save w.

(** The body of the [try] block (lines 51-140). *)
Definition try_block (fuel : nat) (env : Env) (auto_approve : bool) (w : World)
    : option Res :=
  match loop fuel env auto_approve "intake" None w with
  | None => None
  | Some (Returned w) => Some (Ok w)
  | Some (Thrown message w) => Some (Raised message w)
  | Some (Exit current_step w) =>
      match deliver env current_step w with
      | Raised message w => Some (Raised message w)
      | Ok w => Some (Ok (finalize env w))
      end
  end.

(** [state.current_agent or "workflow"] *)
Definition current_agent_or_workflow (state : WorkflowState) : string :=
  match current_agent state with
  | Some a => if (a =? "")%string then "workflow" else a
  | None => "workflow"
  end.

(** The [except Exception] handler (lines 141-156). *)
Definition handler (env : Env) (message : string) (w : World) : World :=
  let w := mutate (set_status FAILED) w in
  let w := mutate (λ s, set_end_time (Some (utcnow env s)) s) w in
  let w := assign_run_status (WorkflowStatus_value FAILED) w in
  let w := mutate (add_error message) w in
  let w := _emit_event w (current_agent_or_workflow (wstate w)) "failed" message "error" in
  save w.

(** [MasterAgent.orchestrate] with [fuel] passes allowed to the loop: the
    world it leaves, whose state is the value returned to the caller. *)
Definition orchestrate_fuel (fuel : nat) (env : Env) (initial_request : Request)
    (auto_approve : bool) : option World :=
  match try_block fuel env auto_approve (begin env initial_request) with
  | None => None
  | Some (Ok w) => Some w
  | Some (Raised message w) => Some (handler env message w)
  end.

(** Passes that always suffice: two to reach the approval gate, one for the
    gate, and at most three per entry into [execution]. *)
Definition enough_fuel (initial_request : Request) : nat :=
  3 * Z.to_nat (req_max_retries initial_request) + 7.

Definition orchestrate (env : Env) (initial_request : Request) (auto_approve : bool)
    : option World :=
  orchestrate_fuel (enough_fuel initial_request) env initial_request auto_approve.

(** ** Paths through the step graph *)

Module Path.

(** Regular expressions over step names. *)
Inductive re :=
| Void
| Eps
| Sym (s : string)
| Seq (a b : re)
| Alt (a b : re)
| Star (a : re).

Inductive matches : re → list string → Prop :=
| m_eps : matches Eps []
| m_sym s : matches (Sym s) [s]
| m_seq a b u v : matches a u → matches b v → matches (Seq a b) (u ++ v)
| m_alt_l a b u : matches a u → matches (Alt a b) u
| m_alt_r a b u : matches b u → matches (Alt a b) u
| m_star_nil a : matches (Star a) []
| m_star_app a u v : matches a u → matches (Star a) v → matches (Star a) (u ++ v).

(** [h] can be continued to a word of [r]. *)
Definition is_prefix_of (r : re) (h : list string) : Prop :=
  ∃ rest, matches r (h ++ rest).

Fixpoint nullable (r : re) : bool :=
  match r with
  | Void => false
  | Eps => true
  | Sym _ => false
  | Seq a b => nullable a && nullable b
  | Alt a b => nullable a || nullable b
  | Star _ => true
  end.

(** Some word matches [r]. *)
Fixpoint inhabited (r : re) : bool :=
  match r with
  | Void => false
  | Eps => true
  | Sym _ => true
  | Seq a b => inhabited a && inhabited b
  | Alt a b => inhabited a || inhabited b
  | Star _ => true
  end.

(** Sequence and choice that absorb [Void] and [Eps] and nest to the right,
    so that the derivatives of a path come back to the same expressions. *)
Fixpoint seq (a b : re) : re :=
  match a with
  | Void => Void
  | Eps => b
  | Seq a1 a2 => Seq a1 (seq a2 b)
  | _ => Seq a b
  end.

Definition alt (a b : re) : re :=
  match a, b with
  | Void, _ => b
  | _, Void => a
  | _, _ => Alt a b
  end.

(** The words of [r] that start with [x], with [x] taken off. *)
Fixpoint deriv (x : string) (r : re) : re :=
  match r with
  | Void => Void
  | Eps => Void
  | Sym s => if (x =? s)%string then Eps else Void
  | Seq a b => alt (seq (deriv x a) b) (if nullable a then deriv x b else Void)
  | Alt a b => alt (deriv x a) (deriv x b)
  | Star a => seq (deriv x a) (Star a)
  end.

Definition derivs (r : re) (h : list string) : re :=
  fold_left (λ r x, deriv x r) h r.

(** The decision procedure for [is_prefix_of]. *)
Definition prefix_ok (r : re) (h : list string) : bool := inhabited (derivs r h).

Definition steps (names : list string) : re :=
  fold_right (λ s r, Seq (Sym s) r) Eps names.

(** The canonical path as the specification words it:
    [intake, planner, (pause_for_approval)?, execution, qa, (execution, qa)*,
     judge, (execution, qa, judge)*, delivery]. *)
Definition canonical : re :=
  Seq (Sym "intake") (Seq (Sym "planner")
    (Seq (Alt (Sym "pause_for_approval") Eps)
      (Seq (Sym "execution") (Seq (Sym "qa")
        (Seq (Star (steps ["execution"; "qa"]))
          (Seq (Sym "judge")
            (Seq (Star (steps ["execution"; "qa"; "judge"]))
              (Sym "delivery")))))))).

(** One round of work: [execution, qa, (execution, qa)*, judge]. *)
Definition round : re :=
  Seq (Sym "execution") (Seq (Sym "qa")
    (Seq (Star (Seq (Sym "execution") (Sym "qa"))) (Sym "judge"))).

(** The paths the loop follows:
    [intake, planner, execution, qa, (execution, qa)*, judge,
     (execution, qa, (execution, qa)*, judge)*, delivery]. *)
Definition followed : re :=
  Seq (Sym "intake") (Seq (Sym "planner")
    (Seq (Sym "execution") (Seq (Sym "qa")
      (Seq (Star (Seq (Sym "execution") (Sym "qa")))
        (Seq (Sym "judge") (Seq (Star round) (Sym "delivery"))))))).

(** The derivative of [followed] once the path ends on the given step. *)
Definition after (last : option string) : re := derivs followed
  match last with
  | None => []
  | Some s =>
      if (s =? "intake")%string then ["intake"]
      else if (s =? "planner")%string then ["intake"; "planner"]
      else if (s =? "execution")%string then ["intake"; "planner"; "execution"]
      else if (s =? "qa")%string then ["intake"; "planner"; "execution"; "qa"]
      else if (s =? "judge")%string then ["intake"; "planner"; "execution"; "qa"; "judge"]
      else ["intake"; "planner"; "execution"; "qa"; "judge"; "delivery"]
  end.

End Path.

(** ** Counting in [route_history] *)

Definition occurrences (x : string) (h : list string) : nat :=
  List.length (filter (λ y, (y =? x)%string = true) h).

(** The adjacent pairs of [h] made of [qa] or [judge] followed by
    [execution]: the recorded retry decisions. *)
Fixpoint retry_pairs (h : list string) : nat :=
  match h with
  | a :: r =>
      match r with
      | b :: _ => (if mem a ["qa"; "judge"] && (b =? "execution")%string then 1 else 0)%nat
      | [] => 0%nat
      end + retry_pairs r
  | [] => 0%nat
  end.

(** ** Predicates of the specification *)

(** The planner's result requested approval. *)
Definition approval_requested (s : WorkflowState) : Prop :=
  truthy (requires_approval s) = true.

(** The QA result's status is fail, as the router tests it. *)
Definition qa_status_fail (s : WorkflowState) : Prop :=
  eq_FAIL (get (qa_result s) "status" VNone) = true.

(** The judge result's action is retry; the action is compared after
    [str(...).lower()], and a missing action counts as accept. *)
Definition judge_action (s : WorkflowState) : string :=
  lower (str (get (judge_result s) "action" (VStr "accept"))).

Definition step_names : list string :=
  ["intake"; "planner"; "execution"; "qa"; "judge"; "delivery";
   "pause_for_approval"; "end"].

(** The fields the router reads. *)
Definition router_view (s : WorkflowState) :=
  (requires_approval s, approval_granted s, qa_result s, judge_result s,
   retry_count s, max_retries s).

(** The fields that only the supervisor itself assigns: a step (its worker
    and the merge of its result) leaves them alone. *)
Definition ctl (s : WorkflowState) :=
  (route_history s, retry_count s, request s, status s, approval_granted s,
   run_status s, end_time s, errors s, start_time s).

(** [w'] continues [w] by events, snapshots and worker calls only, during
    which the supervisor's own fields keep their values; [ms] are the
    messages of the exceptions raised by workers on the way. *)
Definition quiet_upto (ms : list string) (w w' : World) : Prop :=
  ∃ l, wtrace w' = wtrace w ++ l
       ∧ run_status_writes l = []
       ∧ raised_messages l = ms
       ∧ Forall (λ s, ctl s = ctl (wstate w)) (observed l)
       ∧ ctl (wstate w') = ctl (wstate w).

Definition quiet (w w' : World) : Prop := quiet_upto [] w w'.

(** The last step recorded in a route. *)
Definition last_step (h : list string) : option string := last h.

(** What holds of every state a run makes observable. *)
Record Sound (s : WorkflowState) : Prop := mkSound {
  sound_no_gate : mem "pause_for_approval" (route_history s) = false;
  sound_path : Path.prefix_ok Path.followed (route_history s) = true;
  sound_retries : 0 ≤ retry_count s ≤ Z.max 0 (max_retries s);
  sound_entries : Z.of_nat (occurrences "execution" (route_history s)) ≤ 1 + retry_count s;
  sound_pairs :
    retry_count s = Z.of_nat (retry_pairs (route_history s))
    ∨ (retry_count s = Z.of_nat (retry_pairs (route_history s)) + 1
       ∧ ∃ q, last_step (route_history s) = Some q ∧ mem q ["qa"; "judge"] = true);
  sound_paused :
    status s = PAUSED → pause_reason s ≠ VNone ∧ approval_granted s = None
}.

(** The world of a run in which every observable state is sound, the
    current one included, and every recorded retry has been counted. *)
Record Good (w : World) : Prop := mkGood {
  good_observed : Forall Sound (observed (wtrace w));
  good_now : Sound (wstate w);
  good_exact : retry_count (wstate w) = Z.of_nat (retry_pairs (route_history (wstate w)))
}.

(** The route is inside a round of work and ends on step [q]. *)
Record in_round (q : string) (s : WorkflowState) : Prop := mkRound {
  round_last : last_step (route_history s) = Some q;
  round_path : Path.derivs Path.followed (route_history s) = Path.after (Some q);
  round_entries : Z.of_nat (occurrences "execution" (route_history s)) = 1 + retry_count s
}.

(** Where the loop stands at the head of a pass: the step about to run,
    the step that ran before, and the route so far. *)
Inductive Position : string → option string → WorkflowState → Prop :=
| at_intake s :
    route_history s = [] → Position "intake" None s
| at_planner s :
    route_history s = ["intake"] → Position "planner" (Some "intake") s
| at_gate s :
    route_history s = ["intake"; "planner"] → approval_granted s = None →
    Position "pause_for_approval" (Some "planner") s
| at_first_execution s :
    route_history s = ["intake"; "planner"] →
    Position "execution" (Some "planner") s
| at_qa s :
    in_round "execution" s → Position "qa" (Some "execution") s
| at_retry q s :
    mem q ["qa"; "judge"] = true → in_round q s →
    retry_gate "execution" (Some q) s = true →
    Position "execution" (Some q) s
| at_judge s :
    in_round "qa" s → Position "judge" (Some "qa") s
| at_delivery s :
    in_round "judge" s → Position "delivery" (Some "judge") s.

(** Only [in_progress] has been assigned to [run_status] so far. *)
Definition only_in_progress (t : list Action) : Prop :=
  run_status_writes t ≠ [] ∧ Forall (λ v, v = "in_progress") (run_status_writes t).

(** The invariant of the [while] loop, at the head of a pass. *)
Record Inv (current_step : string) (previous_step : option string) (w : World)
  : Prop := mkInv {
  inv_good : Good w;
  inv_status : status (wstate w) = IN_PROGRESS;
  inv_writes : only_in_progress (wtrace w);
  inv_calls : raised_messages (wtrace w) = [];
  inv_position : Position current_step previous_step (wstate w)
}.

Definition rank (current_step : string) : nat :=
  if (current_step =? "intake")%string then 6
  else if (current_step =? "planner")%string then 5
  else if (current_step =? "pause_for_approval")%string then 4
  else if (current_step =? "execution")%string then 3
  else if (current_step =? "qa")%string then 2
  else if (current_step =? "judge")%string then 1
  else 0.

(** A bound on the passes still to come. *)
Definition potential (current_step : string) (previous_step : option string)
    (s : WorkflowState) : nat :=
  let remaining := Z.to_nat (max_retries s - retry_count s) in
  if retry_gate current_step previous_step s then (3 * remaining)%nat
  else (3 * remaining + rank current_step)%nat.

(** The state handed to the worker of a step. *)
Definition worker_input (agent_name : string) (s : WorkflowState) : WorkflowState :=
  add_event (mkEvent agent_name "in_progress" "info" (agent_name +:+ " started."))
    (set_step_status agent_name "in_progress" (set_current_agent (Some agent_name) s)).

(** The state at the head of the worker pass for [current_step]: after
    the retry gate and the append to the route. *)
Definition entered (current_step : string) (previous_step : option string)
    (w : World) : World :=
  let w := if retry_gate current_step previous_step (wstate w)
           then retry_attempt w else w in
  mutate (λ s, set_route_history (route_history s ++ [current_step]) s) w.


(** The labels a finished run can carry. *)
Definition completed_label (v : string) : Prop :=
  v = "completed" ∨ v = "completed_with_warnings".

(** A QA status that counts as fail when the run status is derived: the
    member [QAStatus.FAIL], or a value that is no [QAStatus] member and
    reads "fail" once rendered by [str] and put in lower case (the string
    "fail" of the QA contract, in any case). A missing status, [None], a
    [bool] and the members [PASS] and [PENDING] do not. *)
Definition counts_as_fail (v : PyVal) : Prop :=
  v = VStatus FAIL
  ∨ (∃ x, v = VStr x ∧ lower x = "fail")
  ∨ (∃ r t, v = VOther r t ∧ lower r = "fail").

(** The final state calls for the degraded label: errors is non-empty, or
    warnings is non-empty, or the last QA status counts as fail, or the
    last judge action differs from accept, or a retry was made. *)
Definition degraded (s : WorkflowState) : Prop :=
  errors s ≠ [] ∨ warnings s ≠ []
  ∨ counts_as_fail (get (qa_result s) "status" VNone)
  ∨ judge_action s ≠ "accept" ∨ 0 < retry_count s.

(** The retries still allowed. *)
Definition remaining (s : WorkflowState) : nat :=
  Z.to_nat (max_retries s - retry_count s).

(** The route right after [current_step] has been appended to it. *)
Definition Arrived (current_step : string) (s : WorkflowState) : Prop :=
  (current_step = "intake" ∧ route_history s = ["intake"])
  ∨ (current_step = "planner" ∧ route_history s = ["intake"; "planner"])
  ∨ (mem current_step ["execution"; "qa"; "judge"] = true ∧ in_round current_step s).

(** How the loop leaves a run that pauses at the approval gate. *)
Record Pausing (w : World) : Prop := mkPausing {
  pausing_good : Good w;
  pausing_status : status (wstate w) = PAUSED;
  pausing_label : run_status (wstate w) = "paused";
  pausing_reason : pause_reason (wstate w) ≠ VNone;
  pausing_route : route_history (wstate w) = ["intake"; "planner"];
  pausing_writes :
    ∃ ips, run_status_writes (wtrace w) = ips ++ ["paused"]
           ∧ ips ≠ [] ∧ Forall (λ v, v = "in_progress") ips;
  pausing_calls : raised_messages (wtrace w) = []
}.

(** How the loop leaves a run in which a step raised [message]: nothing
    but [in_progress] was assigned to [run_status] before, and the only
    exception a worker raised is this one. *)
Record Failing (message : string) (w : World) : Prop := mkFailing {
  failing_good : Good w;
  failing_not_paused : status (wstate w) ≠ PAUSED;
  failing_calls : ∀ m, In m (raised_messages (wtrace w)) → m = message
}.

(** What a step that returned [result] leaves in the state, besides the
    payload fields the loop never reads. *)
Record Merged (agent_name : string) (result : gmap string PyVal)
    (s s' : WorkflowState) : Prop := mkMerged {
  merged_approval :
    requires_approval s' =
    if (agent_name =? "planner")%string
    then get result "requires_approval" (VBool false) else requires_approval s;
  merged_qa :
    qa_result s' = if (agent_name =? "qa")%string then result else qa_result s;
  merged_judge :
    judge_result s' = if (agent_name =? "judge")%string then result else judge_result s;
  merged_steps : ∀ k, k ≠ agent_name → step_status s' !! k = step_status s !! k;
  merged_warnings : warnings s ≠ [] → warnings s' ≠ [];
  merged_ctl : ctl s' = ctl s
}.

(** The assignments to [run_status] that end a run, after the
    [in_progress] ones, together with the status the run returns with. *)
Inductive Ending : list string → WorkflowState → Prop :=
| ends_paused s :
    status s = PAUSED → Ending ["paused"] s
| ends_failed s :
    status s = FAILED → Ending ["failed"] s
| ends_failed_in_delivery l1 s :
    completed_label l1 → status s = FAILED → Ending [l1; "failed"] s
| ends_completed l1 l2 s :
    completed_label l1 → completed_label l2 →
    l2 = l1 ∨ (l1 = "completed" ∧ l2 = "completed_with_warnings" ∧ warnings s ≠ []) →
    status s = COMPLETED →
    Ending [l1; l2] s.

(** What holds of the world every run leaves. *)
Record Summary (w : World) : Prop := mkSummary {
  summary_good : Good w;
  summary_writes :
    ∃ ips tail,
      run_status_writes (wtrace w) = ips ++ tail
      ∧ ips ≠ [] ∧ Forall (λ v, v = "in_progress") ips
      ∧ Ending tail (wstate w)
      ∧ last tail = Some (run_status (wstate w));
  summary_raised :
    ∀ m, In m (raised_messages (wtrace w)) →
         status (wstate w) = FAILED ∧ run_status (wstate w) = "failed"
         ∧ is_Some (end_time (wstate w)) ∧ In m (errors (wstate w));
  summary_ended :
    status (wstate w) = PAUSED
    ∨ (is_Some (end_time (wstate w))
       ∧ (status (wstate w) = COMPLETED ∨ status (wstate w) = FAILED))
}.

(** ** Claims of the specification, as stated *)

(** The states a run passes through: those it made observable, then the
    one it returns. *)
Definition states_of (w : World) : list WorkflowState :=
  observed (wtrace w) ++ [wstate w].

(** [0 ≤ retry_count ≤ max_retries] *)
Definition within_budget (s : WorkflowState) : Prop :=
  0 ≤ retry_count s ≤ max_retries s.

(** Every counted retry is a recorded pair of [qa] or [judge] followed by
    [execution]; the pair of the retry being announced is completed by the
    entry appended right after the announcement. *)
Definition retries_recorded (s : WorkflowState) : Prop :=
  retry_count s = Z.of_nat (retry_pairs (route_history s))
  ∨ (retry_count s = Z.of_nat (retry_pairs (route_history s)) + 1
     ∧ ∃ q, last_step (route_history s) = Some q ∧ mem q ["qa"; "judge"] = true).

(** [status == paused] iff [pause_reason] is non-null and
    [approval_granted] is unset. *)
Definition paused_iff_reason (s : WorkflowState) : Prop :=
  status s = PAUSED ↔ (pause_reason s ≠ VNone ∧ approval_granted s = None).

(** The assignments of a label other than [in_progress] and [failed]. *)
Definition label_assignments (writes : list string) : list string :=
  filter (λ v, negb (v =? "in_progress")%string && negb (v =? "failed")%string = true)
         writes.

(** ** The quality-check worker's forced failure ([QAAgent.execute]) *)

(** The status [QAAgent.execute] reports, given the names of its own checks
    that failed and whether the quality score reaches the threshold. *)
Definition QAAgent_status (failed_checks : list string) (score_reached : bool)
    (state : WorkflowState) : QAStatus :=
  let failed_checks :=
    if force_qa_fail_once (request state) && (retry_count state =? 0)
    then failed_checks ++ ["forced_failure"] else failed_checks in
  if bool_decide (failed_checks = []) && score_reached then PASS else FAIL.

(** ** Sample runs *)

Module Sample.

Definition returns (result : gmap string PyVal) : Worker :=
  λ _, mkOutcome [] (Returns result).

Definition request (budget : Z) (force : bool) : Request :=
  mkRequest "en" "es" "legal" 3 "LEGAL SERVICES AGREEMENT" budget true force false [].

Definition intake : Worker := returns {[ "word_count" := VOther "3" true ]}.

(** The planner of a short document, and the planner of a long one
    ([page_count > 15]), as [PlannerAgent.execute] answers. *)
Definition planner : Worker :=
  returns {[ "requires_approval" := VBool false; "approval_reason" := VNone ]}.

Definition planner_long : Worker :=
  returns {[ "requires_approval" := VBool true;
             "approval_reason" := VStr "Estimated runtime exceeds approval threshold." ]}.

Definition execution : Worker :=
  returns {[ "translation" := VStr "[es] LEGAL SERVICES AGREEMENT";
             "method" := VStr "mock" ]}.

(** A quality check whose own checks pass. *)
Definition qa : Worker :=
  λ s, mkOutcome [] (Returns {[ "status" := VStatus (QAAgent_status [] true s) ]}).

(** A quality check that fails on the second translation only. *)
Definition qa_second_fails : Worker :=
  λ s, mkOutcome []
         (Returns {[ "status" := VStatus (if retry_count s =? 1 then FAIL else PASS) ]}).

Definition judge : Worker := returns {[ "action" := VStr "accept" ]}.

(** A judge that asks for a retry of the first translation. *)
Definition judge_retries_first : Worker :=
  λ s, mkOutcome []
         (Returns {[ "action" := VStr (if retry_count s =? 0 then "retry" else "accept") ]}).

Definition delivery : Worker := returns {[ "request_id" := VStr "r-1" ]}.

(** A delivery worker that records a warning while it runs. *)
Definition delivery_warns : Worker :=
  λ _, mkOutcome ["Report rendered without metadata."]
         (Returns {[ "request_id" := VStr "r-1" ]}).

Definition registry (planner qa judge delivery : Worker) : gmap string Worker :=
  <["intake" := intake]> (<["planner" := planner]> (<["execution" := execution]>
    (<["qa" := qa]> (<["judge" := judge]> (<["delivery" := delivery]> ∅))))).

Definition env (planner qa judge delivery : Worker) : Env :=
  mkEnv (registry planner qa judge delivery) 120 (λ _, 0) (λ _, "0.00").

Definition plain : Env := env planner qa judge delivery.

End Sample.

(** ** How the state grows during a run *)

(** [s'] is a later state of the same run as [s]: the logs have only been
    appended to, the retry counter has not gone down, and no duplicate
    message has come in. *)
Record Later (s s' : WorkflowState) : Prop := mkLater {
  later_events : events s `prefix_of` events s';
  later_route : route_history s `prefix_of` route_history s';
  later_warnings : warnings s `prefix_of` warnings s';
  later_errors : errors s `prefix_of` errors s';
  later_retries : retry_count s ≤ retry_count s';
  later_warnings_nodup : NoDup (warnings s) → NoDup (warnings s');
  later_errors_nodup : NoDup (errors s) → NoDup (errors s')
}.

(** The states of a run in order: the one built from the request, those
    the run made observable, then the current one. *)
Record Ordered (s0 : WorkflowState) (w : World) : Prop := mkOrdered {
  ordered_trace : StronglySorted Later (s0 :: observed (wtrace w));
  ordered_now : Forall (λ s, Later s (wstate w)) (s0 :: observed (wtrace w))
}.

(** ** Steps, calls and failures *)

(** The steps whose workers were called, in order. *)
Fixpoint called (t : list Action) : list string :=
  match t with
  | [] => []
  | Called a _ :: r => a :: called r
  | _ :: r => called r
  end.

(** The messages of the events that announce a retry, in order. *)
Definition retry_announcements (l : list Event) : list string :=
  ev_message <$> filter (λ e, (ev_status e =? "retry")%string = true) l.

(** The message that announces the [n]-th retry. *)
Definition retry_message (n : nat) : string :=
  "Retrying translation, attempt " +:+ str_of_Z (Z.of_nat n).

(** The log of a run under way: it opens with the start of the workflow,
    and the retries counted so far are the ones announced, numbered
    from 1. *)
Record Logged (s : WorkflowState) : Prop := mkLogged {
  logged_open :
    head (events s) = Some (mkEvent "workflow" "started" "info" "Workflow started.");
  logged_count : 0 ≤ retry_count s;
  logged_retries :
    retry_announcements (events s) = retry_message <$> seq 1 (Z.to_nat (retry_count s))
}.

(** [s'] has the retry counter of [s] and its events, followed by events
    that announce no retry. *)
Definition Grown (s s' : WorkflowState) : Prop :=
  retry_count s' = retry_count s
  ∧ ∃ l, events s' = events s ++ l ∧ Forall (λ e, ev_status e ≠ "retry") l.

(** [step_status] of a step before it is entered: pending when the step is
    registered, absent otherwise. *)
Definition initial_step_status (env : Env) (k : string) : option string :=
  (λ _, "pending") <$> worker_agents env !! k.

(** The world at the head of a pass of the loop: every step of the route
    was executed by its worker, which returned, and is marked completed;
    the other steps are as at the start. *)
Record Tidy (env : Env) (w : World) : Prop := mkTidy {
  tidy_calls : called (wtrace w) = route_history (wstate w);
  tidy_returned : raised_messages (wtrace w) = [];
  tidy_registered :
    ∀ k, In k (route_history (wstate w)) → is_Some (worker_agents env !! k);
  tidy_completed :
    ∀ k, In k (route_history (wstate w)) → step_status (wstate w) !! k = Some "completed";
  tidy_pending :
    ∀ k, ¬ In k (route_history (wstate w)) →
         step_status (wstate w) !! k = initial_step_status env k
}.

(** The world after the step [c], entered with the route [h] behind it,
    raised [m]: either [c] has no worker, and the exception is the
    unknown-agent error raised before anything was done, or the worker of
    [c] raised [m] and [c] is marked failed. *)
Record Broken (env : Env) (m c : string) (h : list string) (w : World) : Prop :=
  mkBroken {
  broken_last : route_history (wstate w) = h ++ [c];
  broken_cause :
    (worker_agents env !! c = None
     ∧ m = "Unknown agent: " +:+ c
     ∧ called (wtrace w) = h
     ∧ raised_messages (wtrace w) = []
     ∧ ¬ In c h)
    ∨ ((∃ (worker : Worker) s, worker_agents env !! c = Some worker
                    ∧ completion (worker s) = Raises m)
       ∧ called (wtrace w) = route_history (wstate w)
       ∧ raised_messages (wtrace w) = [m]
       ∧ step_status (wstate w) !! c = Some "failed");
  broken_completed :
    ∀ k, In k h → k ≠ c → step_status (wstate w) !! k = Some "completed";
  broken_pending :
    ∀ k, ¬ In k (route_history (wstate w)) →
         step_status (wstate w) !! k = initial_step_status env k
}.

(** The step names a path expression mentions. *)
Fixpoint symbols (r : Path.re) : list string :=
  match r with
  | Path.Void | Path.Eps => []
  | Path.Sym s => [s]
  | Path.Seq a b | Path.Alt a b => symbols a ++ symbols b
  | Path.Star a => symbols a
  end.

(** The steps that have a worker. *)
Definition worker_steps : list string :=
  ["intake"; "planner"; "execution"; "qa"; "judge"; "delivery"].

(** ** The workers ([src/agents]) *)

(** *** Python strings (ASCII text, as for [lower]) *)

(** [c.isspace()] *)
Definition is_space (c : ascii) : bool :=
  let n := nat_of_ascii c in
  ((9 <=? n)%nat && (n <=? 13)%nat) || ((28 <=? n)%nat && (n <=? 32)%nat).

(** [s.lstrip()] *)
Fixpoint lstrip (s : string) : string :=
  match s with
  | EmptyString => EmptyString
  | String c r => if is_space c then lstrip r else s
  end.

(** [s.rstrip()] *)
Fixpoint rstrip (s : string) : string :=
  match s with
  | EmptyString => EmptyString
  | String c r =>
      let r := rstrip r in
      if is_space c && (r =? "")%string then EmptyString else String c r
  end.

(** [s.strip()] *)
Definition strip (s : string) : string := rstrip (lstrip s).

(** [len(s.split())]: the maximal runs of characters that are not
    whitespace; [in_word] tells whether the character before was in one. *)
Fixpoint count_words (in_word : bool) (s : string) : Z :=
  match s with
  | EmptyString => 0
  | String c r =>
      if is_space c then count_words false r
      else (if in_word then 0 else 1) + count_words true r
  end.

(** [sep.join(parts)] *)
Fixpoint join (sep : string) (parts : list string) : string :=
  match parts with
  | [] => ""
  | p :: r => match r with [] => p | _ => p +:+ sep +:+ join sep r end
  end.

(** [needle in hay] *)
Fixpoint contains (needle hay : string) : bool :=
  String.prefix needle hay
  || match hay with
     | EmptyString => false
     | String _ r => contains needle r
     end.

(** An [int] stored in a result mapping. *)
Definition VInt (n : Z) : PyVal := VOther (str_of_Z n) (negb (n =? 0)).

(** *** [IntakeAgent] ([src/agents/intake_agent.py]) *)

Module IntakeAgent.

Definition _validate_request (state : WorkflowState) : list string :=
  let r := request state in
  let errors := [] in
  let errors :=
    if (strip (raw_text r) =? "")%string
    then errors ++ ["raw_text is required"] else errors in
  let errors :=
    if (strip (lower (source_language r)) =? strip (lower (target_language r)))%string
    then errors ++ ["source and target language must differ"] else errors in
  let errors :=
    if page_count r <? 1
    then errors ++ ["page_count must be >= 1"] else errors in
  errors.

Definition _estimate_complexity (word_count page_count : Z) : string :=
  if (10 <? page_count) || (4000 <? word_count) then "high"
  else if (3 <? page_count) || (1200 <? word_count) then "medium"
  else "low".

Definition execute : Worker := λ state,
  let errors := _validate_request state in
  if negb (bool_decide (errors = [])) then mkOutcome [] (Raises (join "; " errors))
  else
    let r := request state in
    let word_count := count_words false (raw_text r) in
    mkOutcome []
      (Returns
         (<["source_language" := VStr (strip (lower (source_language r)))]>
         (<["target_language" := VStr (strip (lower (target_language r)))]>
         (<["document_type" := VStr (strip (lower (document_type r)))]>
         (<["page_count" := VInt (page_count r)]>
         (<["word_count" := VInt word_count]>
         (<["estimated_complexity" :=
              VStr (_estimate_complexity word_count (page_count r))]> ∅))))))).

End IntakeAgent.

(** *** [PlannerAgent] ([src/agents/planner_agent.py]) *)

Module PlannerAgent.

(** [int(base * multiplier)] with the multipliers 1.0, 1.5 and 2.0: the
    product is exact in floating point as long as [base] is below 2^52,
    and [int] truncates it. *)
Definition _estimate_duration (word_count : Z) (complexity : string) : Z :=
  let base := Z.max 5 (word_count / 25) in
  if (complexity =? "low")%string then base
  else if (complexity =? "medium")%string then Z.quot (3 * base) 2
  else if (complexity =? "high")%string then 2 * base
  else base.

(** The plan built by [execute]. *)
Definition plan (state : WorkflowState) (word_count : Z) : list string :=
  let plan := ["normalize_content"] in
  let plan :=
    if parallel_execution (request state) || (500 <? word_count)
    then plan ++ ["translate_chunks_parallel"]
    else plan ++ ["translate_single_pass"] in
  plan ++ ["run_quality_checks"; "format_output"].

Definition requires_approval (state : WorkflowState) (word_count : Z)
    (complexity : string) : bool :=
  let estimated_seconds := _estimate_duration word_count complexity in
  (60 <? estimated_seconds) || (15 <? page_count (request state)).

(** [repr] of a list of plain strings. *)
Definition repr_list (l : list string) : string :=
  "[" +:+ join ", " ((λ s, "'" +:+ s +:+ "'") <$> l) +:+ "]".

(** The result of [execute]; [word_count] and [complexity] are the two
    values it reads from [normalized_request], an integer and a string. *)
Definition execute (word_count : Z) (complexity : string) (state : WorkflowState)
    : gmap string PyVal :=
  let requires_approval := requires_approval state word_count complexity in
  let approval_reason :=
    if requires_approval then VStr "Estimated runtime exceeds approval threshold."
    else VNone in
  <["plan" := VOther (repr_list (plan state word_count)) true]>
  (<["estimated_duration_seconds" := VInt (_estimate_duration word_count complexity)]>
  (<["requires_approval" := VBool requires_approval]>
  (<["approval_reason" := approval_reason]> ∅))).

End PlannerAgent.

(** *** [QAAgent] ([src/agents/qa_agent.py]) *)

Module QAAgent.

Definition _generate_recommendations (failed_checks warning_checks : list string)
    : list string :=
  let recommendations := [] in
  let recommendations :=
    if mem "length_check" failed_checks
    then recommendations ++ ["Review translation length for missing or extra content."]
    else recommendations in
  let recommendations :=
    if mem "format_check" failed_checks
    then recommendations ++ ["Restore line/section formatting."]
    else recommendations in
  let recommendations :=
    if mem "terminology_check" failed_checks
    then recommendations ++ ["Validate domain terminology consistency."]
    else recommendations in
  let recommendations :=
    if mem "terminology_check" warning_checks
    then recommendations
           ++ ["Setting Document type to non-legal is recommended for non-legal documents."]
    else recommendations in
  let recommendations :=
    if mem "forced_failure" failed_checks
    then recommendations ++ ["Retry triggered as part of QA safety drill."]
    else recommendations in
  let recommendations :=
    if bool_decide (recommendations = []) && negb (bool_decide (failed_checks = []))
    then recommendations ++ ["Perform manual reviewer spot-check."]
    else recommendations in
  recommendations.

(** The failed checks [execute] reports, given the names of its own checks
    that failed. *)
Definition failed_checks (own : list string) (state : WorkflowState) : list string :=
  if force_qa_fail_once (request state) && (retry_count state =? 0)
  then own ++ ["forced_failure"] else own.

End QAAgent.

(** *** [JudgeAgent] ([src/agents/judge_agent.py]) *)

Module JudgeAgent.

(** The score bands [execute] tells apart: [score < 60], [60 <= score < 80]
    and [score >= 80]. *)
Inductive Band := Low | Borderline | Acceptable.

(** The action [execute] recommends. *)
Definition action (band : Band) (state : WorkflowState) : string :=
  let qa_failed_checks :=
    if bool_decide (qa_result state = ∅) then VOther "[]" false
    else get (qa_result state) "failed_checks" (VOther "[]" false) in
  if truthy qa_failed_checks then "human_review"
  else
    match band with
    | Low => "retry"
    | Borderline => "human_review"
    | Acceptable => "accept"
    end.

End JudgeAgent.

(** *** [ExecutionAgent]: the proxy variables ([src/agents/execution_agent.py]) *)

Module ExecutionAgent.

(** [os.environ], case-sensitive as on POSIX systems. *)
Definition Environ : Type := gmap string string.

(** A [dict] in insertion order. *)
Definition Saved : Type := list (string * string).

(** [saved[key] = value] *)
Fixpoint dict_set (key value : string) (saved : Saved) : Saved :=
  match saved with
  | [] => [(key, value)]
  | (k, v) :: r =>
      if (k =? key)%string then (k, value) :: r else (k, v) :: dict_set key value r
  end.

Definition proxy_keys : list string :=
  ["HTTP_PROXY"; "HTTPS_PROXY"; "ALL_PROXY"; "http_proxy"; "https_proxy"; "all_proxy"].

Definition _detect_broken_proxy_keys (environ : Environ) : list string :=
  fold_left
    (λ broken key,
       let value := default "" (environ !! key) in
       if contains "127.0.0.1:9" value then broken ++ [key] else broken)
    proxy_keys [].

(** Returns [saved] and the environment it leaves. *)
Definition _strip_broken_proxy_env (keys : list string) (environ : Environ)
    : Saved * Environ :=
  fold_left
    (λ '(saved, environ) key,
       match environ !! key with
       | Some value => (dict_set key value saved, delete key environ)
       | None => (saved, environ)
       end)
    keys ([], environ).

Definition _restore_proxy_env (saved : Saved) (environ : Environ) : Environ :=
  fold_left (λ environ '(key, value), <[key := value]> environ) saved environ.

End ExecutionAgent.


(** ** The pipeline's own intake and planner in sample runs *)

Module Pipeline.

(** [PlannerAgent.execute] on a state whose [normalized_request] is what
    [IntakeAgent.execute] stored for the request of the run: the word count
    and the complexity it reads there are the ones the intake worker
    computed from the request. *)
Definition planner : Worker := λ state,
  let word_count := count_words false (raw_text (request state)) in
  let complexity :=
    IntakeAgent._estimate_complexity word_count (page_count (request state)) in
  mkOutcome [] (Returns (PlannerAgent.execute word_count complexity state)).


Definition registry (qa judge delivery : Worker) : gmap string Worker :=
  <["intake" := IntakeAgent.execute]> (<["planner" := planner]>
    (<["execution" := Sample.execution]>
    (<["qa" := qa]> (<["judge" := judge]> (<["delivery" := delivery]> ∅))))).

Definition env (qa judge delivery : Worker) : Env :=
  mkEnv (registry qa judge delivery) 120 (λ _, 0) (λ _, "0.00").

Definition plain : Env := env Sample.qa Sample.judge Sample.delivery.

End Pipeline.

(** ** Worker calls that raise outside [Exception] *)

(** How [await worker.execute(state)] ends, once the raises that are no
    [Exception] are told apart: [asyncio.CancelledError],
    [KeyboardInterrupt], [SystemExit] and the other classes that derive
    from [BaseException] directly. Neither [except Exception] clause of
    [master_agent.py] (lines 141 and 181) catches them. A call that
    [Completes] returns or raises an [Exception], as its [Outcome] says; an
    [Interrupted] call has added its warnings to the state and raised
    [message] outside [Exception]. *)
Inductive Call :=
| Completes (outcome : Outcome)
| Interrupted (added_warnings : list string) (message : string).

Definition Agent : Type := WorkflowState → Call.

Record Setting := mkSetting {
  agents : gmap string Agent;
  sla : Z;
  wall_clock : nat → Z;
  perf_counter : nat → string
}.

(** The worker that raises an [Exception] where the agent is interrupted. *)
Definition caught (agent : Agent) : Worker :=
  λ s, match agent s with
       | Completes outcome => outcome
       | Interrupted added message => mkOutcome added (Raises message)
       end.

(** The environment with the clocks, the threshold and the worker names of
    a setting; the code that calls no worker ([begin], [sla_check],
    [finalize], [handler]) reads nothing else. *)
Definition env_of (E : Setting) : Env :=
  mkEnv (caught <$> agents E) (sla E) (wall_clock E) (perf_counter E).

(** The setting of an environment: no call is interrupted. *)
Definition uninterrupted (env : Env) : Setting :=
  mkSetting ((λ (worker : Worker) s, Completes (worker s)) <$> worker_agents env)
            (sla_seconds env) (clock env) (perf_elapsed env).

(** What a piece of code does with an exception that is no [Exception]:
    it ends [Within] its own control flow, with a value of [A], or the
    exception has [Escaped] it, leaving the world [w] behind. *)
Inductive Run (A : Type) :=
| Within (a : A)
| Escaped (message : string) (w : World).

Arguments Within {A} a.
Arguments Escaped {A} message w.

(** The agent of step [a], called on the state [s], is interrupted: it
    raises [message] outside [Exception]. *)
Definition Interrupts (E : Setting) (a : string) (s : WorkflowState)
    (message : string) : Prop :=
  ∃ (agent : Agent) added, agents E !! a = Some agent ∧ agent s = Interrupted added message.

Module Interruptible.

(** [MasterAgent._execute_step]: the [except Exception] clause of line 181
    marks the step failed and raises again; any other exception leaves
    the method at once, the step still marked [in_progress]. *)
Definition _execute_step (E : Setting) (agent_name : string) (w : World) : Run Res :=
  match agents E !! agent_name with
  | None => Within (Raised ("Unknown agent: " +:+ agent_name) w)
  | Some worker =>
      let w := mutate (set_current_agent (Some agent_name)) w in
      let w := mutate (set_step_status agent_name "in_progress") w in
      let w := _emit_event w agent_name "in_progress" (agent_name +:+ " started.") "info" in
      match worker (wstate w) with
      | Interrupted added message =>
          Escaped message
            (mutate (λ s, fold_left (λ s m, add_warning m s) added s) w)
      | Completes outcome =>
          let w := record (Called agent_name outcome) w in
          let w :=
            mutate (λ s, fold_left (λ s m, add_warning m s) (added_warnings outcome) s) w in
          match completion outcome with
          | Raises message =>
              let w := mutate (set_step_status agent_name "failed") w in
              Within (Raised message (_emit_event w agent_name "failed" message "error"))
          | Returns result =>
              let elapsed := perf_counter E (List.length (events (wstate w))) in
              let w :=
                mutate (λ s, set_agent_timings (<[agent_name := elapsed]> (agent_timings s)) s)
                       w in
              let w := mutate (_merge_result agent_name result) w in
              let w := mutate (set_step_status agent_name "completed") w in
              let w := _emit_event w agent_name "completed"
                         (agent_name +:+ " completed in " +:+ elapsed +:+ "s.") "info" in
              Within (Ok (if (agent_name =? "delivery")%string
                          then mutate _refresh_delivery_metadata w else w))
          end
      end
  end.

(** One pass through the body of the [while] loop. *)
Definition iteration (E : Setting) (auto_approve : bool) (current_step : string)
    (previous_step : option string) (w : World) : Run Iter :=
  if (current_step =? "pause_for_approval")%string then
    if auto_approve then
      let w := mutate (set_approval_granted (Some true)) w in
      let w := mutate (set_status IN_PROGRESS) w in
      let w := assign_run_status (WorkflowStatus_value IN_PROGRESS) w in
      let w := mutate (set_pause_reason VNone) w in
      let w := _emit_event w "approval" "auto_approved"
                 "Approval gate auto-approved by configuration." "info" in
      Within (Continue "execution" previous_step w)
    else
      let w := mutate (set_status PAUSED) w in
      let w := assign_run_status (WorkflowStatus_value PAUSED) w in
      let w := mutate (set_pause_reason (VStr "Awaiting human approval")) w in
      let w := _emit_event w "approval" "paused" (str (pause_reason (wstate w))) "warning" in
      Within (Return (save w))
  else
    let w := if retry_gate current_step previous_step (wstate w)
             then retry_attempt w else w in
    let w := mutate (λ s, set_route_history (route_history s ++ [current_step]) s) w in
    match _execute_step E current_step w with
    | Escaped message w => Escaped message w
    | Within (Raised message w) => Within (Throw message w)
    | Within (Ok w) =>
        let w := sla_check (env_of E) (save w) in
        Within (Continue (determine_next_step current_step (wstate w)) (Some current_step) w)
    end.

(** The [while] loop; [None] when [fuel] passes do not suffice. *)
Fixpoint loop (fuel : nat) (E : Setting) (auto_approve : bool) (current_step : string)
    (previous_step : option string) (w : World) : option (Run LoopEnd) :=
  if mem current_step ["end"; "delivery"] then Some (Within (Exit current_step w))
  else
    match fuel with
    | O => None
    | S fuel =>
        match iteration E auto_approve current_step previous_step w with
        | Escaped message w => Some (Escaped message w)
        | Within (Continue c p w) => loop fuel E auto_approve c p w
        | Within (Return w) => Some (Within (Returned w))
        | Within (Throw message w) => Some (Within (Thrown message w))
        end
    end.

(** Lines 120-126: the delivery step, when the loop left on it. *)
Definition deliver (E : Setting) (current_step : string) (w : World) : Run Res :=
  if (current_step =? "delivery")%string then
    let w := mutate (λ s, set_route_history (route_history s ++ [current_step]) s) w in
    let w := mutate (set_status COMPLETED) w in
    let w := mutate (λ s, set_end_time (Some (utcnow (env_of E) s)) s) w in
    let w := assign_run_status (_derive_run_status (wstate w)) w in
    match _execute_step E "delivery" w with
    | Escaped message w => Escaped message w
    | Within (Raised message w) => Within (Raised message w)
    | Within (Ok w) => Within (Ok (save w))
    end
  else Within (Ok w).

(** The body of the [try] block (lines 51-140). *)
Definition try_block (fuel : nat) (E : Setting) (auto_approve : bool) (w : World)
    : option (Run Res) :=
  match loop fuel E auto_approve "intake" None w with
  | None => None
  | Some (Escaped message w) => Some (Escaped message w)
  | Some (Within (Returned w)) => Some (Within (Ok w))
  | Some (Within (Thrown message w)) => Some (Within (Raised message w))
  | Some (Within (Exit current_step w)) =>
      match deliver E current_step w with
      | Escaped message w => Some (Escaped message w)
      | Within (Raised message w) => Some (Within (Raised message w))
      | Within (Ok w) => Some (Within (Ok (finalize (env_of E) w)))
      end
  end.

(** [MasterAgent.orchestrate] with [fuel] passes allowed to the loop.
    [Within w]: the call returns the state of [w]. [Escaped message w]: the
    call raises [message] to its caller; the [except Exception] handler of
    line 141 has not run and no state is returned. *)
Definition orchestrate_fuel (fuel : nat) (E : Setting) (initial_request : Request)
    (auto_approve : bool) : option (Run World) :=
  match try_block fuel E auto_approve (begin (env_of E) initial_request) with
  | None => None
  | Some (Escaped message w) => Some (Escaped message w)
  | Some (Within (Ok w)) => Some (Within w)
  | Some (Within (Raised message w)) => Some (Within (handler (env_of E) message w))
  end.

Definition orchestrate (E : Setting) (initial_request : Request) (auto_approve : bool)
    : option (Run World) :=
  orchestrate_fuel (enough_fuel initial_request) E initial_request auto_approve.


End Interruptible.


(** * Properties *)

(** ** The path decision procedure is exact *)

Module PathFacts.
Import Path.

Lemma matches_Void w : ¬ matches Void w.
Proof. intros H. inversion H. Qed.

Lemma matches_Eps w : matches Eps w ↔ w = [].
Proof. split; [intros H; by inversion H | intros ->; constructor]. Qed.

Lemma matches_Sym s w : matches (Sym s) w ↔ w = [s].
Proof. split; [intros H; by inversion H | intros ->; constructor]. Qed.

Lemma matches_Seq a b w :
  matches (Seq a b) w ↔ ∃ u v, w = u ++ v ∧ matches a u ∧ matches b v.
Proof.
  split.
  - intros H. inversion H; subst. eauto.
  - intros (u & v & -> & Ha & Hb). by constructor.
Qed.

Lemma matches_Alt a b w : matches (Alt a b) w ↔ matches a w ∨ matches b w.
Proof.
  split.
  - intros H. inversion H; subst; auto.
  - intros [H | H]; [by apply m_alt_l | by apply m_alt_r].
Qed.

(** A non-empty word of [Star a] starts with a non-empty word of [a]. *)
Lemma matches_Star_cons a x w :
  matches (Star a) (x :: w) →
  ∃ u v, w = u ++ v ∧ matches a (x :: u) ∧ matches (Star a) v.
Proof.
  intros H. remember (Star a) as r eqn:Er. remember (x :: w) as xs eqn:Ex.
  revert x w Ex. induction H as [| | | | | |a' u v Hu _ Hv IHv]; intros x w Ex;
    try discriminate.
  injection Er as ->. destruct u as [|y u].
  - simpl in Ex. by apply IHv.
  - simpl in Ex. injection Ex as Ey Ew. subst y w. eauto.
Qed.

Lemma nullable_spec r : nullable r = true ↔ matches r [].
Proof.
  induction r as [| |s|a IHa b IHb|a IHa b IHb|a IHa]; simpl.
  - split; [done | intros H; by apply matches_Void in H].
  - split; [constructor | done].
  - split; [done | intros H; by apply matches_Sym in H].
  - rewrite andb_true_iff, IHa, IHb, matches_Seq. split.
    + intros [Ha Hb]. by exists [], [].
    + intros (u & v & E & Ha & Hb). symmetry in E.
      apply app_eq_nil in E as [-> ->]. done.
  - by rewrite orb_true_iff, IHa, IHb, matches_Alt.
  - split; [constructor | done].
Qed.

Lemma seq_spec a b w : matches (seq a b) w ↔ matches (Seq a b) w.
Proof.
  revert b w. induction a as [| |s|a1 IH1 a2 IH2|a1 IH1 a2 IH2|a IHa]; intros b w;
    simpl; try done.
  - rewrite matches_Seq. split; [intros H; by apply matches_Void in H |].
    intros (u & v & _ & H & _). by apply matches_Void in H.
  - rewrite matches_Seq. split.
    + intros H. exists [], w. split; [done | split; [constructor | done]].
    + intros (u & v & -> & Hu & Hv). apply matches_Eps in Hu as ->. done.
  - rewrite !matches_Seq. split.
    + intros (u & v & -> & Hu & Hv). apply IH2, matches_Seq in Hv as (v1 & v2 & -> & H1 & H2).
      exists (u ++ v1), v2. rewrite app_assoc. split; [done |]. split; [by constructor | done].
    + intros (u & v & -> & Hu & Hv). apply matches_Seq in Hu as (u1 & u2 & -> & H1 & H2).
      exists u1, (u2 ++ v). rewrite app_assoc. split; [done |]. split; [done |].
      apply IH2. by constructor.
Qed.

Lemma alt_spec a b w : matches (alt a b) w ↔ matches (Alt a b) w.
Proof.
  rewrite matches_Alt.
  destruct a, b; simpl; rewrite ?matches_Alt;
    split; auto; intros [H | H]; auto; by apply matches_Void in H.
Qed.

Lemma deriv_spec x r w : matches (deriv x r) w ↔ matches r (x :: w).
Proof.
  revert w. induction r as [| |s|a IHa b IHb|a IHa b IHb|a IHa]; intros w; simpl.
  - split; intros H; by apply matches_Void in H.
  - split; intros H; [by apply matches_Void in H | by apply matches_Eps in H].
  - destruct (String.eqb_spec x s) as [-> | Hne].
    + rewrite matches_Eps, matches_Sym. split; [by intros -> | by intros [= ->]].
    + rewrite matches_Sym. split; [intros H; by apply matches_Void in H |].
      intros [= -> ->]. done.
  - rewrite alt_spec, matches_Alt, seq_spec, !matches_Seq. split.
    + intros [(u & v & -> & Hu & Hv) | H].
      * exists (x :: u), v. split; [done |]. split; [by apply IHa | done].
      * destruct (nullable a) eqn:Hn; [| by apply matches_Void in H].
        exists [], (x :: w). split; [done |]. split; [by apply nullable_spec | by apply IHb].
    + intros (u & v & E & Hu & Hv). destruct u as [|y u]; simpl in E.
      * right. subst v. apply nullable_spec in Hu. rewrite Hu. by apply IHb.
      * injection E as <- ->. left. exists u, v. split; [done |].
        split; [by apply IHa | done].
  - rewrite alt_spec, !matches_Alt, IHa, IHb. done.
  - rewrite seq_spec, matches_Seq. split.
    + intros (u & v & -> & Hu & Hv). apply IHa in Hu.
      change (x :: u ++ v) with ((x :: u) ++ v). by constructor.
    + intros H. apply matches_Star_cons in H as (u & v & -> & Hu & Hv).
      exists u, v. split; [done |]. split; [by apply IHa | done].
Qed.

Lemma derivs_spec r h w : matches (derivs r h) w ↔ matches r (h ++ w).
Proof.
  revert r. induction h as [|x h IH]; intros r; simpl; [done |].
  unfold derivs in *. simpl. by rewrite IH, deriv_spec.
Qed.

Lemma inhabited_spec r : inhabited r = true ↔ ∃ w, matches r w.
Proof.
  induction r as [| |s|a IHa b IHb|a IHa b IHb|a IHa]; simpl.
  - split; [done | intros [w H]; by apply matches_Void in H].
  - split; [intros _; exists []; constructor | done].
  - split; [intros _; exists [s]; constructor | done].
  - rewrite andb_true_iff, IHa, IHb. split.
    + intros [[u Hu] [v Hv]]. exists (u ++ v). by constructor.
    + intros [w H]. apply matches_Seq in H as (u & v & _ & Hu & Hv). eauto.
  - rewrite orb_true_iff, IHa, IHb. split.
    + intros [[w H] | [w H]]; exists w; [by apply m_alt_l | by apply m_alt_r].
    + intros [w H]. apply matches_Alt in H as [H | H]; eauto.
  - split; [intros _; exists []; constructor | done].
Qed.

Lemma prefix_ok_spec r h : prefix_ok r h = true ↔ is_prefix_of r h.
Proof.
  unfold prefix_ok, is_prefix_of. rewrite inhabited_spec.
  split; intros [w H]; exists w; by apply derivs_spec.
Qed.

Lemma derivs_snoc r h x : derivs r (h ++ [x]) = deriv x (derivs r h).
Proof. unfold derivs. by rewrite fold_left_app. Qed.

End PathFacts.

(** ** The router *)

Lemma mem_In x names : mem x names = true ↔ In x names.
Proof.
  induction names as [|y names IH]; simpl; [split; [done | intros []] |].
  rewrite orb_true_iff, IH, String.eqb_eq. split; intros [E | H]; auto.
Qed.

Lemma mem_snoc x names y : mem x (names ++ [y]) = mem x names || (x =? y)%string.
Proof.
  induction names as [|z names IH]; simpl; [by rewrite orb_false_r |].
  by rewrite IH, orb_assoc.
Qed.

Lemma choice_iff (b : bool) (P : Prop) (x y : string) :
  x ≠ y → (b = true ↔ P) →
  ((if b then x else y) = x ↔ P) ∧ ((if b then x else y) = y ↔ ¬ P).
Proof.
  intros Hne Hb. destruct b.
  - split; [split; [intros _; by apply Hb | done] |].
    split; [done | intros Hn; exfalso; apply Hn; by apply Hb].
  - split; [split; [intros E; by symmetry in E | intros HP; apply Hb in HP; done] |].
    split; [intros _ HP; apply Hb in HP; done | done].
Qed.

Lemma router_planner s :
  determine_next_step "planner" s =
  if truthy (requires_approval s) && bool_decide (approval_granted s = None)
  then "pause_for_approval" else "execution".
Proof. reflexivity. Qed.

Lemma router_qa s :
  determine_next_step "qa" s =
  if eq_FAIL (get (qa_result s) "status" VNone) && (retry_count s <? max_retries s)
  then "execution" else "judge".
Proof. reflexivity. Qed.

Lemma router_judge s :
  determine_next_step "judge" s =
  if (judge_action s =? "retry")%string && (retry_count s <? max_retries s)
  then "execution" else "delivery".
Proof. reflexivity. Qed.

(** C1. The router is a total function of the current step name and the
    state, and reads the state without changing it (the source has no
    assignment; the value it returns depends only on the fields of
    [router_view]). It answers [planner] after [intake]; after [planner] it
    answers [pause_for_approval] exactly when the planner requested approval
    and [approval_granted] is unset, else [execution]; [qa] after
    [execution]; after [qa] it answers [execution] exactly when the QA
    status is fail and [retry_count < max_retries], else [judge]; after
    [judge] it answers [execution] exactly when the judge's action is retry
    and [retry_count < max_retries], else [delivery]; [end] after
    [delivery] and after any other step name. *)
Theorem router_rules (step : string) (s : WorkflowState) :
  let next := determine_next_step step s in
  In next step_names
  ∧ (step = "intake" → next = "planner")
  ∧ (step = "planner" →
       (next = "pause_for_approval" ↔ approval_requested s ∧ approval_granted s = None)
       ∧ (next = "execution" ↔ ¬ (approval_requested s ∧ approval_granted s = None)))
  ∧ (step = "execution" → next = "qa")
  ∧ (step = "qa" →
       (next = "execution" ↔ qa_status_fail s ∧ retry_count s < max_retries s)
       ∧ (next = "judge" ↔ ¬ (qa_status_fail s ∧ retry_count s < max_retries s)))
  ∧ (step = "judge" →
       (next = "execution" ↔ judge_action s = "retry" ∧ retry_count s < max_retries s)
       ∧ (next = "delivery" ↔ ¬ (judge_action s = "retry" ∧ retry_count s < max_retries s)))
  ∧ (step = "delivery" → next = "end")
  ∧ (¬ In step ["intake"; "planner"; "execution"; "qa"; "judge"; "delivery"] →
       next = "end")
  ∧ (∀ s', router_view s' = router_view s → determine_next_step step s' = next).
Proof.
  cbv zeta. unfold approval_requested, qa_status_fail, judge_action.
  split; [| split; [| split; [| split; [| split; [| split; [| split; [| split]]]]]]].
  - unfold determine_next_step, step_names.
    repeat (case_match; simpl; auto 10).
  - by intros ->.
  - intros ->. rewrite router_planner. apply choice_iff; [done |].
    rewrite andb_true_iff, bool_decide_eq_true. done.
  - by intros ->.
  - intros ->. rewrite router_qa. apply choice_iff; [done |].
    rewrite andb_true_iff, Z.ltb_lt. done.
  - intros ->. rewrite router_judge. apply choice_iff; [done |].
    rewrite andb_true_iff, Z.ltb_lt, String.eqb_eq. done.
  - by intros ->.
  - intros Hn. unfold determine_next_step.
    repeat match goal with
           | |- context [(step =? ?x)%string] =>
               destruct (String.eqb_spec step x) as [-> | _];
               [exfalso; apply Hn; simpl; auto 10 |]
           end.
    done.
  - intros s' Hv. unfold router_view in Hv.
    injection Hv as Ha Hg Hq Hj Hr Hm.
    unfold determine_next_step. by rewrite Ha, Hg, Hq, Hj, Hr, Hm.
Qed.

(** ** The run-status derivation *)

(** Which QA statuses [_qa_failed] takes for a failure. *)
Lemma qa_failed_spec s :
  _qa_failed s = true ↔ counts_as_fail (get (qa_result s) "status" VNone).
Proof.
  unfold _qa_failed, counts_as_fail.
  destruct (get (qa_result s) "status" VNone) as [| b | x | q | r t]; simpl.
  - split; [done |]. intros [? | [(x & ? & _) | (r & t & ? & _)]]; done.
  - split.
    + by destruct b.
    + intros [? | [(x & ? & _) | (r & t & ? & _)]]; done.
  - rewrite String.eqb_eq. split.
    + intros H. right. left. by exists x.
    + intros [? | [(y & [= <-] & H) | (r & t & ? & _)]]; done.
  - split.
    + destruct q; try done. intros _. by left.
    + intros [[= ->] | [(x & ? & _) | (r & t & ? & _)]]; done.
  - rewrite String.eqb_eq. split.
    + intros H. right. right. by exists r, t.
    + intros [? | [(y & ? & _) | (r' & t' & [= <- <-] & H)]]; done.
Qed.

Lemma derive_cases s :
  status s ≠ FAILED → status s ≠ PAUSED →
  (_derive_run_status s = "completed_with_warnings" ∧ degraded s)
  ∨ (_derive_run_status s = "completed" ∧ ¬ degraded s).
Proof.
  intros Hf Hp. pose proof (qa_failed_spec s) as Q.
  unfold _derive_run_status, degraded, judge_action.
  destruct (status s); try done; simpl.
  all: destruct (errors s) as [|e es]; simpl; [| left; split; [done | by left]].
  all: destruct (warnings s) as [|x xs]; simpl; [| left; split; [done | right; by left]].
  all: destruct (_qa_failed s); simpl;
    [left; split; [done | right; right; left; by apply Q] |].
  all: destruct (String.eqb_spec
                   (lower (str (get (judge_result s) "action" (VStr "accept")))) "accept")
         as [He | He]; simpl;
    [| left; split; [done | right; right; right; by left]].
  all: destruct (Z.ltb_spec 0 (retry_count s)) as [Hr | Hr];
    [left; split; [done | right; right; right; by right] |].
  all: right; split; [done |].
  all: intros [? | [? | [Hc | [? | ?]]]]; try done; [by apply Q in Hc | lia].
Qed.

(** C4. The derivation answers [failed] when the status is failed;
    otherwise [paused] when the status is paused; otherwise
    [completed_with_warnings] exactly when errors is non-empty, or warnings
    is non-empty, or the last QA status is fail, or the last judge action
    differs from accept, or [retry_count > 0], and [completed] otherwise.
    The QA status is fail when it is the member [QAStatus.FAIL] or a value
    outside [QAStatus] that reads "fail" in lower case ([counts_as_fail]);
    the judge action is read in lower case, a missing one being accept.
    The derivation only reads the state: assigning its answer to
    [run_status] leaves errors, warnings and every other field as they were,
    and deriving again gives the same label. *)
Theorem derive_run_status_rules (s : WorkflowState) :
  let label := _derive_run_status s in
  (status s = FAILED → label = "failed")
  ∧ (status s = PAUSED → label = "paused")
  ∧ (status s ≠ FAILED → status s ≠ PAUSED →
       (label = "completed_with_warnings"
        ↔ errors s ≠ [] ∨ warnings s ≠ []
          ∨ counts_as_fail (get (qa_result s) "status" VNone)
          ∨ lower (str (get (judge_result s) "action" (VStr "accept"))) ≠ "accept"
          ∨ 0 < retry_count s)
       ∧ (label = "completed"
          ↔ errors s = [] ∧ warnings s = []
            ∧ ¬ counts_as_fail (get (qa_result s) "status" VNone)
            ∧ lower (str (get (judge_result s) "action" (VStr "accept"))) = "accept"
            ∧ retry_count s ≤ 0))
  ∧ (∀ w, wstate w = s →
       let s' := wstate (assign_run_status label w) in
       errors s' = errors s ∧ warnings s' = warnings s
       ∧ s' = set_run_status label s)
  ∧ _derive_run_status (set_run_status label s) = label.
Proof.
  cbv zeta. split; [| split; [| split; [| split]]].
  - intros H. unfold _derive_run_status. by rewrite H.
  - intros H. unfold _derive_run_status. by rewrite H.
  - intros Hf Hp.
    change (errors s ≠ [] ∨ warnings s ≠ []
            ∨ counts_as_fail (get (qa_result s) "status" VNone)
            ∨ lower (str (get (judge_result s) "action" (VStr "accept"))) ≠ "accept"
            ∨ 0 < retry_count s) with (degraded s).
    assert (Hn : ¬ degraded s
                 ↔ errors s = [] ∧ warnings s = []
                   ∧ ¬ counts_as_fail (get (qa_result s) "status" VNone)
                   ∧ lower (str (get (judge_result s) "action" (VStr "accept")))
                     = "accept"
                   ∧ retry_count s ≤ 0).
    { unfold degraded, judge_action. split.
      - intros H.
        split; [by destruct (errors s); [| destruct H; by left] |].
        split; [by destruct (warnings s); [| destruct H; right; by left] |].
        split; [intros ?; apply H; right; right; by left |].
        split.
        + destruct (String.eqb_spec
                      (lower (str (get (judge_result s) "action" (VStr "accept"))))
                      "accept"); [done |].
          destruct H. right. right. right. by left.
        + destruct (Z.le_gt_cases (retry_count s) 0); [done |].
          destruct H. right. right. right. right. lia.
      - intros (H1 & H2 & H3 & H4 & H5) [? | [? | [? | [? | ?]]]]; try done. lia. }
    rewrite <- Hn.
    destruct (derive_cases s Hf Hp) as [[-> Hd] | [-> Hd]].
    + split; [done |]. split; [done | by intros ?].
    + split; [split; [done | by intros ?] | done].
  - intros w <-. done.
  - unfold _derive_run_status. simpl. done.
Qed.

(** ** Counting lemmas *)

Lemma occurrences_snoc x h y :
  occurrences x (h ++ [y]) = (occurrences x h + if (y =? x)%string then 1 else 0)%nat.
Proof.
  unfold occurrences. rewrite filter_app, length_app. f_equal.
  rewrite filter_cons, filter_nil. by destruct (y =? x)%string.
Qed.

Lemma retry_pairs_snoc h y :
  retry_pairs (h ++ [y]) =
  (retry_pairs h +
   match last_step h with
   | Some q => if mem q ["qa"; "judge"] && (y =? "execution")%string then 1 else 0
   | None => 0
   end)%nat.
Proof.
  induction h as [|a h IH]; [done |].
  destruct h as [|b h].
  - simpl. lia.
  - change (retry_pairs ((a :: b :: h) ++ [y]))
      with ((if mem a ["qa"; "judge"] && (b =? "execution")%string then 1 else 0)
            + retry_pairs ((b :: h) ++ [y]))%nat.
    rewrite IH.
    change (retry_pairs (a :: b :: h))
      with ((if mem a ["qa"; "judge"] && (b =? "execution")%string then 1 else 0)
            + retry_pairs (b :: h))%nat.
    change (last_step (a :: b :: h)) with (last_step (b :: h)). lia.
Qed.

Lemma last_step_snoc h y : last_step (h ++ [y]) = Some y.
Proof. apply last_snoc. Qed.

(** ** The trace projections distribute over concatenation *)

Lemma observed_app t u : observed (t ++ u) = observed t ++ observed u.
Proof.
  induction t as [|a t IH]; [done |]. destruct a; simpl; by rewrite IH.
Qed.

Lemma run_status_writes_app t u :
  run_status_writes (t ++ u) = run_status_writes t ++ run_status_writes u.
Proof.
  induction t as [|a t IH]; [done |]. destruct a; simpl; by rewrite IH.
Qed.

Lemma raised_messages_app t u :
  raised_messages (t ++ u) = raised_messages t ++ raised_messages u.
Proof.
  induction t as [|a t IH]; [done |].
  destruct a as [| | |? [? []]]; simpl; by rewrite IH.
Qed.

(** ** Quiet continuations *)

Lemma quiet_refl w : quiet w w.
Proof. exists []. rewrite app_nil_r. repeat split; constructor. Qed.

Lemma quiet_upto_trans ms1 ms2 w1 w2 w3 :
  quiet_upto ms1 w1 w2 → quiet_upto ms2 w2 w3 → quiet_upto (ms1 ++ ms2) w1 w3.
Proof.
  intros (l1 & E1 & W1 & R1 & O1 & C1) (l2 & E2 & W2 & R2 & O2 & C2).
  exists (l1 ++ l2). rewrite E2, E1, app_assoc.
  rewrite run_status_writes_app, raised_messages_app, observed_app, W1, W2, R1, R2.
  repeat split; [| congruence].
  apply Forall_app. split; [done |].
  eapply Forall_impl; [exact O2 |]. simpl. intros s Hs. congruence.
Qed.

Lemma quiet_trans w1 w2 w3 : quiet w1 w2 → quiet w2 w3 → quiet w1 w3.
Proof. intros H1 H2. exact (quiet_upto_trans [] [] _ _ _ H1 H2). Qed.

Lemma quiet_mutate f w : (∀ s, ctl (f s) = ctl s) → quiet w (mutate f w).
Proof.
  intros Hf. exists []. simpl. rewrite app_nil_r.
  repeat split; [constructor | apply Hf].
Qed.

Lemma quiet_emit w step st msg level : quiet w (_emit_event w step st msg level).
Proof.
  exists [Emitted (mkEvent step st level msg)
            (add_event (mkEvent step st level msg) (wstate w))].
  repeat split. by constructor.
Qed.

Lemma quiet_save w : quiet w (save w).
Proof. exists [Saved (wstate w)]. repeat split. by constructor. Qed.

Lemma quiet_called a o w :
  quiet_upto (raised_messages [Called a o]) w (record (Called a o) w).
Proof. exists [Called a o]. repeat split. constructor. Qed.

Lemma ctl_add_warning m s : ctl (add_warning m s) = ctl s.
Proof. unfold add_warning. by destruct (mem m (warnings s)). Qed.

Lemma ctl_add_warnings ms s :
  ctl (fold_left (λ s m, add_warning m s) ms s) = ctl s.
Proof.
  revert s. induction ms as [|m ms IH]; intros s; simpl; [done |].
  by rewrite IH, ctl_add_warning.
Qed.

Lemma ctl_merge_result a r s : ctl (_merge_result a r s) = ctl s.
Proof.
  unfold _merge_result.
  repeat (case_match; try done); by rewrite ctl_add_warning.
Qed.

Lemma ctl_refresh s : ctl (_refresh_delivery_metadata s) = ctl s.
Proof. unfold _refresh_delivery_metadata. by case_match. Qed.

Lemma quiet_sla_check env w : quiet w (sla_check env w).
Proof.
  unfold sla_check. destruct (is_breached env (wstate w)); [| apply quiet_refl].
  destruct (mem _ _); [apply quiet_refl |].
  eapply quiet_trans; [| apply quiet_emit].
  apply quiet_mutate. intros s. apply ctl_add_warning.
Qed.

Lemma quiet_then_mutate f w0 w :
  quiet w0 w → (∀ s, ctl (f s) = ctl s) → quiet w0 (mutate f w).
Proof. intros Q Hf. eapply quiet_trans; [exact Q | by apply quiet_mutate]. Qed.

Lemma quiet_then_emit w0 w step st msg level :
  quiet w0 w → quiet w0 (_emit_event w step st msg level).
Proof. intros Q. eapply quiet_trans; [exact Q | apply quiet_emit]. Qed.

Lemma quiet_then_save w0 w : quiet w0 w → quiet w0 (save w).
Proof. intros Q. eapply quiet_trans; [exact Q | apply quiet_save]. Qed.

(** A step is a quiet continuation; when it raises, the exception is
    either the unknown-agent error or the one its worker raised. *)
Lemma exec_quiet env a w :
  match _execute_step env a w with
  | Ok w' => quiet w w'
  | Raised m w' => ∃ ms, quiet_upto ms w w' ∧ (ms = [] ∨ ms = [m])
  end.
Proof.
  unfold _execute_step. destruct (worker_agents env !! a) as [wk |].
  2: { exists []. split; [apply quiet_refl | by left]. }
  set (w1 := _emit_event _ a "in_progress" _ "info").
  assert (Q1 : quiet w w1).
  { apply quiet_then_emit. apply quiet_then_mutate; [| done].
    apply quiet_then_mutate; [apply quiet_refl | done]. }
  destruct (wk (wstate w1)) as [ws cp] eqn:Ewk. simpl.
  set (w2 := mutate _ (record _ w1)).
  assert (Q2 : quiet_upto (raised_messages [Called a (mkOutcome ws cp)]) w1 w2).
  { rewrite <- (app_nil_r (raised_messages _)).
    eapply quiet_upto_trans; [apply quiet_called |].
    apply quiet_mutate. intros s. apply ctl_add_warnings. }
  destruct cp as [r | m].
  - simpl in Q2. pose proof (quiet_trans _ _ _ Q1 Q2) as Q3.
    assert (Q4 : ∀ x msg, quiet w
              (_emit_event
                 (mutate (set_step_status a "completed")
                    (mutate (_merge_result a r)
                       (mutate (λ s, set_agent_timings (<[a := x]> (agent_timings s)) s) w2)))
                 a "completed" msg "info")).
    { intros x msg. apply quiet_then_emit. apply quiet_then_mutate; [| done].
      apply quiet_then_mutate; [| intros s; apply ctl_merge_result].
      apply quiet_then_mutate; [exact Q3 | done]. }
    destruct (a =? "delivery")%string; [| apply Q4].
    apply quiet_then_mutate; [apply Q4 | intros s; apply ctl_refresh].
  - exists [m]. split; [| by right].
    change [m] with ([] ++ ([m] ++ [])).
    eapply quiet_upto_trans; [exact Q1 |].
    eapply quiet_upto_trans; [exact Q2 |].
    apply quiet_then_emit. apply quiet_then_mutate; [apply quiet_refl | done].
Qed.

(** ** Soundness is carried along quiet continuations *)

Lemma ctl_fields s s' :
  ctl s' = ctl s →
  route_history s' = route_history s ∧ retry_count s' = retry_count s
  ∧ request s' = request s ∧ status s' = status s
  ∧ approval_granted s' = approval_granted s ∧ run_status s' = run_status s
  ∧ end_time s' = end_time s ∧ errors s' = errors s.
Proof. unfold ctl. intros [= -> -> -> -> -> -> -> -> _]. done. Qed.

Lemma Sound_ctl s s' : ctl s' = ctl s → status s ≠ PAUSED → Sound s → Sound s'.
Proof.
  intros E Hp [H1 H2 H3 H4 H5 H6].
  apply ctl_fields in E as (Eh & Er & Eq & Es & _).
  split; unfold max_retries in *; rewrite ?Eh, ?Er, ?Eq, ?Es; done.
Qed.

Lemma Good_quiet ms w w' :
  quiet_upto ms w w' → status (wstate w) ≠ PAUSED → Good w → Good w'.
Proof.
  intros (l & Et & _ & _ & Ho & Ec) Hp [G1 G2 G3]. split.
  - rewrite Et, observed_app. apply Forall_app. split; [done |].
    eapply Forall_impl; [exact Ho |]. simpl. intros s Hs. by eapply Sound_ctl.
  - by eapply Sound_ctl.
  - apply ctl_fields in Ec as (-> & -> & _). done.
Qed.

Lemma quiet_writes ms w w' :
  quiet_upto ms w w' → run_status_writes (wtrace w') = run_status_writes (wtrace w).
Proof.
  intros (l & -> & W & _). by rewrite run_status_writes_app, W, app_nil_r.
Qed.

Lemma quiet_raised ms w w' :
  quiet_upto ms w w' → raised_messages (wtrace w') = raised_messages (wtrace w) ++ ms.
Proof. intros (l & -> & _ & R & _). by rewrite raised_messages_app, R. Qed.

(** ** The retry gate agrees with the router *)

Lemma lower_fail_fixed : lower "fail" = "fail".
Proof. reflexivity. Qed.

Lemma eq_FAIL_qa_failed s : qa_status_fail s → _qa_failed s = true.
Proof.
  unfold qa_status_fail, _qa_failed.
  destruct (get (qa_result s) "status" VNone) as [| |x|q|]; simpl; try done.
  intros E. apply String.eqb_eq in E as ->. done.
Qed.

Lemma judge_retry_condition s :
  judge_action s = "retry" → _retry_condition (Some "judge") s = true.
Proof.
  unfold judge_action, _retry_condition, get. simpl.
  destruct (judge_result s !! "action"); [by intros -> | done].
Qed.

Lemma retry_gate_other c p s : c ≠ "execution" → retry_gate c p s = false.
Proof.
  intros Hc. unfold retry_gate.
  destruct (String.eqb_spec c "execution"); done.
Qed.

Lemma retry_gate_budget c p s : retry_gate c p s = true → retry_count s < max_retries s.
Proof.
  unfold retry_gate. rewrite !andb_true_iff, Z.ltb_lt. tauto.
Qed.

(** ** From one step to the next *)

Lemma after_inhabited c :
  mem c ["execution"; "qa"; "judge"; "delivery"] = true →
  Path.inhabited (Path.after (Some c)) = true.
Proof.
  rewrite mem_In. simpl. intros [<- | [<- | [<- | [<- | []]]]]; reflexivity.
Qed.

Lemma in_round_ctl q s s' : ctl s' = ctl s → in_round q s → in_round q s'.
Proof.
  intros E [H1 H2 H3]. apply ctl_fields in E as (Eh & Er & _).
  split; rewrite ?Eh, ?Er; done.
Qed.

Lemma Arrived_ctl c s s' : ctl s' = ctl s → Arrived c s → Arrived c s'.
Proof.
  intros E H. pose proof (ctl_fields _ _ E) as (Eh & _).
  destruct H as [[? ?] | [[? ?] | [? ?]]].
  - left. by rewrite Eh.
  - right; left. by rewrite Eh.
  - right; right. split; [done |]. by eapply in_round_ctl.
Qed.

Lemma next_position c s :
  Arrived c s →
  Position (determine_next_step c s) (Some c) s
  ∧ (potential (determine_next_step c s) (Some c) s < 3 * remaining s + rank c)%nat.
Proof.
  unfold potential. fold (remaining s).
  intros [[-> Hh] | [[-> Hh] | [Hc Hr]]].
  - change (determine_next_step "intake" s) with "planner".
    rewrite retry_gate_other by done. split; [by apply at_planner | unfold rank; simpl; lia].
  - rewrite router_planner.
    destruct (truthy (requires_approval s) && bool_decide (approval_granted s = None))
      eqn:E.
    + rewrite retry_gate_other by done.
      apply andb_true_iff in E as [_ E]. apply bool_decide_eq_true in E.
      split; [by apply at_gate | unfold rank; simpl; lia].
    + split; [by apply at_first_execution |].
      change (retry_gate "execution" (Some "planner") s) with false. unfold rank; simpl; lia.
  - apply mem_In in Hc. simpl in Hc. destruct Hc as [<- | [<- | [<- | []]]].
    + change (determine_next_step "execution" s) with "qa".
      rewrite retry_gate_other by done. split; [by apply at_qa | unfold rank; simpl; lia].
    + rewrite router_qa.
      destruct (eq_FAIL (get (qa_result s) "status" VNone)
                && (retry_count s <? max_retries s)) eqn:E.
      * apply andb_true_iff in E as [Ef El].
        assert (G : retry_gate "execution" (Some "qa") s = true).
        { unfold retry_gate. simpl. by rewrite (eq_FAIL_qa_failed s Ef), El. }
        rewrite G. split; [by apply at_retry | unfold rank; simpl; lia].
      * rewrite retry_gate_other by done. split; [by apply at_judge | unfold rank; simpl; lia].
    + rewrite router_judge.
      destruct ((judge_action s =? "retry")%string
                && (retry_count s <? max_retries s)) eqn:E.
      * apply andb_true_iff in E as [Ef El]. apply String.eqb_eq in Ef.
        assert (G : retry_gate "execution" (Some "judge") s = true).
        { unfold retry_gate.
          rewrite (judge_retry_condition s Ef), El. done. }
        rewrite G. split; [by apply at_retry | unfold rank; simpl; lia].
      * rewrite retry_gate_other by done. split; [by apply at_delivery | unfold rank; simpl; lia].
Qed.

Lemma Sound_round_step q c s s' :
  Sound s → in_round q s →
  retry_count s = Z.of_nat (retry_pairs (route_history s)) →
  route_history s' = route_history s ++ [c] →
  request s' = request s →
  status s' ≠ PAUSED →
  retry_count s' =
    retry_count s + (if mem q ["qa"; "judge"] && (c =? "execution")%string then 1 else 0) →
  retry_count s' ≤ Z.max 0 (max_retries s) →
  ((c =? "execution")%string = true → mem q ["qa"; "judge"] = true) →
  mem c ["execution"; "qa"; "judge"; "delivery"] = true →
  Path.deriv c (Path.after (Some q)) = Path.after (Some c) →
  Sound s' ∧ in_round c s'
  ∧ retry_count s' = Z.of_nat (retry_pairs (route_history s')).
Proof.
  intros [S1 S2 S3 S4 S5 S6] [R1 R2 R3] Ex Eh Eq Hp Er Hb Hq Hc Hd.
  assert (Epath : Path.derivs Path.followed (route_history s') = Path.after (Some c)).
  { by rewrite Eh, PathFacts.derivs_snoc, R2. }
  assert (Eent : Z.of_nat (occurrences "execution" (route_history s'))
                 = 1 + retry_count s').
  { rewrite Eh, occurrences_snoc, Er.
    destruct (c =? "execution")%string; [rewrite Hq by done |];
      rewrite ?andb_false_r; simpl; lia. }
  assert (Epairs : retry_count s' = Z.of_nat (retry_pairs (route_history s'))).
  { rewrite Eh, retry_pairs_snoc, R1, Er.
    destruct (mem q ["qa"; "judge"] && (c =? "execution")%string); lia. }
  split; [| split; [| done]].
  - split.
    + rewrite Eh, mem_snoc, S1. simpl.
      apply mem_In in Hc. simpl in Hc.
      destruct Hc as [<- | [<- | [<- | [<- | []]]]]; done.
    + unfold Path.prefix_ok. rewrite Epath. by apply after_inhabited.
    + unfold max_retries in *. rewrite Eq. split; [| done].
      rewrite Er. destruct (mem q ["qa"; "judge"] && (c =? "execution")%string); lia.
    + lia.
    + by left.
    + done.
  - split; [| done | done]. rewrite Eh. apply last_step_snoc.
Qed.

(** Soundness of the first entries of the route, where no retry has been
    recorded yet. *)
Lemma Sound_early s h :
  route_history s = h →
  h = ["intake"] ∨ h = ["intake"; "planner"] ∨ h = ["intake"; "planner"; "execution"] →
  retry_count s = 0 → status s ≠ PAUSED →
  Sound s ∧ retry_count s = Z.of_nat (retry_pairs (route_history s)).
Proof.
  intros Eh Hh Er Hp.
  destruct Hh as [-> | [-> | ->]]; (split; [split |]); rewrite ?Eh, ?Er;
    try reflexivity; try done; try lia; try (by left); simpl; lia.
Qed.

Lemma ctl_add_event e s : ctl (add_event e s) = ctl s.
Proof. reflexivity. Qed.

Lemma retry_attempt_spec w :
  ∃ e, wtrace (retry_attempt w) = wtrace w ++ [Emitted e (wstate (retry_attempt w))]
       ∧ route_history (wstate (retry_attempt w)) = route_history (wstate w)
       ∧ retry_count (wstate (retry_attempt w)) = retry_count (wstate w) + 1
       ∧ request (wstate (retry_attempt w)) = request (wstate w)
       ∧ status (wstate (retry_attempt w)) = status (wstate w).
Proof.
  unfold retry_attempt, _emit_event. cbn [wstate wtrace mutate record].
  eexists. split; [reflexivity |].
  pose proof (ctl_add_warning
                ("Retrying translation, attempt "
                 +:+ str_of_Z (retry_count (wstate w) + 1))
                (set_retry_count (retry_count (wstate w) + 1) (wstate w))) as E.
  apply ctl_fields in E as (Eh & Er & Eq & Es & _).
  split; [exact Eh | split; [exact Er | split; [exact Eq | exact Es]]].
Qed.

(** ** Entering a step *)

Lemma entered_plain c p w :
  retry_gate c p (wstate w) = false →
  entered c p w = mutate (λ s, set_route_history (route_history s ++ [c]) s) w.
Proof. unfold entered. by intros ->. Qed.

Lemma remaining_same s s' :
  request s' = request s → retry_count s' = retry_count s → remaining s' = remaining s.
Proof. unfold remaining, max_retries. by intros -> ->. Qed.

Lemma entered_spec c p w :
  Inv c p w →
  (c =? "pause_for_approval")%string = false →
  mem c ["end"; "delivery"] = false →
  Good (entered c p w)
  ∧ status (wstate (entered c p w)) = IN_PROGRESS
  ∧ only_in_progress (wtrace (entered c p w))
  ∧ raised_messages (wtrace (entered c p w)) = []
  ∧ Arrived c (wstate (entered c p w))
  ∧ (3 * remaining (wstate (entered c p w)) + rank c ≤ potential c p (wstate w))%nat.
Proof.
  intros [[Go Gn Ge] St Wr Ca Po] Hp Hd.
  assert (Hnp : status (wstate w) ≠ PAUSED) by (by rewrite St).
  inversion Po as [s Hh|s Hh|s Hh Hg|s Hh|s Hr|q s Hq Hr Hgate|s Hr|s Hr];
    subst; try discriminate.
  - (* intake *)
    rewrite entered_plain by (by apply retry_gate_other).
    unfold potential. rewrite retry_gate_other by done.
    rewrite Hh in Ge. simpl in Ge.
    destruct (Sound_early
                (set_route_history (route_history (wstate w) ++ ["intake"]) (wstate w))
                ["intake"]) as [So Ex]; [by simpl; rewrite Hh | by left | done | by simpl; rewrite St |].
    split; [by split | repeat (split; [done |])]. split; [| apply Nat.le_refl].
    left. split; [done |]. simpl. by rewrite Hh.
  - (* planner *)
    rewrite entered_plain by (by apply retry_gate_other).
    unfold potential. rewrite retry_gate_other by done.
    rewrite Hh in Ge. simpl in Ge.
    destruct (Sound_early
                (set_route_history (route_history (wstate w) ++ ["planner"]) (wstate w))
                ["intake"; "planner"]) as [So Ex];
      [by simpl; rewrite Hh | by (right; left) | done | by simpl; rewrite St |].
    split; [by split | repeat (split; [done |])]. split; [| apply Nat.le_refl].
    right; left. split; [done |]. simpl. by rewrite Hh.
  - (* first execution *)
    rewrite entered_plain by reflexivity.
    unfold potential. change (retry_gate "execution" (Some "planner") (wstate w)) with false.
    rewrite Hh in Ge. simpl in Ge.
    destruct (Sound_early
                (set_route_history (route_history (wstate w) ++ ["execution"]) (wstate w))
                ["intake"; "planner"; "execution"]) as [So Ex];
      [by simpl; rewrite Hh | by (right; right) | done | by simpl; rewrite St |].
    split; [by split | repeat (split; [done |])]. split; [| apply Nat.le_refl].
    right; right. split; [done |]. split; simpl; rewrite Hh, ?Ge; reflexivity.
  - (* qa *)
    rewrite entered_plain by (by apply retry_gate_other).
    unfold potential. rewrite retry_gate_other by done.
    destruct (Sound_round_step "execution" "qa" (wstate w)
                (set_route_history (route_history (wstate w) ++ ["qa"]) (wstate w)))
      as (So & Ro & Ex); try done.
    + simpl. lia.
    + simpl. apply Gn.
    + split; [by split | repeat (split; [done |])]. split; [| apply Nat.le_refl].
      right; right. done.
  - (* execution again, after qa or judge *)
    unfold entered. rewrite Hgate.
    destruct (retry_attempt_spec w) as (e & Et & Eh & Er & Eq & Es).
    pose proof (retry_gate_budget _ _ _ Hgate) as Hlt.
    remember (retry_attempt w) as w1 eqn:Ew1. clear Ew1.
    assert (Sr : Sound (wstate w1)).
    { destruct Gn as [S1 S2 S3 S4 S5 S6]. destruct Hr as [R1 R2 R3].
      split; unfold max_retries in *; rewrite ?Eh, ?Er, ?Eq, ?Es; try done; try lia.
      right. split; [lia |]. exists q. done. }
    destruct (Sound_round_step q "execution" (wstate w)
                (set_route_history (route_history (wstate w1) ++ ["execution"]) (wstate w1)))
      as (So & Ro & Ex); try done.
    + simpl. by rewrite Eh.
    + simpl. by rewrite Es, St.
    + rewrite Hq. simpl. by rewrite Er.
    + simpl. rewrite Er. lia.
    + apply mem_In in Hq. simpl in Hq. destruct Hq as [<- | [<- | []]]; reflexivity.
    + split; [| split; [| split; [| split; [| split]]]].
      * split; [| done | done]. simpl. rewrite Et, observed_app. simpl.
        apply Forall_app. split; [done |]. by constructor.
      * simpl. by rewrite Es.
      * unfold only_in_progress. simpl. rewrite Et, run_status_writes_app. simpl.
        by rewrite app_nil_r.
      * simpl. rewrite Et, raised_messages_app. simpl. by rewrite app_nil_r.
      * right; right. done.
      * unfold potential. rewrite Hgate. unfold remaining, max_retries. simpl.
        rewrite Er, Eq. unfold max_retries in Hlt. unfold rank. simpl. lia.
  - (* judge *)
    rewrite entered_plain by (by apply retry_gate_other).
    unfold potential. rewrite retry_gate_other by done.
    destruct (Sound_round_step "qa" "judge" (wstate w)
                (set_route_history (route_history (wstate w) ++ ["judge"]) (wstate w)))
      as (So & Ro & Ex); try done.
    + simpl. lia.
    + simpl. apply Gn.
    + split; [by split | repeat (split; [done |])]. split; [| apply Nat.le_refl].
      right; right. done.
Qed.

(** ** One pass through the loop body *)

Lemma Sound_same_route s s' :
  route_history s' = route_history s → retry_count s' = retry_count s →
  request s' = request s →
  (status s' = PAUSED → pause_reason s' ≠ VNone ∧ approval_granted s' = None) →
  Sound s → Sound s'.
Proof.
  intros Eh Er Eq Hp [H1 H2 H3 H4 H5 H6].
  split; unfold max_retries in *; rewrite ?Eh, ?Er, ?Eq; done.
Qed.

Lemma iteration_eq env aa c p w :
  (c =? "pause_for_approval")%string = false →
  iteration env aa c p w =
  match _execute_step env c (entered c p w) with
  | Raised m w' => Throw m w'
  | Ok w' =>
      Continue (determine_next_step c (wstate (sla_check env (save w')))) (Some c)
               (sla_check env (save w'))
  end.
Proof. intros Hp. unfold iteration, entered. by rewrite Hp. Qed.

Lemma Position_steps c p s :
  Position c p s → mem c ["end"; "delivery"] = true → c = "delivery" ∧ p = Some "judge".
Proof. intros H. inversion H; subst; simpl; try discriminate. done. Qed.

Lemma iteration_inv env aa c p w :
  Inv c p w → mem c ["end"; "delivery"] = false →
  match iteration env aa c p w with
  | Continue c' p' w' =>
      Inv c' p' w' ∧ (potential c' p' (wstate w') < potential c p (wstate w))%nat
  | Return w' => Pausing w'
  | Throw m w' => Failing m w' ∧ only_in_progress (wtrace w')
  end.
Proof.
  intros HI Hd.
  destruct (c =? "pause_for_approval")%string eqn:Hp.
  - (* the approval gate *)
    apply String.eqb_eq in Hp. subst c.
    destruct HI as [[Go Gn Ge] St Wr Ca Po].
    inversion Po as [|?|s Hh Hg| | | | |]; subst.
    unfold iteration. simpl. destruct aa.
    + (* auto-approve *)
      split.
      * split.
        -- split; simpl.
           ++ rewrite !observed_app. simpl. rewrite app_nil_r.
              apply Forall_app. split; [done |]. constructor; [| constructor].
              by apply (Sound_same_route (wstate w)).
           ++ by apply (Sound_same_route (wstate w)).
           ++ done.
        -- done.
        -- destruct Wr as [Wn Wf]. unfold only_in_progress. simpl.
           rewrite !run_status_writes_app. simpl. rewrite app_nil_r. split.
           ++ intros E. by apply app_eq_nil in E as [_ ?].
           ++ apply Forall_app. split; [done |]. by constructor.
        -- simpl. rewrite !raised_messages_app. simpl. by rewrite !app_nil_r.
        -- by apply at_first_execution.
      * unfold potential.
        change (retry_gate "execution" (Some "planner") _) with false.
        rewrite retry_gate_other by done. unfold rank, max_retries. simpl. lia.
    + (* pause and return *)
      assert (Sp : Sound
                     (add_event
                        (mkEvent "approval" "paused" "warning" "Awaiting human approval")
                        (set_pause_reason (VStr "Awaiting human approval")
                           (set_run_status "paused" (set_status PAUSED (wstate w)))))).
      { apply (Sound_same_route (wstate w)); try done. }
      split; simpl; try done.
      * split; simpl; try done.
        rewrite !observed_app. simpl.
        repeat (apply Forall_app; split); try done;
          (constructor; [exact Sp | constructor]).
      * exists (run_status_writes (wtrace w)). split; [| apply Wr].
        rewrite !run_status_writes_app. simpl. by rewrite !app_nil_r.
      * rewrite !raised_messages_app. simpl. by rewrite !app_nil_r.
  - (* a worker step *)
    rewrite (iteration_eq _ _ _ _ _ Hp).
    destruct (entered_spec c p w HI Hp Hd) as (Ge & Se & We & Ce & Ae & Pe).
    assert (Hnp : status (wstate (entered c p w)) ≠ PAUSED) by (by rewrite Se).
    pose proof (exec_quiet env c (entered c p w)) as Q.
    destruct (_execute_step env c (entered c p w)) as [w' | m w'].
    + set (w2 := sla_check env (save w')).
      assert (Q2 : quiet (entered c p w) w2).
      { eapply quiet_trans; [| apply quiet_sla_check]. by apply quiet_then_save. }
      pose proof Q2 as (_ & _ & _ & _ & _ & Ec).
      pose proof (ctl_fields _ _ Ec) as (Eh & Er & Eq & Es & _).
      destruct (next_position c (wstate w2)) as [Pn Ln]; [by eapply Arrived_ctl |].
      split.
      * split; [by eapply Good_quiet | by rewrite Es | | | done].
        -- unfold only_in_progress. by rewrite (quiet_writes _ _ _ Q2).
        -- by rewrite (quiet_raised _ _ _ Q2), Ce.
      * rewrite (remaining_same _ _ Eq Er) in Ln. lia.
    + destruct Q as (ms & Q & Hms).
      pose proof Q as (_ & _ & _ & _ & _ & Ec).
      pose proof (ctl_fields _ _ Ec) as (_ & _ & _ & Es & _).
      split; [split |].
      * by eapply Good_quiet.
      * by rewrite Es.
      * rewrite (quiet_raised _ _ _ Q), Ce. simpl.
        destruct Hms as [-> | ->]; simpl; [done |]. by intros m' [<- | []].
      * unfold only_in_progress. by rewrite (quiet_writes _ _ _ Q).
Qed.

(** ** What a step does to the state *)

Lemma add_warning_keeps m s :
  requires_approval (add_warning m s) = requires_approval s
  ∧ qa_result (add_warning m s) = qa_result s
  ∧ judge_result (add_warning m s) = judge_result s
  ∧ step_status (add_warning m s) = step_status s
  ∧ pause_reason (add_warning m s) = pause_reason s
  ∧ events (add_warning m s) = events s
  ∧ (warnings s ≠ [] → warnings (add_warning m s) ≠ []).
Proof.
  unfold add_warning. destruct (mem m (warnings s)); simpl; repeat split; try done.
  intros H E. by apply app_eq_nil in E as [? _].
Qed.

Lemma add_warnings_keeps ms s :
  let s' := fold_left (λ s m, add_warning m s) ms s in
  requires_approval s' = requires_approval s
  ∧ qa_result s' = qa_result s
  ∧ judge_result s' = judge_result s
  ∧ step_status s' = step_status s
  ∧ pause_reason s' = pause_reason s
  ∧ events s' = events s
  ∧ (warnings s ≠ [] → warnings s' ≠ []).
Proof.
  revert s. induction ms as [|m ms IH]; intros s; simpl; [done |].
  destruct (IH (add_warning m s)) as (E1 & E2 & E3 & E4 & E5 & E6 & E7).
  destruct (add_warning_keeps m s) as (F1 & F2 & F3 & F4 & F5 & F6 & F7).
  rewrite E1, E2, E3, E4, E5, E6. repeat split; try done. auto.
Qed.

Lemma merge_fields a r s :
  let s' := _merge_result a r s in
  requires_approval s' =
    (if (a =? "planner")%string
     then get r "requires_approval" (VBool false) else requires_approval s)
  ∧ qa_result s' = (if (a =? "qa")%string then r else qa_result s)
  ∧ judge_result s' = (if (a =? "judge")%string then r else judge_result s)
  ∧ step_status s' = step_status s
  ∧ (warnings s ≠ [] → warnings s' ≠ []).
Proof.
  unfold _merge_result.
  destruct (String.eqb_spec a "intake") as [-> | N1]; [done |].
  destruct (String.eqb_spec a "planner") as [-> | N2].
  { simpl. by destruct (truthy _). }
  destruct (String.eqb_spec a "execution") as [-> | N3].
  { simpl. destruct (_ && _); [| done].
    match goal with |- context [add_warning ?m ?s] =>
      destruct (add_warning_keeps m s) as (-> & -> & -> & -> & _ & _ & H) end.
    done. }
  destruct (String.eqb_spec a "qa") as [-> | N4].
  { simpl. destruct (_qa_failed _); [| done].
    match goal with |- context [add_warning ?m ?s] =>
      destruct (add_warning_keeps m s) as (-> & -> & -> & -> & _ & _ & H) end.
    done. }
  destruct (String.eqb_spec a "judge") as [-> | N5].
  { simpl. destruct (_ =? _)%string; [| done].
    match goal with |- context [add_warning ?m ?s] =>
      destruct (add_warning_keeps m s) as (-> & -> & -> & -> & _ & _ & H) end.
    done. }
  destruct (String.eqb_spec a "delivery") as [-> | N6]; done.
Qed.

Lemma refresh_fields s :
  let s' := _refresh_delivery_metadata s in
  requires_approval s' = requires_approval s
  ∧ qa_result s' = qa_result s
  ∧ judge_result s' = judge_result s
  ∧ step_status s' = step_status s
  ∧ warnings s' = warnings s.
Proof. unfold _refresh_delivery_metadata. by case_bool_decide. Qed.

(** The three ways a step can go. *)
Lemma exec_cases env a w :
  match worker_agents env !! a with
  | None => _execute_step env a w = Raised ("Unknown agent: " +:+ a) w
  | Some worker =>
      match completion (worker (worker_input a (wstate w))) with
      | Raises m => ∃ w', _execute_step env a w = Raised m w'
      | Returns r =>
          ∃ w', _execute_step env a w = Ok w' ∧ Merged a r (wstate w) (wstate w')
      end
  end.
Proof.
  pose proof (exec_quiet env a w) as Q.
  unfold _execute_step in *. destruct (worker_agents env !! a) as [wk |]; [| done].
  cbn [wstate wtrace mutate _emit_event record] in *.
  change (add_event (mkEvent a "in_progress" "info" (a +:+ " started."))
            (set_step_status a "in_progress" (set_current_agent (Some a) (wstate w))))
    with (worker_input a (wstate w)) in *.
  destruct (wk (worker_input a (wstate w))) as [ws [r | m]] eqn:Ewk;
    cbn [completion added_warnings] in *.
  2: { eexists. reflexivity. }
  eexists. split; [reflexivity |].
  destruct Q as (_ & _ & _ & _ & _ & Ec).
  cbn [wstate wtrace mutate _emit_event record] in *.
  set (s1 := fold_left _ ws (worker_input a (wstate w))) in *.
  destruct (add_warnings_keeps ws (worker_input a (wstate w)))
    as (A1 & A2 & A3 & A4 & _ & _ & A7).
  fold s1 in A1, A2, A3, A4, A7.
  set (x := perf_elapsed env _) in *.
  set (s2 := set_agent_timings (<[a := x]> (agent_timings s1)) s1) in *.
  destruct (merge_fields a r s2) as (M1 & M2 & M3 & M4 & M5).
  assert (W : warnings (wstate w) ≠ [] → warnings (_merge_result a r s2) ≠ []).
  { intros Hw. apply M5. apply A7. exact Hw. }
  assert (K : ∀ k, k ≠ a →
            step_status (set_step_status a "completed" (_merge_result a r s2)) !! k
            = step_status (wstate w) !! k).
  { intros k Hk. cbn [set_step_status set_step_status_map step_status].
    rewrite M4. unfold s2. cbn [set_agent_timings step_status]. rewrite A4.
    unfold worker_input. cbn.
    rewrite !lookup_insert_ne by done. done. }
  assert (B1 : requires_approval s2 = requires_approval (wstate w)).
  { unfold s2. cbn [set_agent_timings requires_approval]. by rewrite A1. }
  assert (B2 : qa_result s2 = qa_result (wstate w)).
  { unfold s2. cbn [set_agent_timings qa_result]. by rewrite A2. }
  assert (B3 : judge_result s2 = judge_result (wstate w)).
  { unfold s2. cbn [set_agent_timings judge_result]. by rewrite A3. }
  rewrite B1 in M1. rewrite B2 in M2. rewrite B3 in M3.
  destruct (a =? "delivery")%string eqn:Ed; cbn [wstate mutate] in *.
  - match goal with |- Merged _ _ _ (_refresh_delivery_metadata ?s) =>
      destruct (refresh_fields s) as (R1 & R2 & R3 & R4 & R5) end.
    split; rewrite ?R1, ?R2, ?R3, ?R4, ?R5; try done.
  - split; try done.
Qed.

(** ** The loop *)

Lemma loop_inv env aa fuel :
  ∀ c p w,
    Inv c p w → (potential c p (wstate w) < fuel)%nat →
    ∃ r, loop fuel env aa c p w = Some r
         ∧ match r with
           | Exit c' w' => c' = "delivery" ∧ Inv "delivery" (Some "judge") w'
           | Returned w' => Pausing w'
           | Thrown m w' => Failing m w' ∧ only_in_progress (wtrace w')
           end.
Proof.
  induction fuel as [|fuel IH]; intros c p w HI Hf; [lia |].
  simpl. destruct (mem c ["end"; "delivery"]) eqn:Hd.
  - change ((c =? "end")%string || ((c =? "delivery")%string || false))
      with (mem c ["end"; "delivery"]). rewrite Hd.
    destruct (Position_steps _ _ _ (inv_position _ _ _ HI) Hd) as [-> ->].
    eexists. split; [reflexivity |]. done.
  - change ((c =? "end")%string || ((c =? "delivery")%string || false))
      with (mem c ["end"; "delivery"]). rewrite Hd.
    pose proof (iteration_inv env aa c p w HI Hd) as Hit.
    destruct (iteration env aa c p w) as [c' p' w' | w' | m w'].
    + destruct Hit as [HI' Hlt]. apply IH; [done | lia].
    + eexists. split; [reflexivity | done].
    + eexists. split; [reflexivity | done].
Qed.

(** ** Before and after the loop *)

Lemma Sound_initial s :
  route_history s = [] → retry_count s = 0 → status s ≠ PAUSED → Sound s.
Proof.
  intros Eh Er Hp. split; rewrite ?Eh, ?Er; try done; try (by left).
  lia.
Qed.

Lemma begin_inv env req : Inv "intake" None (begin env req).
Proof.
  unfold begin. split.
  - split; simpl.
    + repeat constructor; by apply Sound_initial.
    + by apply Sound_initial.
    + done.
  - done.
  - unfold only_in_progress. simpl. split; [done | by repeat constructor].
  - done.
  - by apply at_intake.
Qed.

Lemma begin_potential env req :
  (potential "intake" None (wstate (begin env req)) < enough_fuel req)%nat.
Proof.
  unfold potential. rewrite retry_gate_other by done.
  unfold enough_fuel, rank, max_retries. simpl. rewrite Z.sub_0_r. lia.
Qed.

Lemma derive_completed s :
  status s = COMPLETED → completed_label (_derive_run_status s).
Proof.
  intros E. unfold _derive_run_status, completed_label. rewrite E. simpl.
  destruct (_ || _); auto.
Qed.

(** Deriving again after the delivery step: the label can only move from
    [completed] to [completed_with_warnings], and only through warnings
    added in between. *)
Lemma derive_again s s' :
  status s = COMPLETED → status s' = COMPLETED →
  errors s' = errors s → retry_count s' = retry_count s →
  qa_result s' = qa_result s → judge_result s' = judge_result s →
  (warnings s ≠ [] → warnings s' ≠ []) →
  _derive_run_status s' = _derive_run_status s
  ∨ (_derive_run_status s = "completed"
     ∧ _derive_run_status s' = "completed_with_warnings" ∧ warnings s' ≠ []).
Proof.
  intros Es Es' Ee Er Eq Ej Hw.
  unfold _derive_run_status, _qa_failed. rewrite Es, Es', Ee, Er, Eq, Ej. simpl.
  destruct (errors s); simpl; [| by left].
  destruct (warnings s) as [|x xs]; simpl.
  2: { destruct (warnings s'); [by destruct Hw | by left]. }
  destruct (warnings s'); simpl; [by left |].
  match goal with |- context [?a || ?b || ?c] => destruct (a || b || c) end;
    [by left | right; done].
Qed.

Lemma exec_ok_merged env a w w' :
  _execute_step env a w = Ok w' →
  ∃ worker r, worker_agents env !! a = Some worker
              ∧ completion (worker (worker_input a (wstate w))) = Returns r
              ∧ Merged a r (wstate w) (wstate w').
Proof.
  intros E. pose proof (exec_cases env a w) as H.
  destruct (worker_agents env !! a) as [wk |]; [| congruence].
  destruct (completion (wk (worker_input a (wstate w)))) as [r | m] eqn:Ec.
  - destruct H as (w'' & E' & M). rewrite E in E'. injection E' as <-. eauto.
  - destruct H as (w'' & E'). congruence.
Qed.

Lemma deliver_spec env w :
  Inv "delivery" (Some "judge") w →
  ∃ ips l1,
    ips ≠ [] ∧ Forall (λ v, v = "in_progress") ips ∧ completed_label l1
    ∧ match deliver env "delivery" w with
      | Ok w' =>
          Good w' ∧ status (wstate w') = COMPLETED
          ∧ run_status_writes (wtrace w') = ips ++ [l1]
          ∧ raised_messages (wtrace w') = []
          ∧ ∃ s0, l1 = _derive_run_status s0 ∧ status s0 = COMPLETED
                  ∧ errors (wstate w') = errors s0
                  ∧ retry_count (wstate w') = retry_count s0
                  ∧ qa_result (wstate w') = qa_result s0
                  ∧ judge_result (wstate w') = judge_result s0
                  ∧ (warnings s0 ≠ [] → warnings (wstate w') ≠ [])
      | Raised m w' =>
          Good w' ∧ status (wstate w') ≠ PAUSED
          ∧ run_status_writes (wtrace w') = ips ++ [l1]
          ∧ (∀ m', In m' (raised_messages (wtrace w')) → m' = m)
      end.
Proof.
  intros [[Go Gn Ge] St [Wn Wf] Ca Po].
  inversion Po as [| | | | | | |s Hr]; subst.
  unfold deliver.
  change ("delivery" =? "delivery")%string with true. cbv iota.
  cbn [wstate mutate].
  set (s0 := set_end_time _ (set_status COMPLETED
               (set_route_history (route_history (wstate w) ++ ["delivery"]) (wstate w)))).
  set (l1 := _derive_run_status s0).
  set (w0 := assign_run_status l1 _).
  assert (Es0 : wstate w0 = set_run_status l1 s0) by reflexivity.
  assert (Et0 : wtrace w0 = wtrace w ++ [Assigned_run_status l1]) by reflexivity.
  destruct (Sound_round_step "judge" "delivery" (wstate w) (wstate w0))
    as (So & _ & Ex); try done.
  { by rewrite Z.add_0_r. }
  { apply Gn. }
  assert (G0 : Good w0).
  { split; [| done | done]. rewrite Et0, observed_app. simpl. by rewrite app_nil_r. }
  assert (Hnp : status (wstate w0) ≠ PAUSED) by done.
  exists (run_status_writes (wtrace w)), l1.
  split; [done |]. split; [done |]. split; [by apply derive_completed |].
  pose proof (exec_quiet env "delivery" w0) as Q.
  destruct (_execute_step env "delivery" w0) as [w' | m w'] eqn:E.
  - assert (Q2 : quiet w0 (save w')) by (by apply quiet_then_save).
    pose proof Q2 as (_ & _ & _ & _ & _ & Ec).
    apply ctl_fields in Ec as (_ & Er & _ & Es & _ & _ & _ & Ee).
    apply exec_ok_merged in E as (wk & r & _ & _ & [_ M2 M3 _ M5 _]).
    split; [by eapply Good_quiet |]. split; [by rewrite Es |].
    split; [by rewrite (quiet_writes _ _ _ Q2), Et0, run_status_writes_app |].
    split.
    { rewrite (quiet_raised _ _ _ Q2), Et0, raised_messages_app, Ca. done. }
    exists s0. repeat split; try done.
  - destruct Q as (ms & Q & Hms).
    pose proof Q as (_ & _ & _ & _ & _ & Ec).
    apply ctl_fields in Ec as (_ & _ & _ & Es & _).
    split; [by eapply Good_quiet |]. split; [by rewrite Es |].
    split; [by rewrite (quiet_writes _ _ _ Q), Et0, run_status_writes_app |].
    rewrite (quiet_raised _ _ _ Q), Et0, raised_messages_app, Ca. simpl.
    destruct Hms as [-> | ->]; simpl; [done |]. by intros m' [<- | []].
Qed.

Lemma add_error_spec m s :
  In m (errors (add_error m s))
  ∧ route_history (add_error m s) = route_history s
  ∧ retry_count (add_error m s) = retry_count s
  ∧ request (add_error m s) = request s
  ∧ status (add_error m s) = status s
  ∧ run_status (add_error m s) = run_status s
  ∧ end_time (add_error m s) = end_time s.
Proof.
  unfold add_error. destruct (mem m (errors s)) eqn:E; simpl.
  - apply mem_In in E. done.
  - repeat split. apply in_or_app. right. by left.
Qed.

Lemma handler_world env m w :
  ∃ e t,
    wstate (handler env m w)
    = add_event e (add_error m (set_run_status "failed"
                     (set_end_time (Some t) (set_status FAILED (wstate w)))))
    ∧ wtrace (handler env m w)
      = ((wtrace w ++ [Assigned_run_status "failed"])
           ++ [Emitted e (wstate (handler env m w))])
          ++ [Saved (wstate (handler env m w))].
Proof. eexists _, _. split; reflexivity. Qed.

Lemma finalize_world env w :
  ∃ e t,
    let s1 := set_end_time (Some t) (set_status COMPLETED (wstate w)) in
    wstate (finalize env w) = add_event e (set_run_status (_derive_run_status s1) s1)
    ∧ wtrace (finalize env w)
      = ((wtrace w ++ [Assigned_run_status (_derive_run_status s1)])
           ++ [Emitted e (wstate (finalize env w))])
          ++ [Saved (wstate (finalize env w))].
Proof. eexists _, _. split; reflexivity. Qed.

Lemma handler_summary env m w ips tail :
  Good w → status (wstate w) ≠ PAUSED →
  (∀ m', In m' (raised_messages (wtrace w)) → m' = m) →
  run_status_writes (wtrace w) = ips ++ tail →
  ips ≠ [] → Forall (λ v, v = "in_progress") ips →
  tail = [] ∨ (∃ l1, tail = [l1] ∧ completed_label l1) →
  Summary (handler env m w).
Proof.
  intros [Go Gn Ge] Hp Hm Ew Hi Hf Ht.
  destruct (handler_world env m w) as (e & t & Est & Etr).
  remember (handler env m w) as wf eqn:Ewf. clear Ewf.
  set (s1 := set_run_status "failed"
               (set_end_time (Some t) (set_status FAILED (wstate w)))) in Est.
  destruct (add_error_spec m s1) as (Ein & Eh & Er & Eq & Es & El & Ee).
  assert (Fh : route_history (wstate wf) = route_history (wstate w)) by (by rewrite Est).
  assert (Fr : retry_count (wstate wf) = retry_count (wstate w)) by (by rewrite Est).
  assert (Fq : request (wstate wf) = request (wstate w)) by (by rewrite Est).
  assert (Fs : status (wstate wf) = FAILED) by (by rewrite Est).
  assert (Fl : run_status (wstate wf) = "failed") by (by rewrite Est).
  assert (Fe : end_time (wstate wf) = Some t) by (by rewrite Est).
  assert (Fi : In m (errors (wstate wf))) by (by rewrite Est).
  assert (S2 : Sound (wstate wf)).
  { apply (Sound_same_route (wstate w)); try done. by rewrite Fs. }
  split.
  - split; [| done | by rewrite Fh, Fr].
    rewrite Etr, !observed_app. simpl. rewrite app_nil_r.
    repeat (apply Forall_app; split); try done; (constructor; [exact S2 | constructor]).
  - exists ips, (tail ++ ["failed"]).
    rewrite Etr, !run_status_writes_app, Ew. simpl. rewrite !app_nil_r, app_assoc.
    split; [done |]. split; [done |]. split; [done |]. rewrite last_snoc, Fl.
    split; [| done].
    destruct Ht as [-> | (l1 & -> & Hl)]; simpl.
    + by apply ends_failed.
    + by apply ends_failed_in_delivery.
  - rewrite Etr, !raised_messages_app. simpl. rewrite !app_nil_r.
    intros m' Hm'. apply Hm in Hm'. subst m'.
    rewrite Fe. by repeat split.
  - right. rewrite Fs, Fe. split; [by eexists | by right].
Qed.

Lemma finalize_summary env w ips l1 s0 :
  Good w → status (wstate w) = COMPLETED →
  run_status_writes (wtrace w) = ips ++ [l1] →
  ips ≠ [] → Forall (λ v, v = "in_progress") ips → completed_label l1 →
  raised_messages (wtrace w) = [] →
  l1 = _derive_run_status s0 → status s0 = COMPLETED →
  errors (wstate w) = errors s0 → retry_count (wstate w) = retry_count s0 →
  qa_result (wstate w) = qa_result s0 → judge_result (wstate w) = judge_result s0 →
  (warnings s0 ≠ [] → warnings (wstate w) ≠ []) →
  Summary (finalize env w).
Proof.
  intros [Go Gn Ge] St Ew Hi Hf Hl Hr El1 Es0 Ee Er Eq Ej Hw.
  destruct (finalize_world env w) as (e & t & Est & Etr). cbv zeta in *.
  remember (finalize env w) as wf eqn:Ewf. clear Ewf.
  set (s1 := set_end_time (Some t) (set_status COMPLETED (wstate w))) in *.
  set (l2 := _derive_run_status s1) in *.
  assert (Fh : route_history (wstate wf) = route_history (wstate w)) by (by rewrite Est).
  assert (Fr : retry_count (wstate wf) = retry_count (wstate w)) by (by rewrite Est).
  assert (Fq : request (wstate wf) = request (wstate w)) by (by rewrite Est).
  assert (Fs : status (wstate wf) = COMPLETED) by (by rewrite Est).
  assert (Fl : run_status (wstate wf) = l2) by (by rewrite Est).
  assert (Fe : end_time (wstate wf) = Some t) by (by rewrite Est).
  assert (Fw : warnings (wstate wf) = warnings s1) by (by rewrite Est).
  assert (S2 : Sound (wstate wf)).
  { apply (Sound_same_route (wstate w)); try done. by rewrite Fs. }
  split.
  - split; [| done | by rewrite Fh, Fr].
    rewrite Etr, !observed_app. simpl. rewrite app_nil_r.
    repeat (apply Forall_app; split); try done; (constructor; [exact S2 | constructor]).
  - exists ips, [l1; l2].
    rewrite Etr, !run_status_writes_app, Ew. simpl. rewrite !app_nil_r, <- app_assoc.
    split; [done |]. split; [done |]. split; [done |]. rewrite Fl. split; [| done].
    apply ends_completed; [done | by apply derive_completed | | done].
    subst l1. rewrite Fw. by apply (derive_again s0 s1).
  - rewrite Etr, !raised_messages_app, Hr. simpl. intros m' [].
  - right. rewrite Fs, Fe. split; [by eexists | by left].
Qed.

(** Every run returns, and leaves a world that satisfies [Summary]. *)
Lemma orchestrate_summary env req aa :
  ∃ w, orchestrate env req aa = Some w ∧ Summary w.
Proof.
  unfold orchestrate, orchestrate_fuel, try_block.
  destruct (loop_inv env aa (enough_fuel req) "intake" None (begin env req)
              (begin_inv env req) (begin_potential env req)) as (r & -> & Hr).
  destruct r as [c w | w | m w].
  - destruct Hr as [-> HI].
    destruct (deliver_spec env w HI) as (ips & l1 & Hi & Hf & Hl & Hd).
    destruct (deliver env "delivery" w) as [w' | m w'].
    + destruct Hd as (G & St & Ew & Hr & s0 & E1 & E2 & E3 & E4 & E5 & E6 & E7).
      eexists. split; [reflexivity |]. by eapply finalize_summary.
    + destruct Hd as (G & Hp & Ew & Hm).
      eexists. split; [reflexivity |].
      eapply handler_summary; try done. right. eauto.
  - eexists. split; [reflexivity |].
    destruct Hr as [G St La Re Ro (ips & Ew & Hi & Hf) Ca]. split.
    + done.
    + exists ips, ["paused"]. rewrite La. repeat split; try done. by apply ends_paused.
    + rewrite Ca. intros m [].
    + by left.
  - destruct Hr as [[G Hp Hm] [Wn Wf]].
    eexists. split; [reflexivity |].
    eapply (handler_summary env m w (run_status_writes (wtrace w)) []); try done.
    + by rewrite app_nil_r.
    + by left.
Qed.

(** ** More fuel does not change the outcome *)



Lemma states_of_sound w : Good w → ∀ s, In s (states_of w) → Sound s.
Proof.
  intros [Go Gn _] s Hs. unfold states_of in Hs. apply in_app_or in Hs as [Hs | [<- | []]].
  - rewrite Forall_forall in Go. apply Go. by apply list_elem_of_In.
  - done.
Qed.

(** ** Claims about every run *)


(** C10. For every run and every behaviour of the step workers, the step
    name [pause_for_approval] never appears in [route_history], neither in
    a state the run made observable nor in the one it returns. *)
Theorem gate_never_recorded (env : Env) (req : Request) (aa : bool) :
  ∃ w, orchestrate env req aa = Some w
       ∧ ∀ s, In s (states_of w) → ¬ In "pause_for_approval" (route_history s).
Proof.
  destruct (orchestrate_summary env req aa) as (w & E & S).
  exists w. split; [done |]. intros s Hs Hin.
  pose proof (states_of_sound w (summary_good w S) s Hs) as [H _ _ _ _ _].
  apply mem_In in Hin. congruence.
Qed.

(** C2, as stated, fails: with a negative [max_retries] in the request the
    run ends with [retry_count = 0 > max_retries]. *)
Lemma retry_bound_fails_below_zero :
  ¬ (∀ env req aa w, orchestrate env req aa = Some w →
       ∀ s, In s (states_of w) → within_budget s ∧ retries_recorded s).
Proof.
  intros H.
  destruct (orchestrate_summary Sample.plain (Sample.request (-1) false) true)
    as (w & E & _).
  assert (C : option_map (λ w, max_retries (wstate w))
                (orchestrate Sample.plain (Sample.request (-1) false) true)
              = Some (-1)) by (vm_compute; reflexivity).
  rewrite E in C. injection C as C.
  destruct (H _ _ _ _ E (wstate w)) as [[Hl Hb] _].
  { unfold states_of. apply in_or_app. right. by left. }
  lia.
Qed.

(** C2, amended. For every run and every behaviour of the step workers, in
    every state the run makes observable and in the one it returns,
    [retry_count] lies between 0 and [max_retries], or is 0 when
    [max_retries] is negative; every counted retry is a [qa] or [judge]
    entry of [route_history] immediately followed by an [execution] entry
    (appended right after the retry is announced); and in the returned
    state the count equals the number of such pairs. *)
Theorem retry_count_bounded_and_recorded (env : Env) (req : Request) (aa : bool) :
  ∃ w, orchestrate env req aa = Some w
       ∧ (∀ s, In s (states_of w) →
               0 ≤ retry_count s ≤ Z.max 0 (max_retries s)
               ∧ (0 ≤ max_retries s → within_budget s)
               ∧ retries_recorded s)
       ∧ retry_count (wstate w) = Z.of_nat (retry_pairs (route_history (wstate w))).
Proof.
  destruct (orchestrate_summary env req aa) as (w & E & S).
  exists w. split; [done |]. split; [| apply S].
  intros s Hs.
  pose proof (states_of_sound w (summary_good w S) s Hs) as [_ _ H _ Hp _].
  split; [done |]. split; [| done]. unfold within_budget. lia.
Qed.

(** C5, as stated, fails: with [max_retries = 2], a judge that asks for a
    retry of the first translation and a quality check that fails the
    second one, the route goes [judge, execution, qa, execution], which no
    canonical path continues. *)
Lemma canonical_path_left :
  ¬ (∀ env req aa w, orchestrate env req aa = Some w →
       ∀ s, In s (states_of w) → Path.is_prefix_of Path.canonical (route_history s)).
Proof.
  intros H.
  set (env := Sample.env Sample.planner Sample.qa_second_fails
                Sample.judge_retries_first Sample.delivery).
  destruct (orchestrate_summary env (Sample.request 2 false) true) as (w & E & _).
  assert (C : option_map (λ w, Path.prefix_ok Path.canonical (route_history (wstate w)))
                (orchestrate env (Sample.request 2 false) true)
              = Some false) by (vm_compute; reflexivity).
  rewrite E in C. injection C as C.
  specialize (H _ _ _ _ E (wstate w)).
  apply PathFacts.prefix_ok_spec in H.
  - congruence.
  - unfold states_of. apply in_or_app. right. by left.
Qed.

(** C5, amended. For every run and every behaviour of the step workers,
    [route_history] is at every point a prefix of the path
    [intake, planner, execution, qa, (execution, qa)*, judge,
     (execution, qa, (execution, qa)*, judge)*, delivery],
    it never contains [pause_for_approval], and [execution] is entered at
    most [1 + max_retries] times (once when [max_retries] is negative). *)
Theorem route_follows_path (env : Env) (req : Request) (aa : bool) :
  ∃ w, orchestrate env req aa = Some w
       ∧ ∀ s, In s (states_of w) →
              Path.is_prefix_of Path.followed (route_history s)
              ∧ ¬ In "pause_for_approval" (route_history s)
              ∧ (occurrences "execution" (route_history s)
                 ≤ 1 + Z.to_nat (max_retries s))%nat.
Proof.
  destruct (orchestrate_summary env req aa) as (w & E & S).
  exists w. split; [done |]. intros s Hs.
  pose proof (states_of_sound w (summary_good w S) s Hs) as [H1 H2 H3 H4 _ _].
  split; [by apply PathFacts.prefix_ok_spec |]. split; [| lia].
  intros Hin. apply mem_In in Hin. congruence.
Qed.

(** C8, as stated, fails: once the planner's result is merged with an
    approval reason, the persisted state has a non-null [pause_reason] and
    an unset [approval_granted] while its status is still in progress. *)
Lemma pause_reason_set_while_in_progress :
  ¬ (∀ env req aa w, orchestrate env req aa = Some w →
       ∀ s, In s (states_of w) → paused_iff_reason s).
Proof.
  intros H.
  set (env := Sample.env Sample.planner_long Sample.qa Sample.judge Sample.delivery).
  destruct (orchestrate_summary env (Sample.request 1 false) false) as (w & E & _).
  assert (C : option_map
                (λ w, (λ s, (status s, pause_reason s, approval_granted s))
                        <$> observed (wtrace w) !! 7%nat)
                (orchestrate env (Sample.request 1 false) false)
              = Some (Some (IN_PROGRESS,
                            VStr "Estimated runtime exceeds approval threshold.",
                            None))) by (vm_compute; reflexivity).
  rewrite E in C. injection C as C.
  destruct (observed (wtrace w) !! 7%nat) as [s |] eqn:Es; [| discriminate].
  injection C as Est Er Ea.
  assert (Hs : In s (states_of w)).
  { unfold states_of. apply in_or_app. left.
    apply list_elem_of_In. by eapply list_elem_of_lookup_2. }
  destruct (H _ _ _ _ E s Hs) as [_ Hp].
  rewrite Est in Hp. discriminate Hp. by rewrite Er, Ea.
Qed.

(** C8, amended. In every state a run makes observable and in the one it
    returns, if the status is paused then [pause_reason] is non-null and
    [approval_granted] is unset. (The converse is not kept: the planner's
    result merge sets [pause_reason] while the run is in progress.) *)
Theorem paused_has_reason (env : Env) (req : Request) (aa : bool) :
  ∃ w, orchestrate env req aa = Some w
       ∧ ∀ s, In s (states_of w) →
              status s = PAUSED → pause_reason s ≠ VNone ∧ approval_granted s = None.
Proof.
  destruct (orchestrate_summary env req aa) as (w & E & S).
  exists w. split; [done |]. intros s Hs.
  apply (states_of_sound w (summary_good w S) s Hs).
Qed.

(** C9, as stated, fails: a run that reaches delivery assigns a terminal
    label twice, before the delivery step and again when finalising; and
    when the delivery worker records a warning the second label differs
    from the first. *)
Lemma run_status_derived_twice :
  ¬ (∀ env req aa w, orchestrate env req aa = Some w →
       (List.length (label_assignments (run_status_writes (wtrace w))) ≤ 1)%nat)
  ∧ ∃ w, orchestrate (Sample.env Sample.planner Sample.qa Sample.judge
                        Sample.delivery_warns)
           (Sample.request 1 false) true = Some w
         ∧ run_status_writes (wtrace w)
           = ["in_progress"; "completed"; "completed_with_warnings"].
Proof.
  split.
  - intros H.
    destruct (orchestrate_summary Sample.plain (Sample.request 1 false) true)
      as (w & E & _).
    assert (C : option_map
                  (λ w, List.length (label_assignments (run_status_writes (wtrace w))))
                  (orchestrate Sample.plain (Sample.request 1 false) true)
                = Some 2%nat) by (vm_compute; reflexivity).
    rewrite E in C. injection C as C.
    specialize (H _ _ _ _ E). lia.
  - destruct (orchestrate_summary
                (Sample.env Sample.planner Sample.qa Sample.judge Sample.delivery_warns)
                (Sample.request 1 false) true) as (w & E & _).
    assert (C : option_map (λ w, run_status_writes (wtrace w))
                  (orchestrate
                     (Sample.env Sample.planner Sample.qa Sample.judge
                        Sample.delivery_warns)
                     (Sample.request 1 false) true)
                = Some ["in_progress"; "completed"; "completed_with_warnings"])
      by (vm_compute; reflexivity).
    rewrite E in C. injection C as C.
    exists w. split; [exact E | exact C].
Qed.

(** C9, amended. In every run, the assignments to [run_status] are one or
    more of [in_progress], followed by: [paused] alone when the run pauses;
    or [failed] alone when a step before delivery raises; or, when the loop
    leaves on delivery, the label derived before the delivery step and then
    either [failed] (the delivery step raised: failed overrides the label)
    or the label derived again when finalising, which is the same label
    unless warnings were added during the delivery step, in which case
    [completed] becomes [completed_with_warnings]. The last assignment is the
    [run_status] of the returned state. *)
Theorem run_status_assignments (env : Env) (req : Request) (aa : bool) :
  ∃ w, orchestrate env req aa = Some w
       ∧ ∃ ips tail,
           run_status_writes (wtrace w) = ips ++ tail
           ∧ ips ≠ [] ∧ Forall (λ v, v = "in_progress") ips
           ∧ Ending tail (wstate w)
           ∧ last tail = Some (run_status (wstate w)).
Proof.
  destruct (orchestrate_summary env req aa) as (w & E & S).
  exists w. split; [done |]. apply S.
Qed.

(** ** Following a run step by step *)

Lemma entered_fields c p w :
  let s := wstate w in
  let s' := wstate (entered c p w) in
  route_history s' = route_history s ++ [c]
  ∧ retry_count s' = retry_count s + (if retry_gate c p s then 1 else 0)
  ∧ request s' = request s
  ∧ status s' = status s
  ∧ approval_granted s' = approval_granted s
  ∧ requires_approval s' = requires_approval s
  ∧ qa_result s' = qa_result s
  ∧ judge_result s' = judge_result s
  ∧ step_status s' = step_status s.
Proof.
  cbv zeta. unfold entered. destruct (retry_gate c p (wstate w)).
  - unfold retry_attempt, _emit_event. cbn [wstate wtrace mutate record].
    match goal with |- context [add_warning ?m ?s] =>
      destruct (add_warning_keeps m s) as (A1 & A2 & A3 & A4 & _);
      pose proof (ctl_fields _ _ (ctl_add_warning m s)) as (Eh & Er & Eq & Es & Ea & _)
    end.
    cbn [add_event set_events set_route_history route_history retry_count request
         status approval_granted requires_approval qa_result judge_result step_status].
    rewrite Eh, Er, Eq, Es, Ea, A1, A2, A3, A4. done.
  - cbn. rewrite Z.add_0_r. done.
Qed.

Lemma sla_check_keeps env w :
  let s := wstate w in
  let s' := wstate (sla_check env (save w)) in
  ctl s' = ctl s
  ∧ requires_approval s' = requires_approval s
  ∧ qa_result s' = qa_result s
  ∧ judge_result s' = judge_result s
  ∧ step_status s' = step_status s.
Proof.
  cbv zeta. unfold sla_check, save. cbn [wstate record].
  destruct (is_breached env (wstate w)); [| done].
  destruct (mem _ _); [done |].
  unfold _emit_event. cbn [wstate mutate record].
  match goal with |- context [add_warning ?m ?s] =>
    destruct (add_warning_keeps m s) as (A1 & A2 & A3 & A4 & _);
    pose proof (ctl_add_warning m s) as Ec
  end.
  rewrite ctl_add_event.
  cbn [add_event set_events requires_approval qa_result judge_result step_status].
  rewrite A1, A2, A3, A4. done.
Qed.




Lemma begin_fields env req :
  let s := wstate (begin env req) in
  route_history s = [] ∧ retry_count s = 0 ∧ request s = req
  ∧ status s = IN_PROGRESS ∧ approval_granted s = None
  ∧ (∀ k, step_status s !! k = (λ _, "pending") <$> worker_agents env !! k).
Proof.
  cbv zeta. unfold begin. cbn. repeat split; try done.
  intros k. by rewrite lookup_fmap.
Qed.





Lemma worker_input_request a s : request (worker_input a s) = request s.
Proof. reflexivity. Qed.


Lemma finalize_fields env w :
  status (wstate (finalize env w)) = COMPLETED
  ∧ route_history (wstate (finalize env w)) = route_history (wstate w)
  ∧ retry_count (wstate (finalize env w)) = retry_count (wstate w).
Proof.
  destruct (finalize_world env w) as (e & t & Est & _). cbv zeta in Est.
  by rewrite Est.
Qed.




(** ** The logs only grow *)

Lemma Later_refl s : Later s s.
Proof. by split. Qed.

Lemma Later_trans s1 s2 s3 : Later s1 s2 → Later s2 s3 → Later s1 s3.
Proof.
  intros [A1 A2 A3 A4 A5 A6 A7] [B1 B2 B3 B4 B5 B6 B7].
  split; try (by etrans); try lia; auto.
Qed.

Lemma mem_false_not_in x l : mem x l = false → x ∉ l.
Proof.
  intros E Hin. apply list_elem_of_In, mem_In in Hin. congruence.
Qed.

Lemma Later_add_warning m s : Later s (add_warning m s).
Proof.
  unfold add_warning. destruct (mem m (warnings s)) eqn:E; [apply Later_refl |].
  split; simpl; try done; try lia.
  - by apply prefix_app_r.
  - intros H. apply NoDup_app. split; [done |]. split.
    + intros x Hx Hm. apply list_elem_of_singleton in Hm as ->.
      by apply (mem_false_not_in _ _ E).
    + apply NoDup_singleton.
Qed.

Lemma Later_add_error m s : Later s (add_error m s).
Proof.
  unfold add_error. destruct (mem m (errors s)) eqn:E; [apply Later_refl |].
  split; simpl; try done; try lia.
  - by apply prefix_app_r.
  - intros H. apply NoDup_app. split; [done |]. split.
    + intros x Hx Hm. apply list_elem_of_singleton in Hm as ->.
      by apply (mem_false_not_in _ _ E).
    + apply NoDup_singleton.
Qed.

Lemma Later_add_warnings ms s : Later s (fold_left (λ s m, add_warning m s) ms s).
Proof.
  revert s. induction ms as [|m ms IH]; intros s; simpl; [apply Later_refl |].
  eapply Later_trans; [apply Later_add_warning | apply IH].
Qed.

Lemma Later_add_event e s : Later s (add_event e s).
Proof. split; simpl; try done; try lia. by apply prefix_app_r. Qed.

Lemma Later_merge_result a r s : Later s (_merge_result a r s).
Proof.
  unfold _merge_result.
  repeat (case_match; try apply Later_refl);
    try (eapply Later_trans; [| apply Later_add_warning]); by split.
Qed.

Lemma Later_refresh s : Later s (_refresh_delivery_metadata s).
Proof. unfold _refresh_delivery_metadata. case_bool_decide; by split. Qed.

Lemma StronglySorted_snoc {A} (R : A → A → Prop) l x :
  StronglySorted R l → Forall (λ y, R y x) l → StronglySorted R (l ++ [x]).
Proof.
  induction 1 as [|a l Hl IH Ha]; intros Hx; simpl.
  - repeat constructor.
  - apply Forall_cons in Hx as [Hax Hx]. constructor; [by apply IH |].
    apply Forall_app. split; [done | by constructor].
Qed.

Lemma Ordered_mutate s0 f w :
  Later (wstate w) (f (wstate w)) → Ordered s0 w → Ordered s0 (mutate f w).
Proof.
  intros Hf [O1 O2]. split; [done |]. simpl.
  eapply Forall_impl; [exact O2 |]. simpl. intros s Hs. by eapply Later_trans.
Qed.

Lemma Ordered_observe s0 w a :
  observed [a] = [wstate w] → Ordered s0 w → Ordered s0 (record a w).
Proof.
  intros Ha [O1 O2]. split; simpl; rewrite observed_app, Ha, app_comm_cons.
  - by apply StronglySorted_snoc.
  - apply Forall_app. split; [done |]. constructor; [apply Later_refl | constructor].
Qed.

Lemma Ordered_note s0 w a :
  observed [a] = [] → Ordered s0 w → Ordered s0 (record a w).
Proof.
  intros Ha [O1 O2]. split; simpl; by rewrite observed_app, Ha, app_nil_r.
Qed.

Lemma Ordered_emit s0 w step st msg level :
  Ordered s0 w → Ordered s0 (_emit_event w step st msg level).
Proof.
  intros O. unfold _emit_event. apply Ordered_observe; [done |].
  apply Ordered_mutate; [apply Later_add_event | done].
Qed.

Lemma Ordered_save s0 w : Ordered s0 w → Ordered s0 (save w).
Proof. intros O. by apply Ordered_observe. Qed.

Lemma Ordered_assign s0 v w : Ordered s0 w → Ordered s0 (assign_run_status v w).
Proof.
  intros O. unfold assign_run_status. apply Ordered_note; [done |].
  apply Ordered_mutate; [by split | done].
Qed.

Lemma Ordered_exec s0 env a w :
  Ordered s0 w →
  match _execute_step env a w with
  | Ok w' => Ordered s0 w'
  | Raised _ w' => Ordered s0 w'
  end.
Proof.
  intros O. unfold _execute_step. destruct (worker_agents env !! a) as [wk |]; [| done].
  set (w1 := _emit_event _ a "in_progress" _ "info").
  assert (O1 : Ordered s0 w1).
  { apply Ordered_emit. apply Ordered_mutate; [by split |].
    apply Ordered_mutate; [by split | done]. }
  destruct (wk (wstate w1)) as [ws cp] eqn:Ewk. simpl.
  set (w2 := mutate _ (record _ w1)).
  assert (O2 : Ordered s0 w2).
  { apply Ordered_mutate; [apply Later_add_warnings |]. by apply Ordered_note. }
  destruct cp as [r | m].
  - assert (O3 : ∀ x msg, Ordered s0
              (_emit_event
                 (mutate (set_step_status a "completed")
                    (mutate (_merge_result a r)
                       (mutate (λ s, set_agent_timings (<[a := x]> (agent_timings s)) s) w2)))
                 a "completed" msg "info")).
    { intros x msg. apply Ordered_emit. apply Ordered_mutate; [by split |].
      apply Ordered_mutate; [apply Later_merge_result |].
      apply Ordered_mutate; [by split | done]. }
    destruct (a =? "delivery")%string; [| apply O3].
    apply Ordered_mutate; [apply Later_refresh | apply O3].
  - apply Ordered_emit. apply Ordered_mutate; [by split | done].
Qed.

Lemma Ordered_sla_check s0 env w : Ordered s0 w → Ordered s0 (sla_check env w).
Proof.
  intros O. unfold sla_check. destruct (is_breached env (wstate w)); [| done].
  destruct (mem _ _); [done |].
  apply Ordered_emit. apply Ordered_mutate; [apply Later_add_warning | done].
Qed.

Lemma Ordered_entered s0 c p w : Ordered s0 w → Ordered s0 (entered c p w).
Proof.
  intros O. unfold entered. apply Ordered_mutate.
  { split; simpl; try done; try lia. by apply prefix_app_r. }
  destruct (retry_gate c p (wstate w)); [| done].
  unfold retry_attempt. apply Ordered_emit.
  apply Ordered_mutate; [apply Later_add_warning |].
  apply Ordered_mutate; [| done]. split; simpl; try done; lia.
Qed.

Lemma Ordered_iteration s0 env aa c p w :
  Ordered s0 w →
  match iteration env aa c p w with
  | Continue _ _ w' => Ordered s0 w'
  | Return w' => Ordered s0 w'
  | Throw _ w' => Ordered s0 w'
  end.
Proof.
  intros O. destruct (c =? "pause_for_approval")%string eqn:Hp.
  - unfold iteration. rewrite Hp. destruct aa.
    + apply Ordered_emit. apply Ordered_mutate; [by split |].
      apply Ordered_assign. apply Ordered_mutate; [by split |].
      apply Ordered_mutate; [by split | done].
    + apply Ordered_save. apply Ordered_emit. apply Ordered_mutate; [by split |].
      apply Ordered_assign. apply Ordered_mutate; [by split | done].
  - rewrite (iteration_eq _ _ _ _ _ Hp).
    pose proof (Ordered_exec s0 env c (entered c p w) (Ordered_entered s0 c p w O)) as H.
    destruct (_execute_step env c (entered c p w)); [| done].
    apply Ordered_sla_check. by apply Ordered_save.
Qed.

Lemma Ordered_loop s0 env aa fuel :
  ∀ c p w r, Ordered s0 w → loop fuel env aa c p w = Some r →
             match r with
             | Exit _ w' => Ordered s0 w'
             | Returned w' => Ordered s0 w'
             | Thrown _ w' => Ordered s0 w'
             end.
Proof.
  induction fuel as [|fuel IH]; intros c p w r O H; simpl in H.
  - destruct (_ || _); [| done]. by injection H as <-.
  - destruct (_ || _); [by injection H as <- |].
    pose proof (Ordered_iteration s0 env aa c p w O) as Hi.
    destruct (iteration env aa c p w); [by eapply IH | |]; by injection H as <-.
Qed.

Lemma Ordered_begin env req : Ordered (WorkflowState_init req) (begin env req).
Proof.
  unfold begin. apply Ordered_emit. apply Ordered_save.
  apply Ordered_mutate; [by split |]. apply Ordered_assign.
  split; simpl.
  - constructor; constructor.
  - constructor; [by split | constructor].
Qed.

Lemma Ordered_deliver s0 env c w :
  Ordered s0 w →
  match deliver env c w with
  | Ok w' => Ordered s0 w'
  | Raised _ w' => Ordered s0 w'
  end.
Proof.
  intros O. unfold deliver. destruct (c =? "delivery")%string; [| done].
  match goal with |- context [_execute_step env "delivery" ?w0] =>
    assert (O0 : Ordered s0 w0) end.
  { apply Ordered_assign. apply Ordered_mutate; [by split |].
    apply Ordered_mutate; [by split |]. apply Ordered_mutate; [| done].
    split; simpl; try done; try lia. by apply prefix_app_r. }
  pose proof (Ordered_exec s0 env "delivery" _ O0) as H.
  destruct (_execute_step env "delivery" _); [by apply Ordered_save | done].
Qed.

Lemma Ordered_finalize s0 env w : Ordered s0 w → Ordered s0 (finalize env w).
Proof.
  intros O. unfold finalize. apply Ordered_save. apply Ordered_emit.
  apply Ordered_assign. apply Ordered_mutate; [by split |].
  apply Ordered_mutate; [by split | done].
Qed.

Lemma Ordered_handler s0 env m w : Ordered s0 w → Ordered s0 (handler env m w).
Proof.
  intros O. unfold handler. apply Ordered_save. apply Ordered_emit.
  apply Ordered_mutate; [apply Later_add_error |]. apply Ordered_assign.
  apply Ordered_mutate; [by split |]. apply Ordered_mutate; [by split | done].
Qed.

Lemma Ordered_orchestrate env req aa w fuel :
  orchestrate_fuel fuel env req aa = Some w → Ordered (WorkflowState_init req) w.
Proof.
  unfold orchestrate_fuel, try_block. intros H.
  destruct (loop fuel env aa "intake" None (begin env req)) as [r |] eqn:E; [| done].
  pose proof (Ordered_loop _ env aa fuel _ _ _ _ (Ordered_begin env req) E) as O.
  destruct r as [c w1 | w1 | m w1].
  - pose proof (Ordered_deliver _ env c w1 O) as Od.
    destruct (deliver env c w1) as [w2 | m w2]; injection H as <-.
    + by apply Ordered_finalize.
    + by apply Ordered_handler.
  - by injection H as <-.
  - injection H as <-. by apply Ordered_handler.
Qed.

Lemma Ordered_states s0 w :
  Ordered s0 w → StronglySorted Later (s0 :: states_of w).
Proof.
  intros [O1 O2]. unfold states_of. rewrite app_comm_cons.
  by apply StronglySorted_snoc.
Qed.

Lemma StronglySorted_lookup {A} (R : A → A → Prop) (l : list A) i j x y :
  StronglySorted R l → (i < j)%nat → l !! i = Some x → l !! j = Some y → R x y.
Proof.
  intros H. revert i j. induction H as [|a l Hl IH Ha]; intros i j Hij Hi Hj; [done |].
  destruct j as [|j]; [lia |]. destruct i as [|i]; simpl in *.
  - injection Hi as <-. rewrite Forall_forall in Ha. apply Ha.
    by eapply list_elem_of_lookup_2.
  - apply (IH i j); [lia | done | done].
Qed.

(** The logs of a run are append-only. In every run, of two states that
    the run made observable (or returns) the later one extends the events,
    the route, the warnings and the errors of the earlier one, and its
    retry counter is not smaller. *)
Theorem logs_append_only (env : Env) (req : Request) (aa : bool) :
  ∃ w, orchestrate env req aa = Some w
       ∧ ∀ i j s s', (i < j)%nat →
           states_of w !! i = Some s → states_of w !! j = Some s' →
           events s `prefix_of` events s'
           ∧ route_history s `prefix_of` route_history s'
           ∧ warnings s `prefix_of` warnings s'
           ∧ errors s `prefix_of` errors s'
           ∧ retry_count s ≤ retry_count s'.
Proof.
  destruct (orchestrate_summary env req aa) as (w & E & _).
  exists w. split; [done |]. intros i j s s' Hij Hi Hj.
  pose proof (Ordered_states _ _ (Ordered_orchestrate _ _ _ _ _ E)) as H.
  apply StronglySorted_inv in H as [H _].
  destruct (StronglySorted_lookup _ _ _ _ _ _ H Hij Hi Hj). done.
Qed.

(** No message is recorded twice. When the warnings that come with the
    request hold no duplicate, in every state the run makes observable or
    returns neither [warnings] nor [errors] holds a duplicate, however often
    the same condition is recorded. *)
Theorem messages_never_duplicated (env : Env) (req : Request) (aa : bool) :
  NoDup (req_warnings req) →
  ∃ w, orchestrate env req aa = Some w
       ∧ ∀ s, In s (states_of w) → NoDup (warnings s) ∧ NoDup (errors s).
Proof.
  intros Hn. destruct (orchestrate_summary env req aa) as (w & E & _).
  exists w. split; [done |]. intros s Hs.
  pose proof (Ordered_states _ _ (Ordered_orchestrate _ _ _ _ _ E)) as H.
  apply StronglySorted_inv in H as [_ H]. rewrite Forall_forall in H.
  destruct (H s) as [_ _ _ _ _ Hw He]; [by apply list_elem_of_In |].
  split; [by apply Hw | apply He; constructor].
Qed.

Lemma messages_never_duplicated_witness :
  ∃ w, orchestrate Sample.plain (Sample.request 1 true) true = Some w
       ∧ ∀ s, In s (states_of w) → NoDup (warnings s) ∧ NoDup (errors s).
Proof.
  apply (messages_never_duplicated Sample.plain (Sample.request 1 true) true).
  simpl. constructor.
Defined.

Lemma derive_ignores_log e v s :
  _derive_run_status (add_event e (set_run_status v s)) = _derive_run_status s.
Proof. reflexivity. Qed.

(** The label a run returns with is the one its own final state derives:
    deriving [run_status] again from the returned state gives the label it
    already carries, whether the run completed, failed or paused. *)
Theorem returned_label_is_derived (env : Env) (req : Request) (aa : bool) :
  ∃ w, orchestrate env req aa = Some w
       ∧ run_status (wstate w) = _derive_run_status (wstate w).
Proof.
  unfold orchestrate, orchestrate_fuel, try_block.
  destruct (loop_inv env aa (enough_fuel req) "intake" None (begin env req)
              (begin_inv env req) (begin_potential env req)) as (r & -> & Hr).
  assert (Hh : ∀ m w, run_status (wstate (handler env m w))
                      = _derive_run_status (wstate (handler env m w))).
  { intros m w. destruct (handler_world env m w) as (e & t & -> & _).
    destruct (add_error_spec m
                (set_run_status "failed"
                   (set_end_time (Some t) (set_status FAILED (wstate w)))))
      as (_ & _ & _ & _ & Es & El & _).
    unfold _derive_run_status.
    change (status (add_event e ?s)) with (status s).
    change (run_status (add_event e ?s)) with (run_status s).
    by rewrite Es, El. }
  destruct r as [c w | w | m w].
  - destruct (deliver env c w) as [w' | m w']; eexists; (split; [reflexivity |]).
    + destruct (finalize_world env w') as (e & t & Est & _). cbv zeta in Est.
      by rewrite Est, derive_ignores_log.
    + apply Hh.
  - eexists. split; [reflexivity |].
    destruct Hr as [_ St La _ _ _ _]. unfold _derive_run_status. by rewrite St, La.
  - eexists. split; [reflexivity |]. apply Hh.
Qed.

(** ** Pausing *)

Lemma entered_end_time c p w :
  end_time (wstate (entered c p w)) = end_time (wstate w).
Proof.
  unfold entered. destruct (retry_gate c p (wstate w)); [| done].
  unfold retry_attempt, _emit_event. cbn [wstate wtrace mutate record].
  match goal with |- context [add_warning ?m ?s] =>
    pose proof (ctl_fields _ _ (ctl_add_warning m s)) as (_ & _ & _ & _ & _ & _ & Ee & _)
  end.
  exact Ee.
Qed.

(** A pass ends the run without an exception only at the approval gate
    with auto-approve off, and leaves the paused record. *)
Lemma iteration_return env aa c p w w' :
  iteration env aa c p w = Return w' →
  aa = false
  ∧ pause_reason (wstate w') = VStr "Awaiting human approval"
  ∧ end_time (wstate w') = end_time (wstate w).
Proof.
  destruct (c =? "pause_for_approval")%string eqn:Hp.
  - unfold iteration. rewrite Hp. destruct aa; [done |]. by intros [= <-].
  - rewrite (iteration_eq _ _ _ _ _ Hp). by destruct (_execute_step _ _ _).
Qed.

Lemma iteration_end_time env aa c p w :
  match iteration env aa c p w with
  | Continue _ _ w' => end_time (wstate w') = end_time (wstate w)
  | Return w' => end_time (wstate w') = end_time (wstate w)
  | Throw _ w' => end_time (wstate w') = end_time (wstate w)
  end.
Proof.
  destruct (c =? "pause_for_approval")%string eqn:Hp.
  - unfold iteration. rewrite Hp. by destruct aa.
  - rewrite (iteration_eq _ _ _ _ _ Hp).
    pose proof (exec_quiet env c (entered c p w)) as Q.
    destruct (_execute_step env c (entered c p w)) as [w1 | m w1].
    + assert (Q2 : quiet (entered c p w) (sla_check env (save w1))).
      { eapply quiet_trans; [| apply quiet_sla_check]. by apply quiet_then_save. }
      destruct Q2 as (_ & _ & _ & _ & _ & Ec).
      apply ctl_fields in Ec as (_ & _ & _ & _ & _ & _ & Ee & _).
      by rewrite Ee, entered_end_time.
    + destruct Q as (ms & (_ & _ & _ & _ & _ & Ec) & _).
      apply ctl_fields in Ec as (_ & _ & _ & _ & _ & _ & Ee & _).
      by rewrite Ee, entered_end_time.
Qed.

Lemma loop_returned env aa fuel :
  ∀ c p w w', loop fuel env aa c p w = Some (Returned w') →
              aa = false
              ∧ pause_reason (wstate w') = VStr "Awaiting human approval"
              ∧ end_time (wstate w') = end_time (wstate w).
Proof.
  induction fuel as [|fuel IH]; intros c p w w' H; simpl in H.
  - by destruct (_ || _).
  - destruct (_ || _); [done |].
    pose proof (iteration_end_time env aa c p w) as He.
    destruct (iteration env aa c p w) as [c1 p1 w1 | w1 | m w1] eqn:Ei; [| | done].
    + destruct (IH _ _ _ _ H) as (Ha & Hr & Ht). by rewrite Ht.
    + injection H as <-. by apply iteration_return in Ei as (? & ? & ?).
Qed.

(** A run pauses only at the approval gate with auto-approve off. The
    paused record then holds the route [intake, planner], the label
    [paused], the reason "Awaiting human approval" (whatever reason the
    planner gave), an unset [approval_granted] and no [end_time]; every
    record that is not paused has its [end_time] set. *)
Theorem paused_record (env : Env) (req : Request) (aa : bool) :
  ∃ w, orchestrate env req aa = Some w
       ∧ (status (wstate w) = PAUSED →
            aa = false
            ∧ route_history (wstate w) = ["intake"; "planner"]
            ∧ run_status (wstate w) = "paused"
            ∧ pause_reason (wstate w) = VStr "Awaiting human approval"
            ∧ approval_granted (wstate w) = None
            ∧ end_time (wstate w) = None)
       ∧ (status (wstate w) ≠ PAUSED → is_Some (end_time (wstate w))).
Proof.
  destruct (orchestrate_summary env req aa) as (w0 & E0 & S0).
  revert E0. unfold orchestrate, orchestrate_fuel, try_block.
  destruct (loop_inv env aa (enough_fuel req) "intake" None (begin env req)
              (begin_inv env req) (begin_potential env req)) as (r & El & Hr).
  rewrite El.
  destruct r as [c w | w | m w].
  - destruct (deliver env c w) as [w' | m w']; intros [= <-];
      eexists; (split; [reflexivity |]).
    + destruct (finalize_fields env w') as (Ks & _). rewrite Ks.
      split; [done |]. intros _. destruct (summary_ended _ S0) as [? | [? _]]; [| done].
      congruence.
    + destruct (handler_world env m w') as (e & t & Est & _).
      destruct (add_error_spec m
                  (set_run_status "failed"
                     (set_end_time (Some t) (set_status FAILED (wstate w')))))
        as (_ & _ & _ & _ & Es & _ & Ee).
      assert (Fs : status (wstate (handler env m w')) = FAILED) by (by rewrite Est).
      rewrite Fs. split; [done |]. intros _.
      destruct (summary_ended _ S0) as [? | [? _]]; [congruence | done].
  - intros [= <-]. eexists. split; [reflexivity |].
    destruct Hr as [G St La Re Ro _ _].
    destruct (loop_returned _ _ _ _ _ _ _ El) as (Ha & Hp & He).
    split; [| by rewrite St].
    intros _. destruct (sound_paused _ (good_now _ G) St) as [_ Hg].
    by repeat split.
  - intros [= <-]. eexists. split; [reflexivity |].
    destruct (handler_world env m w) as (e & t & Est & _).
    destruct (add_error_spec m
                (set_run_status "failed"
                   (set_end_time (Some t) (set_status FAILED (wstate w)))))
      as (_ & _ & _ & _ & Es & _ & Ee).
    assert (Fs : status (wstate (handler env m w)) = FAILED) by (by rewrite Est).
    rewrite Fs. split; [done |]. intros _.
    destruct (summary_ended _ S0) as [? | [? _]]; [congruence | done].
Qed.
(** ** A run in which every step succeeds at once *)



(** ** Steps, calls and failures *)

Lemma called_app t u : called (t ++ u) = called t ++ called u.
Proof.
  induction t as [|a t IH]; [done |]. destruct a; simpl; by rewrite IH.
Qed.

(** What a step leaves behind, in the state and in the trace. *)
Lemma exec_effect env a w :
  match _execute_step env a w with
  | Ok w' =>
      is_Some (worker_agents env !! a)
      ∧ called (wtrace w') = called (wtrace w) ++ [a]
      ∧ raised_messages (wtrace w') = raised_messages (wtrace w)
      ∧ step_status (wstate w') !! a = Some "completed"
      ∧ (∀ k, k ≠ a → step_status (wstate w') !! k = step_status (wstate w) !! k)
  | Raised m w' =>
      (worker_agents env !! a = None ∧ m = "Unknown agent: " +:+ a ∧ w' = w)
      ∨ ((∃ wk : Worker, worker_agents env !! a = Some wk
                ∧ completion (wk (worker_input a (wstate w))) = Raises m)
         ∧ called (wtrace w') = called (wtrace w) ++ [a]
         ∧ raised_messages (wtrace w') = raised_messages (wtrace w) ++ [m]
         ∧ step_status (wstate w') !! a = Some "failed"
         ∧ (∀ k, k ≠ a → step_status (wstate w') !! k = step_status (wstate w) !! k))
  end.
Proof.
  unfold _execute_step. destruct (worker_agents env !! a) as [wk |] eqn:Hw.
  2: { by left. }
  cbn [wstate wtrace mutate _emit_event record].
  change (add_event (mkEvent a "in_progress" "info" (a +:+ " started."))
            (set_step_status a "in_progress" (set_current_agent (Some a) (wstate w))))
    with (worker_input a (wstate w)).
  destruct (wk (worker_input a (wstate w))) as [ws [r | m]] eqn:Ewk;
    cbn [completion added_warnings].
  - cbn [wstate wtrace mutate _emit_event record].
    set (s1 := fold_left _ ws (worker_input a (wstate w))).
    destruct (add_warnings_keeps ws (worker_input a (wstate w)))
      as (_ & _ & _ & A4 & _). fold s1 in A4.
    set (x := perf_elapsed env _).
    set (s2 := set_agent_timings (<[a := x]> (agent_timings s1)) s1).
    destruct (merge_fields a r s2) as (_ & _ & _ & M4 & _).
    assert (K : step_status (set_step_status a "completed" (_merge_result a r s2))
                = <[a := "completed"]> (<[a := "in_progress"]> (step_status (wstate w)))).
    { cbn [set_step_status set_step_status_map step_status]. rewrite M4.
      unfold s2. cbn [set_agent_timings step_status]. by rewrite A4. }
    assert (G : ∀ s0 t0,
              step_status s0
              = <[a := "completed"]> (<[a := "in_progress"]> (step_status (wstate w))) →
              called t0 = called (wtrace w) ++ [a] →
              raised_messages t0 = raised_messages (wtrace w) →
              is_Some (Some wk)
              ∧ called t0 = called (wtrace w) ++ [a]
              ∧ raised_messages t0 = raised_messages (wtrace w)
              ∧ step_status s0 !! a = Some "completed"
              ∧ (∀ k, k ≠ a → step_status s0 !! k = step_status (wstate w) !! k)).
    { intros s0 t0 -> Hc Hr. split; [done |]. split; [done |]. split; [done |].
      split; [by rewrite lookup_insert_eq |].
      intros k Hk. by rewrite !lookup_insert_ne. }
    destruct (a =? "delivery")%string; cbn [wstate wtrace mutate _emit_event record].
    + apply G.
      * match goal with |- step_status (_refresh_delivery_metadata ?s0) = _ =>
          destruct (refresh_fields s0) as (_ & _ & _ & R4 & _) end.
        rewrite R4. exact K.
      * rewrite !called_app. simpl. by rewrite !app_nil_r.
      * rewrite !raised_messages_app. simpl. by rewrite !app_nil_r.
    + apply G.
      * exact K.
      * rewrite !called_app. simpl. by rewrite !app_nil_r.
      * rewrite !raised_messages_app. simpl. by rewrite !app_nil_r.
  - right. cbn [wstate wtrace mutate _emit_event record].
    destruct (add_warnings_keeps ws (worker_input a (wstate w)))
      as (_ & _ & _ & A4 & _).
    split; [exists wk; by rewrite Ewk |]. split; [| split; [| split]].
    + rewrite !called_app. simpl. by rewrite !app_nil_r.
    + rewrite !raised_messages_app. simpl. by rewrite !app_nil_r.
    + cbn [add_event set_events set_step_status set_step_status_map step_status].
      by rewrite lookup_insert_eq.
    + intros k Hk.
      cbn [add_event set_events set_step_status set_step_status_map step_status].
      rewrite lookup_insert_ne by done.
      change (add_event (mkEvent a "in_progress" "info" (a +:+ " started."))
                (set_step_status a "in_progress" (set_current_agent (Some a) (wstate w))))
        with (worker_input a (wstate w)).
      rewrite A4. unfold worker_input. cbn.
      by rewrite lookup_insert_ne.
Qed.

Lemma sla_check_trace env w :
  called (wtrace (sla_check env (save w))) = called (wtrace w)
  ∧ raised_messages (wtrace (sla_check env (save w))) = raised_messages (wtrace w).
Proof.
  unfold sla_check, save. cbn [wstate wtrace record].
  destruct (is_breached env (wstate w)).
  - destruct (mem _ _); cbn [_emit_event wstate wtrace record mutate];
      rewrite ?called_app, ?raised_messages_app; simpl; rewrite ?app_nil_r; done.
  - cbn [wstate wtrace record].
    rewrite ?called_app, ?raised_messages_app. simpl. rewrite ?app_nil_r. done.
Qed.

Lemma entered_trace c p w :
  called (wtrace (entered c p w)) = called (wtrace w)
  ∧ raised_messages (wtrace (entered c p w)) = raised_messages (wtrace w).
Proof.
  unfold entered. destruct (retry_gate c p (wstate w)); [| done].
  unfold retry_attempt, _emit_event. cbn [wstate wtrace record mutate].
  rewrite ?called_app, ?raised_messages_app. simpl. rewrite ?app_nil_r. done.
Qed.

Lemma Tidy_iteration env aa c p w :
  Tidy env w →
  match iteration env aa c p w with
  | Continue _ _ w' => Tidy env w'
  | Return w' => Tidy env w'
  | Throw m w' => Broken env m c (route_history (wstate w)) w'
  end.
Proof.
  intros [T1 T2 T0 T3 T4].
  destruct (c =? "pause_for_approval")%string eqn:Hp.
  - unfold iteration. rewrite Hp. destruct aa.
    + split; cbn; rewrite ?called_app, ?raised_messages_app; simpl;
        rewrite ?app_nil_r; done.
    + split; cbn; rewrite ?called_app, ?raised_messages_app; simpl;
        rewrite ?app_nil_r; done.
  - rewrite (iteration_eq _ _ _ _ _ Hp).
    destruct (entered_fields c p w) as (Eh & _ & _ & _ & _ & _ & _ & _ & E4).
    destruct (entered_trace c p w) as (Ec & Er). cbv zeta in *.
    pose proof (exec_effect env c (entered c p w)) as X.
    pose proof (exec_quiet env c (entered c p w)) as Q.
    destruct (_execute_step env c (entered c p w)) as [w1 | m w1].
    + destruct X as (Hreg & Xc & Xr & Xs & Xk).
      destruct (sla_check_keeps env w1) as (Sc & _ & _ & _ & S4).
      destruct (sla_check_trace env w1) as (Tc & Tr). cbv zeta in *.
      destruct Q as (_ & _ & _ & _ & _ & Qc).
      apply ctl_fields in Sc as (Sh & _). apply ctl_fields in Qc as (Qh & _).
      split.
      * by rewrite Tc, Xc, Ec, T1, Sh, Qh, Eh.
      * by rewrite Tr, Xr, Er.
      * intros k Hk. rewrite Sh, Qh, Eh in Hk.
        apply in_app_or in Hk as [Hk | [<- | []]]; [by apply T0 | done].
      * intros k Hk. rewrite Sh, Qh, Eh in Hk. rewrite S4.
        destruct (String.eqb_spec k c) as [-> | Hne]; [done |].
        rewrite Xk, E4 by done. apply T3.
        apply in_app_or in Hk as [Hk | [Hk | []]]; [done | congruence].
      * intros k Hk. rewrite Sh, Qh, Eh in Hk. rewrite S4.
        assert (k ≠ c) by (intros ->; apply Hk, in_or_app; right; by left).
        rewrite Xk, E4 by done. apply T4.
        intros Hin. apply Hk, in_or_app. by left.
    + destruct Q as (ms & (_ & _ & _ & _ & _ & Qc) & _).
      apply ctl_fields in Qc as (Qh & _).
      split.
      * by rewrite Qh, Eh.
      * destruct X as [(Hn & -> & ->) | (Hreg & Xc & Xr & Xs & Xk)].
        -- left. split; [done |]. split; [done |]. split; [by rewrite Ec |].
           split; [by rewrite Er |]. intros Hin.
           apply T0 in Hin. rewrite Hn in Hin. by destruct Hin.
        -- right. destruct Hreg as (wk & Hwk & Hc).
           split; [by eauto |]. split; [by rewrite Xc, Ec, T1, Qh, Eh |].
           split; [by rewrite Xr, Er, T2 |]. done.
      * intros k Hk Hne.
        destruct X as [(Hn & -> & ->) | (Hreg & Xc & Xr & Xs & Xk)].
        -- rewrite E4. by apply T3.
        -- rewrite Xk, E4 by done. by apply T3.
      * intros k Hk. rewrite Qh, Eh in Hk.
        assert (k ≠ c) by (intros ->; apply Hk, in_or_app; right; by left).
        assert (¬ In k (route_history (wstate w)))
          by (intros Hin; apply Hk, in_or_app; by left).
        destruct X as [(Hn & -> & ->) | (Hreg & Xc & Xr & Xs & Xk)].
        -- rewrite E4. by apply T4.
        -- rewrite Xk, E4 by done. by apply T4.
Qed.

Lemma Tidy_keep env w w' :
  called (wtrace w') = called (wtrace w) →
  raised_messages (wtrace w') = raised_messages (wtrace w) →
  route_history (wstate w') = route_history (wstate w) →
  step_status (wstate w') = step_status (wstate w) →
  Tidy env w → Tidy env w'.
Proof.
  intros Ec Er Eh Es [T1 T2 T0 T3 T4].
  split; rewrite ?Ec, ?Er, ?Eh, ?Es; done.
Qed.

Lemma Broken_keep env m c h w w' :
  called (wtrace w') = called (wtrace w) →
  raised_messages (wtrace w') = raised_messages (wtrace w) →
  route_history (wstate w') = route_history (wstate w) →
  step_status (wstate w') = step_status (wstate w) →
  Broken env m c h w → Broken env m c h w'.
Proof.
  intros Ec Er Eh Es [B1 B2 B3 B4].
  split; rewrite ?Ec, ?Er, ?Eh, ?Es; done.
Qed.

Lemma Tidy_loop env aa fuel :
  ∀ c p w, Tidy env w →
    match loop fuel env aa c p w with
    | None => True
    | Some (Exit _ w') => Tidy env w'
    | Some (Returned w') => Tidy env w'
    | Some (Thrown m w') => ∃ c' h, Broken env m c' h w'
    end.
Proof.
  induction fuel as [|fuel IH]; intros c p w T; simpl.
  - by destruct (_ || _).
  - destruct (_ || _); [done |].
    pose proof (Tidy_iteration env aa c p w T) as X.
    destruct (iteration env aa c p w) as [c1 p1 w1 | w1 | m w1]; [by apply IH | done |].
    by eauto.
Qed.

Lemma Tidy_begin env req : Tidy env (begin env req).
Proof.
  destruct (begin_fields env req) as (Eh & _ & _ & _ & _ & Es). cbv zeta in *.
  split; rewrite ?Eh; try done; intros k _; apply Es.
Qed.

Lemma Tidy_deliver env c w :
  Tidy env w →
  match deliver env c w with
  | Ok w' => Tidy env w'
  | Raised m w' => Broken env m "delivery" (route_history (wstate w)) w'
  end.
Proof.
  intros T. unfold deliver.
  destruct (String.eqb_spec c "delivery") as [-> | _]; [| done].
  set (w0 := assign_run_status _ _).
  assert (Eh : route_history (wstate w0) = route_history (wstate w) ++ ["delivery"]) by done.
  assert (E4 : step_status (wstate w0) = step_status (wstate w)) by done.
  assert (Ec : called (wtrace w0) = called (wtrace w)).
  { unfold w0, assign_run_status. cbn [wstate wtrace record mutate].
    rewrite called_app. simpl. by rewrite app_nil_r. }
  assert (Er : raised_messages (wtrace w0) = raised_messages (wtrace w)).
  { unfold w0, assign_run_status. cbn [wstate wtrace record mutate].
    rewrite raised_messages_app. simpl. by rewrite app_nil_r. }
  destruct T as [T1 T2 T0 T3 T4].
  pose proof (exec_effect env "delivery" w0) as X.
  pose proof (exec_quiet env "delivery" w0) as Q.
  clearbody w0.
  destruct (_execute_step env "delivery" w0) as [w1 | m w1].
  - destruct X as (Hreg & Xc & Xr & Xs & Xk).
    destruct Q as (_ & _ & _ & _ & _ & Qc).
    apply ctl_fields in Qc as (Qh & _).
    assert (Sc : called (wtrace (save w1)) = called (wtrace w1)).
    { unfold save. cbn [wtrace record]. rewrite called_app. simpl. by rewrite app_nil_r. }
    assert (Sr : raised_messages (wtrace (save w1)) = raised_messages (wtrace w1)).
    { unfold save. cbn [wtrace record]. rewrite raised_messages_app. simpl.
      by rewrite app_nil_r. }
    apply (Tidy_keep env w1); try done.
    split.
    + by rewrite Xc, Ec, T1, Qh, Eh.
    + by rewrite Xr, Er.
    + intros k Hk. rewrite Qh, Eh in Hk.
      apply in_app_or in Hk as [Hk | [<- | []]]; [by apply T0 | done].
    + intros k Hk. rewrite Qh, Eh in Hk.
      destruct (String.eqb_spec k "delivery") as [-> | Hne]; [done |].
      rewrite Xk, E4 by done. apply T3.
      apply in_app_or in Hk as [Hk | [Hk | []]]; [done | congruence].
    + intros k Hk. rewrite Qh, Eh in Hk.
      assert (k ≠ "delivery") by (intros ->; apply Hk, in_or_app; right; by left).
      rewrite Xk, E4 by done. apply T4.
      intros Hin. apply Hk, in_or_app. by left.
  - destruct Q as (ms & (_ & _ & _ & _ & _ & Qc) & _).
    apply ctl_fields in Qc as (Qh & _).
    split.
    + by rewrite Qh, Eh.
    + destruct X as [(Hn & -> & ->) | (Hreg & Xc & Xr & Xs & Xk)].
      * left. split; [done |]. split; [done |]. split; [by rewrite Ec |].
        split; [by rewrite Er |]. intros Hin.
        apply T0 in Hin. rewrite Hn in Hin. by destruct Hin.
      * right. destruct Hreg as (wk & Hwk & Hc).
        split; [by eauto |]. split; [by rewrite Xc, Ec, T1, Qh, Eh |].
        split; [by rewrite Xr, Er, T2 |]. done.
    + intros k Hk Hne.
      destruct X as [(Hn & -> & ->) | (Hreg & Xc & Xr & Xs & Xk)].
      * rewrite E4. by apply T3.
      * rewrite Xk, E4 by done. by apply T3.
    + intros k Hk. rewrite Qh, Eh in Hk.
      assert (k ≠ "delivery") by (intros ->; apply Hk, in_or_app; right; by left).
      assert (¬ In k (route_history (wstate w)))
        by (intros Hin; apply Hk, in_or_app; by left).
      destruct X as [(Hn & -> & ->) | (Hreg & Xc & Xr & Xs & Xk)].
      * rewrite E4. by apply T4.
      * rewrite Xk, E4 by done. by apply T4.
Qed.

Lemma finalize_keeps env w :
  called (wtrace (finalize env w)) = called (wtrace w)
  ∧ raised_messages (wtrace (finalize env w)) = raised_messages (wtrace w)
  ∧ route_history (wstate (finalize env w)) = route_history (wstate w)
  ∧ step_status (wstate (finalize env w)) = step_status (wstate w).
Proof.
  destruct (finalize_world env w) as (e & t & Est & Etr). cbv zeta in *.
  rewrite Etr, Est, !called_app, !raised_messages_app. simpl.
  by rewrite !app_nil_r.
Qed.

Lemma add_error_steps m s :
  step_status (add_error m s) = step_status s.
Proof. unfold add_error. by destruct (mem m (errors s)). Qed.

Lemma handler_keeps env m w :
  called (wtrace (handler env m w)) = called (wtrace w)
  ∧ raised_messages (wtrace (handler env m w)) = raised_messages (wtrace w)
  ∧ route_history (wstate (handler env m w)) = route_history (wstate w)
  ∧ step_status (wstate (handler env m w)) = step_status (wstate w)
  ∧ status (wstate (handler env m w)) = FAILED
  ∧ errors (wstate (handler env m w)) = errors (add_error m (wstate w)).
Proof.
  destruct (handler_world env m w) as (e & t & Est & Etr).
  rewrite Etr, Est, !called_app, !raised_messages_app. simpl.
  rewrite !app_nil_r.
  set (s1 := set_run_status _ _).
  destruct (add_error_spec m s1) as (_ & Eh & _ & _ & Es & _).
  rewrite add_error_steps, Eh, Es.
  repeat split. unfold add_error, s1. cbn [errors set_run_status set_end_time set_status].
  by destruct (mem m (errors (wstate w))).
Qed.

(** ** Errors *)

Lemma entered_errors c p w :
  errors (wstate (entered c p w)) = errors (wstate w).
Proof.
  unfold entered. destruct (retry_gate c p (wstate w)); [| done].
  unfold retry_attempt, _emit_event. cbn [wstate wtrace mutate record].
  match goal with |- context [add_warning ?m ?s] =>
    pose proof (ctl_fields _ _ (ctl_add_warning m s)) as (_ & _ & _ & _ & _ & _ & _ & Ee)
  end.
  exact Ee.
Qed.

Lemma exec_errors env a w :
  match _execute_step env a w with
  | Ok w' => errors (wstate w') = errors (wstate w)
  | Raised _ w' => errors (wstate w') = errors (wstate w)
  end.
Proof.
  pose proof (exec_quiet env a w) as Q.
  destruct (_execute_step env a w) as [w1 | m w1].
  - destruct Q as (_ & _ & _ & _ & _ & Ec).
    by apply ctl_fields in Ec as (_ & _ & _ & _ & _ & _ & _ & Ee).
  - destruct Q as (ms & (_ & _ & _ & _ & _ & Ec) & _).
    by apply ctl_fields in Ec as (_ & _ & _ & _ & _ & _ & _ & Ee).
Qed.

Lemma iteration_errors env aa c p w :
  match iteration env aa c p w with
  | Continue _ _ w' => errors (wstate w') = errors (wstate w)
  | Return w' => errors (wstate w') = errors (wstate w) ∧ status (wstate w') = PAUSED
  | Throw _ w' => errors (wstate w') = errors (wstate w)
  end.
Proof.
  destruct (c =? "pause_for_approval")%string eqn:Hp.
  - unfold iteration. rewrite Hp. by destruct aa.
  - rewrite (iteration_eq _ _ _ _ _ Hp).
    pose proof (exec_errors env c (entered c p w)) as X.
    destruct (_execute_step env c (entered c p w)) as [w1 | m w1].
    + destruct (sla_check_keeps env w1) as (Sc & _). cbv zeta in Sc.
      apply ctl_fields in Sc as (_ & _ & _ & _ & _ & _ & _ & Ee).
      by rewrite Ee, X, entered_errors.
    + by rewrite X, entered_errors.
Qed.

Lemma loop_errors env aa fuel :
  ∀ c p w,
    match loop fuel env aa c p w with
    | None => True
    | Some (Exit _ w') => errors (wstate w') = errors (wstate w)
    | Some (Returned w') =>
        errors (wstate w') = errors (wstate w) ∧ status (wstate w') = PAUSED
    | Some (Thrown _ w') => errors (wstate w') = errors (wstate w)
    end.
Proof.
  induction fuel as [|fuel IH]; intros c p w; simpl.
  - by destruct (_ || _).
  - destruct (_ || _); [done |].
    pose proof (iteration_errors env aa c p w) as X.
    destruct (iteration env aa c p w) as [c1 p1 w1 | w1 | m w1]; [| done | done].
    specialize (IH c1 p1 w1).
    destruct (loop fuel env aa c1 p1 w1) as [[c2 w2 | w2 | m w2] |]; [| | | done].
    + by rewrite IH.
    + destruct IH as [-> ->]. done.
    + by rewrite IH.
Qed.

Lemma deliver_errors env c w :
  match deliver env c w with
  | Ok w' => errors (wstate w') = errors (wstate w)
  | Raised _ w' => errors (wstate w') = errors (wstate w)
  end.
Proof.
  unfold deliver. destruct (c =? "delivery")%string; [| done].
  set (w0 := assign_run_status _ _).
  assert (E0 : errors (wstate w0) = errors (wstate w)) by done.
  pose proof (exec_errors env "delivery" w0) as X. clearbody w0.
  destruct (_execute_step env "delivery" w0) as [w1 | m w1]; by rewrite <- E0.
Qed.

Lemma finalize_errors env w :
  errors (wstate (finalize env w)) = errors (wstate w).
Proof.
  destruct (finalize_world env w) as (e & t & Est & _). cbv zeta in Est. by rewrite Est.
Qed.

(** How every run ends: the steps of the route were all executed and
    completed and nothing is recorded as an error, or one step raised and
    the record is failed with the message of the exception as its only
    error. *)
Lemma orchestrate_outcome env req aa :
  ∃ w, orchestrate env req aa = Some w
       ∧ Summary w
       ∧ ((status (wstate w) ≠ FAILED ∧ errors (wstate w) = [] ∧ Tidy env w)
          ∨ (status (wstate w) = FAILED
             ∧ ∃ m c h, errors (wstate w) = [m] ∧ Broken env m c h w)).
Proof.
  destruct (orchestrate_summary env req aa) as (w0 & E0 & S0).
  exists w0. split; [done |]. split; [done |]. clear S0.
  revert E0. unfold orchestrate, orchestrate_fuel, try_block.
  pose proof (Tidy_loop env aa (enough_fuel req) "intake" None _ (Tidy_begin env req)) as T.
  pose proof (loop_errors env aa (enough_fuel req) "intake" None (begin env req)) as E.
  assert (Eb : errors (wstate (begin env req)) = []) by done.
  destruct (loop _ env aa "intake" None (begin env req)) as [[c w | w | m w] |];
    [| | | done].
  - rewrite Eb in E.
    pose proof (Tidy_deliver env c w T) as D.
    pose proof (deliver_errors env c w) as De.
    destruct (deliver env c w) as [w' | m w']; intros [= <-].
    + left. destruct (finalize_fields env w') as (Ks & _).
      destruct (finalize_keeps env w') as (Kc & Kr & Kh & Kk).
      split; [by rewrite Ks |]. split; [by rewrite finalize_errors, De |].
      by apply (Tidy_keep env w').
    + right. destruct (handler_keeps env m w') as (Kc & Kr & Kh & Kk & Ks & Ke).
      split; [done |]. exists m, "delivery", (route_history (wstate w)).
      split.
      * rewrite Ke. unfold add_error. by rewrite De, E.
      * by apply (Broken_keep env m _ _ w').
  - intros [= <-]. left. destruct E as [E Es]. rewrite Eb in E.
    split; [by rewrite Es |]. done.
  - intros [= <-]. right. rewrite Eb in E.
    destruct (handler_keeps env m w) as (Kc & Kr & Kh & Kk & Ks & Ke).
    split; [done |]. destruct T as (c & h & B). exists m, c, h.
    split.
    + rewrite Ke. unfold add_error. by rewrite E.
    + by apply (Broken_keep env m _ _ w).
Qed.

Lemma matches_symbols r u :
  Path.matches r u → ∀ x, In x u → In x (symbols r).
Proof.
  induction 1; intros x Hx; simpl in *; try done.
  - apply in_app_or in Hx as [Hx | Hx]; apply in_or_app; [left | right]; eauto.
  - apply in_or_app. left. eauto.
  - apply in_or_app. right. eauto.
  - apply in_app_or in Hx as [Hx | Hx]; eauto.
Qed.

Lemma route_names s k :
  Sound s → In k (route_history s) → In k worker_steps.
Proof.
  intros [_ Hp _ _ _ _] Hk.
  apply PathFacts.prefix_ok_spec in Hp as (rest & Hm).
  pose proof (matches_symbols _ _ Hm k (in_or_app _ rest _ (or_introl Hk))) as Hs.
  unfold worker_steps. simpl in Hs. simpl. tauto.
Qed.

(** ** What a run records about its steps *)

(** A run that does not end failed (it completed or paused) called the
    workers of exactly the steps of its route, in that order, and none of
    them raised; each of these steps is registered and marked completed,
    every other registered step is still pending, no other step has a
    mark, and no error is recorded. *)
Theorem steps_called_and_completed (env : Env) (req : Request) (aa : bool) :
  ∃ w, orchestrate env req aa = Some w
       ∧ (status (wstate w) ≠ FAILED →
            called (wtrace w) = route_history (wstate w)
            ∧ raised_messages (wtrace w) = []
            ∧ errors (wstate w) = []
            ∧ (∀ k, In k (route_history (wstate w)) →
                    is_Some (worker_agents env !! k)
                    ∧ step_status (wstate w) !! k = Some "completed")
            ∧ (∀ k, ¬ In k (route_history (wstate w)) →
                    step_status (wstate w) !! k = initial_step_status env k)).
Proof.
  destruct (orchestrate_outcome env req aa) as (w & E & _ & [(_ & He & T) | (Hf & _)]).
  - exists w. split; [done |]. intros _. destruct T as [T1 T2 T0 T3 T4].
    repeat split; eauto.
  - exists w. split; [done |]. by intros [].
Qed.

(** A failed run has one cause, the step [c] the route ends on, and one
    recorded error, the message [m] of the exception: either [c] has no
    worker, [m] is the unknown-agent message and no worker was called for
    [c], or the worker of [c] was called and raised [m], and [c] is marked
    failed. The workers of the steps before were called in order and
    returned, and these steps (other than an earlier pass through [c]) are
    marked completed. *)
Theorem failed_run_cause (env : Env) (req : Request) (aa : bool) :
  ∃ w, orchestrate env req aa = Some w
       ∧ (status (wstate w) = FAILED →
            ∃ m c h,
              errors (wstate w) = [m]
              ∧ run_status (wstate w) = "failed"
              ∧ route_history (wstate w) = h ++ [c]
              ∧ ((worker_agents env !! c = None
                  ∧ m = "Unknown agent: " +:+ c
                  ∧ called (wtrace w) = h
                  ∧ raised_messages (wtrace w) = [])
                 ∨ ((∃ (worker : Worker) s, worker_agents env !! c = Some worker
                                 ∧ completion (worker s) = Raises m)
                    ∧ called (wtrace w) = h ++ [c]
                    ∧ raised_messages (wtrace w) = [m]
                    ∧ step_status (wstate w) !! c = Some "failed"))
              ∧ (∀ k, In k h → k ≠ c → step_status (wstate w) !! k = Some "completed")).
Proof.
  destruct (orchestrate_outcome env req aa)
    as (w & E & S & [(Hn & _) | (_ & m & c & h & He & [B1 B2 B3 B4])]).
  - exists w. split; [done |]. intros Hf. by destruct Hn.
  - exists w. split; [done |]. intros Hf. exists m, c, h.
    split; [done |]. split; [| split; [done |]; split; [| done]].
    + destruct (summary_writes _ S) as (ips & tail & _ & _ & _ & En & La).
      inversion En; subst; simpl in La; congruence.
    + destruct B2 as [(H1 & H2 & H3 & H4 & _) | (H1 & H2 & H3 & H4)]; [by left | right].
      rewrite B1 in H2. done.
Qed.

(** When each of the six steps has a worker that returns whatever state it
    is given, no run fails: it completes or pauses, and records no
    error. *)
Theorem returning_workers_never_fail (env : Env) (req : Request) (aa : bool) :
  (∀ k, In k worker_steps →
        ∃ worker : Worker, worker_agents env !! k = Some worker
                  ∧ ∀ s, ∃ r, completion (worker s) = Returns r) →
  ∃ w, orchestrate env req aa = Some w
       ∧ (status (wstate w) = COMPLETED ∨ status (wstate w) = PAUSED)
       ∧ errors (wstate w) = [].
Proof.
  intros Hw.
  destruct (orchestrate_outcome env req aa)
    as (w & E & S & [(Hn & He & _) | (_ & m & c & h & He & [B1 B2 B3 B4])]).
  - exists w. split; [done |]. split; [| done].
    destruct (summary_ended _ S) as [? | (_ & [? | ?])]; [by right | by left | done].
  - exfalso.
    assert (Hc : In c worker_steps).
    { apply (route_names (wstate w)); [apply S |]. rewrite B1. apply in_or_app.
      right. by left. }
    destruct (Hw c Hc) as (wk & Hk & Hr).
    destruct B2 as [(H1 & _) | ((wk' & s & H1 & H2) & _)]; [by rewrite Hk in H1 |].
    rewrite Hk in H1. injection H1 as <-.
    destruct (Hr s) as (r & Hs). congruence.
Qed.

Lemma returning_workers_never_fail_witness :
  ∃ w, orchestrate Sample.plain (Sample.request 1 true) false = Some w
       ∧ (status (wstate w) = COMPLETED ∨ status (wstate w) = PAUSED)
       ∧ errors (wstate w) = [].
Proof.
  apply returning_workers_never_fail.
  intros k Hk. simpl in Hk.
  destruct Hk as [<- | [<- | [<- | [<- | [<- | [<- | []]]]]]];
    (eexists; split; [reflexivity | intros s; eexists; reflexivity]).
Defined.

(** ** The event log *)

Lemma retry_announcements_snoc l e :
  retry_announcements (l ++ [e])
  = retry_announcements l
    ++ (if (ev_status e =? "retry")%string then [ev_message e] else []).
Proof.
  unfold retry_announcements. rewrite filter_app, fmap_app. f_equal.
  rewrite filter_cons, filter_nil. destruct (ev_status e =? "retry")%string eqn:E.
  - by rewrite decide_True.
  - by rewrite decide_False.
Qed.

Lemma merge_events a r s : events (_merge_result a r s) = events s.
Proof.
  unfold _merge_result.
  repeat match goal with
         | |- context [if ?b then _ else _] => destruct b
         | |- context [add_warning ?m ?s] =>
             let E := fresh in
             destruct (add_warning_keeps m s) as (_ & _ & _ & _ & _ & E & _); rewrite E
         end; done.
Qed.

Lemma refresh_events s : events (_refresh_delivery_metadata s) = events s.
Proof. unfold _refresh_delivery_metadata. by case_bool_decide. Qed.

(** The events of a step: one when it starts, one when its worker returns
    or raises; none when the step has no worker. *)
Lemma exec_events env a w :
  match _execute_step env a w with
  | Ok w' =>
      ∃ e1 e2, events (wstate w') = (events (wstate w) ++ [e1]) ++ [e2]
               ∧ e1 = mkEvent a "in_progress" "info" (a +:+ " started.")
               ∧ ev_step e2 = a ∧ ev_status e2 = "completed" ∧ ev_level e2 = "info"
  | Raised m w' =>
      (worker_agents env !! a = None ∧ w' = w)
      ∨ (is_Some (worker_agents env !! a)
         ∧ events (wstate w')
           = (events (wstate w) ++ [mkEvent a "in_progress" "info" (a +:+ " started.")])
               ++ [mkEvent a "failed" "error" m])
  end.
Proof.
  unfold _execute_step. destruct (worker_agents env !! a) as [wk |] eqn:Hw.
  2: { by left. }
  cbn [wstate wtrace mutate _emit_event record].
  change (add_event (mkEvent a "in_progress" "info" (a +:+ " started."))
            (set_step_status a "in_progress" (set_current_agent (Some a) (wstate w))))
    with (worker_input a (wstate w)).
  destruct (wk (worker_input a (wstate w))) as [ws [r | m]] eqn:Ewk;
    cbn [completion added_warnings].
  - cbn [wstate wtrace mutate _emit_event record].
    set (s1 := fold_left _ ws (worker_input a (wstate w))).
    destruct (add_warnings_keeps ws (worker_input a (wstate w)))
      as (_ & _ & _ & _ & _ & A6 & _). fold s1 in A6.
    set (x := perf_elapsed env _).
    set (s2 := set_agent_timings (<[a := x]> (agent_timings s1)) s1).
    set (e2 := mkEvent a "completed" "info" (a +:+ " completed in " +:+ x +:+ "s.")).
    assert (K : events (add_event e2 (set_step_status a "completed" (_merge_result a r s2)))
                = (events (wstate w) ++ [mkEvent a "in_progress" "info" (a +:+ " started.")])
                    ++ [e2]).
    { cbn [add_event set_events set_step_status set_step_status_map events].
      rewrite merge_events. unfold s2. cbn [set_agent_timings events]. by rewrite A6. }
    exists (mkEvent a "in_progress" "info" (a +:+ " started.")), e2.
    destruct (a =? "delivery")%string; cbn [wstate wtrace mutate _emit_event record];
      rewrite ?refresh_events; (split; [exact K | done]).
  - right. split; [done |].
    destruct (add_warnings_keeps ws (worker_input a (wstate w)))
      as (_ & _ & _ & _ & _ & A6 & _).
    cbn [wstate wtrace mutate _emit_event record].
    cbn [add_event set_events set_step_status set_step_status_map events].
    change (add_event (mkEvent a "in_progress" "info" (a +:+ " started."))
              (set_step_status a "in_progress" (set_current_agent (Some a) (wstate w))))
      with (worker_input a (wstate w)).
    by rewrite A6.
Qed.

Lemma Grown_refl s : Grown s s.
Proof. split; [done |]. exists []. by rewrite app_nil_r. Qed.

Lemma Grown_trans s1 s2 s3 : Grown s1 s2 → Grown s2 s3 → Grown s1 s3.
Proof.
  intros (R1 & l1 & E1 & F1) (R2 & l2 & E2 & F2). split; [congruence |].
  exists (l1 ++ l2). rewrite E2, E1, <- app_assoc. split; [done |].
  by apply Forall_app.
Qed.

Lemma Grown_same s s' :
  retry_count s' = retry_count s → events s' = events s → Grown s s'.
Proof. intros R E. split; [done |]. exists []. by rewrite app_nil_r. Qed.

Lemma Grown_event e s : ev_status e ≠ "retry" → Grown s (add_event e s).
Proof. intros H. split; [done |]. exists [e]. split; [done |]. by constructor. Qed.

Lemma retry_announcements_quiet l x :
  Forall (λ e, ev_status e ≠ "retry") x →
  retry_announcements (l ++ x) = retry_announcements l.
Proof.
  induction x as [|e x IH] using rev_ind; intros F; [by rewrite app_nil_r |].
  apply Forall_app in F as [F1 F2]. rewrite app_assoc, retry_announcements_snoc.
  rewrite IH by done. apply Forall_cons in F2 as [F2 _].
  apply String.eqb_neq in F2. rewrite F2. by rewrite app_nil_r.
Qed.

Lemma Logged_grown s s' : Grown s s' → Logged s → Logged s'.
Proof.
  intros (R & l & E & F) [L1 L2 L3]. split.
  - rewrite E. destruct (events s); [done |]. done.
  - by rewrite R.
  - by rewrite E, R, retry_announcements_quiet.
Qed.

Lemma exec_grown env a w :
  match _execute_step env a w with
  | Ok w' => Grown (wstate w) (wstate w')
  | Raised _ w' => Grown (wstate w) (wstate w')
  end.
Proof.
  pose proof (exec_events env a w) as X. pose proof (exec_quiet env a w) as Q.
  destruct (_execute_step env a w) as [w1 | m w1].
  - destruct Q as (_ & _ & _ & _ & _ & Qc). apply ctl_fields in Qc as (_ & Qr & _).
    destruct X as (e1 & e2 & E & -> & _ & E2 & _).
    split; [done |]. eexists [_; _]. rewrite <- app_assoc in E. split; [exact E |].
    constructor; [done |]. constructor; [by rewrite E2 | done].
  - destruct Q as (ms & (_ & _ & _ & _ & _ & Qc) & _).
    apply ctl_fields in Qc as (_ & Qr & _).
    destruct X as [(_ & ->) | (_ & E)]; [apply Grown_refl |].
    split; [done |]. eexists [_; _]. rewrite <- app_assoc in E. split; [exact E |].
    constructor; [done |]. constructor; [done | done].
Qed.

Lemma sla_check_grown env w : Grown (wstate w) (wstate (sla_check env (save w))).
Proof.
  unfold sla_check, save. cbn [wstate record].
  destruct (is_breached env (wstate w)); [| apply Grown_refl].
  destruct (mem _ _); [apply Grown_refl |].
  unfold _emit_event. cbn [wstate mutate record].
  match goal with |- context [add_warning ?m ?s] =>
    destruct (add_warning_keeps m s) as (_ & _ & _ & _ & _ & A6 & _);
    pose proof (ctl_fields _ _ (ctl_add_warning m s)) as (_ & Er & _)
  end.
  eapply Grown_trans; [| by apply Grown_event]. by apply Grown_same.
Qed.

Lemma retry_attempt_state w :
  ∃ s1, events s1 = events (wstate w)
        ∧ retry_count s1 = retry_count (wstate w) + 1
        ∧ wstate (retry_attempt w)
          = add_event (mkEvent "execution" "retry" "warning"
                         ("Retrying translation, attempt "
                          +:+ str_of_Z (retry_count (wstate w) + 1))) s1.
Proof.
  set (m := "Retrying translation, attempt " +:+ str_of_Z (retry_count (wstate w) + 1)).
  set (s0 := set_retry_count (retry_count (wstate w) + 1) (wstate w)).
  exists (add_warning m s0).
  destruct (add_warning_keeps m s0) as (_ & _ & _ & _ & _ & A6 & _).
  pose proof (ctl_fields _ _ (ctl_add_warning m s0)) as (_ & Er & _).
  split; [exact A6 |]. split; [exact Er |]. reflexivity.
Qed.

Lemma retry_attempt_logged w : Logged (wstate w) → Logged (wstate (retry_attempt w)).
Proof.
  intros [L1 L2 L3]. destruct (retry_attempt_state w) as (s1 & E & R & ->).
  split.
  - cbn [add_event set_events events]. rewrite E.
    destruct (events (wstate w)); [done |]. done.
  - change (retry_count (add_event ?e ?s)) with (retry_count s). rewrite R. lia.
  - change (retry_count (add_event ?e ?s)) with (retry_count s). rewrite R.
    cbn [add_event set_events events]. rewrite E, retry_announcements_snoc.
    cbn [ev_status ev_message]. change ("retry" =? "retry")%string with true. cbv iota.
    replace (Z.to_nat (retry_count (wstate w) + 1))
      with (S (Z.to_nat (retry_count (wstate w)))) by lia.
    rewrite seq_S, fmap_app, L3. f_equal. simpl. unfold retry_message.
    do 3 f_equal. lia.
Qed.

Lemma entered_logged c p w : Logged (wstate w) → Logged (wstate (entered c p w)).
Proof.
  intros L. unfold entered. destruct (retry_gate c p (wstate w)).
  - apply retry_attempt_logged in L. revert L. by intros [L1 L2 L3].
  - revert L. by intros [L1 L2 L3].
Qed.

(** The event that closes a paused run. *)
Lemma iteration_logged env aa c p w :
  Logged (wstate w) →
  match iteration env aa c p w with
  | Continue _ _ w' => Logged (wstate w')
  | Return w' =>
      Logged (wstate w')
      ∧ last (events (wstate w'))
        = Some (mkEvent "approval" "paused" "warning" "Awaiting human approval")
      ∧ run_status (wstate w') = "paused"
  | Throw _ w' => Logged (wstate w')
  end.
Proof.
  intros L. destruct (c =? "pause_for_approval")%string eqn:Hp.
  - unfold iteration. rewrite Hp. destruct aa.
    + eapply Logged_grown; [| exact L]. split; [done |]. eexists [_]. split; [done |].
      by constructor.
    + split; [| split; [| done]].
      * eapply Logged_grown; [| exact L]. split; [done |]. eexists [_]. split; [done |].
        by constructor.
      * cbn. by rewrite last_snoc.
  - rewrite (iteration_eq _ _ _ _ _ Hp).
    apply (entered_logged c p) in L.
    pose proof (exec_grown env c (entered c p w)) as X.
    destruct (_execute_step env c (entered c p w)) as [w1 | m w1].
    + eapply Logged_grown; [apply sla_check_grown |]. by eapply Logged_grown.
    + by eapply Logged_grown.
Qed.

Lemma loop_logged env aa fuel :
  ∀ c p w, Logged (wstate w) →
    match loop fuel env aa c p w with
    | None => True
    | Some (Exit _ w') => Logged (wstate w')
    | Some (Returned w') =>
        Logged (wstate w')
        ∧ last (events (wstate w'))
          = Some (mkEvent "approval" "paused" "warning" "Awaiting human approval")
        ∧ run_status (wstate w') = "paused"
    | Some (Thrown _ w') => Logged (wstate w')
    end.
Proof.
  induction fuel as [|fuel IH]; intros c p w L; simpl.
  - by destruct (_ || _).
  - destruct (_ || _); [done |].
    pose proof (iteration_logged env aa c p w L) as X.
    destruct (iteration env aa c p w) as [c1 p1 w1 | w1 | m w1]; [by apply IH | done | done].
Qed.

Lemma begin_logged env req : Logged (wstate (begin env req)).
Proof. by split. Qed.

Lemma deliver_logged env c w :
  Logged (wstate w) →
  match deliver env c w with
  | Ok w' => Logged (wstate w')
  | Raised _ w' => Logged (wstate w')
  end.
Proof.
  intros L. unfold deliver. destruct (c =? "delivery")%string; [| done].
  set (w0 := assign_run_status _ _).
  assert (L0 : Logged (wstate w0)) by (revert L; by intros [L1 L2 L3]).
  pose proof (exec_grown env "delivery" w0) as X. clearbody w0.
  destruct (_execute_step env "delivery" w0) as [w1 | m w1]; by eapply Logged_grown.
Qed.

Lemma derive_not_retry s : _derive_run_status s ≠ "retry".
Proof.
  unfold _derive_run_status.
  repeat match goal with |- context [if ?b then _ else _] => destruct b end; done.
Qed.

Lemma finalize_events env w :
  events (wstate (finalize env w))
  = events (wstate w)
      ++ [mkEvent "workflow" (run_status (wstate (finalize env w))) "info"
            ("Workflow finished with status: " +:+ run_status (wstate (finalize env w)))]
  ∧ retry_count (wstate (finalize env w)) = retry_count (wstate w)
  ∧ run_status (wstate (finalize env w)) ≠ "retry".
Proof.
  split; [reflexivity |]. split; [reflexivity |]. apply derive_not_retry.
Qed.

Lemma add_error_events m s : events (add_error m s) = events s.
Proof. unfold add_error. by destruct (mem m (errors s)). Qed.

Lemma handler_events env m w :
  ∃ step,
    events (wstate (handler env m w))
    = events (wstate w) ++ [mkEvent step "failed" "error" m]
    ∧ retry_count (wstate (handler env m w)) = retry_count (wstate w)
    ∧ run_status (wstate (handler env m w)) = "failed".
Proof.
  unfold handler, _emit_event, save. cbn [wstate mutate record assign_run_status].
  match goal with |- context [add_error m ?s] =>
    destruct (add_error_spec m s) as (_ & _ & Er & _ & _ & El & _);
    pose proof (add_error_events m s) as Ee
  end.
  eexists. cbn [add_event set_events events retry_count run_status].
  rewrite Ee, Er, El. done.
Qed.

Lemma Logged_finalize env w : Logged (wstate w) → Logged (wstate (finalize env w)).
Proof.
  intros L. destruct (finalize_events env w) as (E & R & N).
  eapply Logged_grown; [| exact L]. split; [done |]. eexists [_]. split; [exact E |].
  by constructor.
Qed.

Lemma Logged_handler env m w : Logged (wstate w) → Logged (wstate (handler env m w)).
Proof.
  intros L. destruct (handler_events env m w) as (step & E & R & _).
  eapply Logged_grown; [| exact L]. split; [done |]. eexists [_]. split; [exact E |].
  by constructor.
Qed.

(** The log every run leaves, and the event that closes it. *)
Lemma orchestrate_log env req aa :
  ∃ w, orchestrate env req aa = Some w
       ∧ Logged (wstate w)
       ∧ ∃ e, last (events (wstate w)) = Some e
              ∧ ev_status e = run_status (wstate w)
              ∧ ((status (wstate w) = PAUSED
                  ∧ e = mkEvent "approval" "paused" "warning" "Awaiting human approval")
                 ∨ (status (wstate w) = COMPLETED
                    ∧ e = mkEvent "workflow" (run_status (wstate w)) "info"
                            ("Workflow finished with status: "
                             +:+ run_status (wstate w)))
                 ∨ (status (wstate w) = FAILED
                    ∧ errors (wstate w) = [ev_message e]
                    ∧ ev_level e = "error")).
Proof.
  destruct (orchestrate_summary env req aa) as (w0 & E0 & _).
  exists w0. split; [done |].
  revert E0. unfold orchestrate, orchestrate_fuel, try_block.
  pose proof (loop_logged env aa (enough_fuel req) "intake" None _ (begin_logged env req))
    as L.
  pose proof (loop_errors env aa (enough_fuel req) "intake" None (begin env req)) as E.
  assert (Eb : errors (wstate (begin env req)) = []) by done.
  destruct (loop _ env aa "intake" None (begin env req)) as [[c w | w | m w] |];
    [| | | done].
  - rewrite Eb in E.
    pose proof (deliver_logged env c w L) as D.
    pose proof (deliver_errors env c w) as De.
    destruct (deliver env c w) as [w' | m w']; intros [= <-].
    + split; [by apply Logged_finalize |].
      destruct (finalize_events env w') as (Ev & _ & _).
      destruct (finalize_fields env w') as (Ks & _).
      eexists. split; [rewrite Ev; apply last_snoc |]. split; [done |].
      right. left. done.
    + split; [by apply Logged_handler |].
      destruct (handler_events env m w') as (step & Ev & _ & Rs).
      destruct (handler_keeps env m w') as (_ & _ & _ & _ & Ks & Ke).
      eexists. split; [rewrite Ev; apply last_snoc |]. split; [done |].
      right. right. split; [done |]. split; [| done].
      rewrite Ke. unfold add_error. by rewrite De, E.
  - intros [= <-]. destruct L as (L & La & Rs). destruct E as [_ Es].
    split; [done |]. eexists. split; [exact La |]. split; [done |]. by left.
  - intros [= <-]. rewrite Eb in E.
    split; [by apply Logged_handler |].
    destruct (handler_events env m w) as (step & Ev & _ & Rs).
    destruct (handler_keeps env m w) as (_ & _ & _ & _ & Ks & Ke).
    eexists. split; [rewrite Ev; apply last_snoc |]. split; [done |].
    right. right. split; [done |]. split; [| done].
    rewrite Ke. unfold add_error. by rewrite E.
Qed.

(** The events with status [retry] in the log of a run are as many as
    [retry_count], and their messages number the attempts from 1, in
    order: "Retrying translation, attempt 1", "... attempt 2", up to
    [retry_count]. *)
Theorem retries_announced_in_order (env : Env) (req : Request) (aa : bool) :
  ∃ w, orchestrate env req aa = Some w
       ∧ retry_announcements (events (wstate w))
         = retry_message <$> seq 1 (Z.to_nat (retry_count (wstate w))).
Proof.
  destruct (orchestrate_log env req aa) as (w & E & [_ _ L] & _). by exists w.
Qed.

(** The log of every run opens with the event [workflow / started] and
    closes with an event whose status is the label of the run: the
    [approval / paused] warning of a paused run, the [workflow] event
    "Workflow finished with status: ..." of a completed one, or, for a
    failed run, an error event whose message is the one recorded error. *)
Theorem log_opens_and_closes (env : Env) (req : Request) (aa : bool) :
  ∃ w e, orchestrate env req aa = Some w
         ∧ head (events (wstate w))
           = Some (mkEvent "workflow" "started" "info" "Workflow started.")
         ∧ last (events (wstate w)) = Some e
         ∧ ev_status e = run_status (wstate w)
         ∧ ((status (wstate w) = PAUSED
             ∧ e = mkEvent "approval" "paused" "warning" "Awaiting human approval")
            ∨ (status (wstate w) = COMPLETED
               ∧ e = mkEvent "workflow" (run_status (wstate w)) "info"
                       ("Workflow finished with status: " +:+ run_status (wstate w)))
            ∨ (status (wstate w) = FAILED
               ∧ errors (wstate w) = [ev_message e]
               ∧ ev_level e = "error")).
Proof.
  destruct (orchestrate_log env req aa) as (w & E & [L _ _] & e & La & Hs & H).
  by exists w, e.
Qed.

(** ** The metadata of the delivered output *)

Lemma add_warning_final m s :
  final_output (add_warning m s) = final_output s
  ∧ final_metadata (add_warning m s) = final_metadata s
  ∧ translation_method (add_warning m s) = translation_method s.
Proof. unfold add_warning. by destruct (mem m (warnings s)). Qed.

Lemma add_warnings_final ms s :
  let s' := fold_left (λ s m, add_warning m s) ms s in
  final_output s' = final_output s
  ∧ final_metadata s' = final_metadata s
  ∧ translation_method s' = translation_method s.
Proof.
  revert s. induction ms as [|m ms IH]; intros s; simpl; [done |].
  destruct (IH (add_warning m s)) as (E1 & E2 & E3).
  destruct (add_warning_final m s) as (F1 & F2 & F3).
  simpl in *. by rewrite E1, E2, E3.
Qed.

Lemma merge_final a r s :
  (a =? "delivery")%string = false →
  final_output (_merge_result a r s) = final_output s
  ∧ final_metadata (_merge_result a r s) = final_metadata s.
Proof.
  intros H. unfold _merge_result. rewrite H.
  repeat match goal with
         | |- context [if ?b then _ else _] => destruct b
         | |- context [add_warning ?m ?s] =>
             let E1 := fresh in let E2 := fresh in
             destruct (add_warning_final m s) as (E1 & E2 & _); rewrite E1, E2
         end; done.
Qed.

Ltac fold_worker_input a w :=
  change (add_event (mkEvent a "in_progress" "info" (a +:+ " started."))
            (set_step_status a "in_progress" (set_current_agent (Some a) (wstate w))))
    with (worker_input a (wstate w)).

(** A step other than the delivery step leaves the delivered output
    alone. *)
Lemma exec_final env a w :
  (a =? "delivery")%string = false →
  match _execute_step env a w with
  | Ok w' =>
      final_output (wstate w') = final_output (wstate w)
      ∧ final_metadata (wstate w') = final_metadata (wstate w)
  | Raised _ w' =>
      final_output (wstate w') = final_output (wstate w)
      ∧ final_metadata (wstate w') = final_metadata (wstate w)
  end.
Proof.
  intros Ha. unfold _execute_step. destruct (worker_agents env !! a) as [wk |]; [| done].
  cbn [wstate wtrace mutate _emit_event record].
  change (add_event (mkEvent a "in_progress" "info" (a +:+ " started."))
            (set_step_status a "in_progress" (set_current_agent (Some a) (wstate w))))
    with (worker_input a (wstate w)).
  destruct (add_warnings_final
              (added_warnings (wk (worker_input a (wstate w))))
              (worker_input a (wstate w))) as (A1 & A2 & _).
  cbv zeta in A1, A2.
  destruct (completion (wk (worker_input a (wstate w)))) as [r | m].
  - rewrite Ha. cbn [wstate wtrace mutate _emit_event record].
    cbn [add_event set_events set_step_status set_step_status_map final_output
         final_metadata].
    match goal with |- context [_merge_result a r ?s] =>
      destruct (merge_final a r s Ha) as (M1 & M2); rewrite M1, M2
    end.
    cbn [set_agent_timings final_output final_metadata]. fold_worker_input a w.
    by rewrite A1, A2.
  - cbn [wstate wtrace mutate _emit_event record].
    cbn [add_event set_events set_step_status set_step_status_map final_output
         final_metadata].
    fold_worker_input a w. by rewrite A1, A2.
Qed.

Lemma entered_final c p w :
  final_output (wstate (entered c p w)) = final_output (wstate w)
  ∧ final_metadata (wstate (entered c p w)) = final_metadata (wstate w).
Proof.
  unfold entered. destruct (retry_gate c p (wstate w)); [| done].
  unfold retry_attempt, _emit_event. cbn [wstate wtrace mutate record].
  match goal with |- context [add_warning ?m ?s] =>
    destruct (add_warning_final m s) as (E1 & E2 & _)
  end.
  cbn [add_event set_events set_route_history final_output final_metadata].
  by rewrite E1, E2.
Qed.

Lemma sla_check_final env w :
  final_output (wstate (sla_check env (save w))) = final_output (wstate w)
  ∧ final_metadata (wstate (sla_check env (save w))) = final_metadata (wstate w).
Proof.
  unfold sla_check, save. cbn [wstate record].
  destruct (is_breached env (wstate w)); [| done].
  destruct (mem _ _); [done |].
  unfold _emit_event. cbn [wstate mutate record].
  match goal with |- context [add_warning ?m ?s] =>
    destruct (add_warning_final m s) as (E1 & E2 & _)
  end.
  cbn [add_event set_events final_output final_metadata]. by rewrite E1, E2.
Qed.

Lemma iteration_final env aa c p w :
  (c =? "delivery")%string = false →
  match iteration env aa c p w with
  | Continue _ _ w' =>
      final_output (wstate w') = final_output (wstate w)
      ∧ final_metadata (wstate w') = final_metadata (wstate w)
  | Return w' =>
      final_output (wstate w') = final_output (wstate w)
      ∧ final_metadata (wstate w') = final_metadata (wstate w)
  | Throw _ w' =>
      final_output (wstate w') = final_output (wstate w)
      ∧ final_metadata (wstate w') = final_metadata (wstate w)
  end.
Proof.
  intros Hd. destruct (c =? "pause_for_approval")%string eqn:Hp.
  - unfold iteration. rewrite Hp. by destruct aa.
  - rewrite (iteration_eq _ _ _ _ _ Hp).
    pose proof (exec_final env c (entered c p w) Hd) as X.
    destruct (entered_final c p w) as (E1 & E2).
    destruct (_execute_step env c (entered c p w)) as [w1 | m w1].
    + destruct (sla_check_final env w1) as (S1 & S2). destruct X as (X1 & X2).
      by rewrite S1, S2, X1, X2.
    + destruct X as (X1 & X2). by rewrite X1, X2.
Qed.

Lemma loop_final env aa fuel :
  ∀ c p w,
    match loop fuel env aa c p w with
    | None => True
    | Some (Exit _ w') =>
        final_output (wstate w') = final_output (wstate w)
        ∧ final_metadata (wstate w') = final_metadata (wstate w)
    | Some (Returned w') =>
        final_output (wstate w') = final_output (wstate w)
        ∧ final_metadata (wstate w') = final_metadata (wstate w)
    | Some (Thrown _ w') =>
        final_output (wstate w') = final_output (wstate w)
        ∧ final_metadata (wstate w') = final_metadata (wstate w)
    end.
Proof.
  induction fuel as [|fuel IH]; intros c p w; simpl.
  - by destruct (_ || _).
  - destruct (String.eqb_spec c "end") as [-> | N1]; [done |].
    destruct (String.eqb_spec c "delivery") as [-> | N2]; [done |]. simpl.
    apply String.eqb_neq in N2.
    pose proof (iteration_final env aa c p w N2) as X.
    destruct (iteration env aa c p w) as [c1 p1 w1 | w1 | m w1]; [| done | done].
    specialize (IH c1 p1 w1). destruct X as (X1 & X2).
    destruct (loop fuel env aa c1 p1 w1) as [[c2 w2 | w2 | m w2] |]; [| | | done];
      destruct IH as (I1 & I2); by rewrite I1, I2.
Qed.

Lemma derive_nonempty s : _derive_run_status s ≠ "".
Proof.
  unfold _derive_run_status.
  repeat match goal with |- context [if ?b then _ else _] => destruct b end; done.
Qed.

(** What [_refresh_delivery_metadata] leaves when there is an output to
    refresh: the metadata are those of the state it returns. *)
Lemma refresh_snapshot s :
  final_output s ≠ ∅ →
  let s' := _refresh_delivery_metadata s in
  final_metadata s'
  = Some (mkMetadata (step_status s') (events s') (warnings s') (errors s')
            (route_history s') (translation_method s'))
  ∧ final_output s' !! "status" = Some (VStr (run_status_or_status s'))
  ∧ final_output s' ≠ ∅.
Proof.
  intros H. cbv zeta. unfold _refresh_delivery_metadata.
  case_bool_decide; [done |]. split; [reflexivity |].
  cbn [set_final_output final_output]. rewrite lookup_insert_eq. split; [done |].
  apply insert_non_empty.
Qed.

Lemma refresh_nothing s :
  final_output s = ∅ → _refresh_delivery_metadata s = s.
Proof. intros H. unfold _refresh_delivery_metadata. by case_bool_decide. Qed.

(** The delivery step ends with the refresh of the metadata. *)
Lemma exec_delivery env w :
  match _execute_step env "delivery" w with
  | Ok w' =>
      ∃ s, wstate w' = _refresh_delivery_metadata s
           ∧ final_metadata s = final_metadata (wstate w)
  | Raised _ w' =>
      final_output (wstate w') = final_output (wstate w)
      ∧ final_metadata (wstate w') = final_metadata (wstate w)
  end.
Proof.
  unfold _execute_step. destruct (worker_agents env !! "delivery") as [wk |]; [| done].
  cbn [wstate wtrace mutate _emit_event record].
  fold_worker_input "delivery" w.
  destruct (add_warnings_final
              (added_warnings (wk (worker_input "delivery" (wstate w))))
              (worker_input "delivery" (wstate w))) as (A1 & A2 & _).
  cbv zeta in A1, A2.
  destruct (completion (wk (worker_input "delivery" (wstate w)))) as [r | m].
  - change ("delivery" =? "delivery")%string with true. cbv iota.
    cbn [wstate wtrace mutate _emit_event record].
    eexists. split; [reflexivity |].
    cbn [add_event set_events set_step_status set_step_status_map final_metadata].
    change (_merge_result "delivery" r ?s) with (set_final_output r s).
    cbn [set_final_output set_agent_timings final_metadata].
    fold_worker_input "delivery" w. by rewrite A2.
  - cbn [wstate wtrace mutate _emit_event record].
    cbn [add_event set_events set_step_status set_step_status_map final_output
         final_metadata].
    fold_worker_input "delivery" w. by rewrite A1, A2.
Qed.

(** What the delivery phase leaves when it set the metadata. *)
Lemma deliver_metadata env c w :
  final_output (wstate w) = ∅ →
  final_metadata (wstate w) = None →
  match deliver env c w with
  | Ok w' =>
      (final_output (wstate w') = ∅ ∧ final_metadata (wstate w') = None)
      ∨ (final_output (wstate w') ≠ ∅
         ∧ final_metadata (wstate w')
           = Some (mkMetadata (step_status (wstate w')) (events (wstate w'))
                     (warnings (wstate w')) (errors (wstate w'))
                     (route_history (wstate w')) (translation_method (wstate w')))
         ∧ final_output (wstate w') !! "status" = Some (VStr (run_status (wstate w')))
         ∧ route_history (wstate w') = route_history (wstate w) ++ ["delivery"]
         ∧ status (wstate w') = COMPLETED
         ∧ ∃ s0, run_status (wstate w') = _derive_run_status s0
                 ∧ status s0 = COMPLETED
                 ∧ errors (wstate w') = errors s0
                 ∧ retry_count (wstate w') = retry_count s0
                 ∧ qa_result (wstate w') = qa_result s0
                 ∧ judge_result (wstate w') = judge_result s0
                 ∧ (warnings s0 ≠ [] → warnings (wstate w') ≠ []))
  | Raised _ w' =>
      final_output (wstate w') = ∅ ∧ final_metadata (wstate w') = None
  end.
Proof.
  intros Ho Hn. unfold deliver.
  destruct (String.eqb_spec c "delivery") as [-> | _]; [| by left].
  cbn [wstate mutate].
  set (s0 := set_end_time _ (set_status COMPLETED
               (set_route_history (route_history (wstate w) ++ ["delivery"]) (wstate w)))).
  set (w0 := assign_run_status (_derive_run_status s0) _).
  assert (Es0 : wstate w0 = set_run_status (_derive_run_status s0) s0) by reflexivity.
  assert (F0 : final_metadata (wstate w0) = final_metadata (wstate w)) by reflexivity.
  assert (O0 : final_output (wstate w0) = final_output (wstate w)) by reflexivity.
  pose proof (exec_quiet env "delivery" w0) as Q.
  pose proof (exec_delivery env w0) as X.
  destruct (_execute_step env "delivery" w0) as [w1 | m w1] eqn:E.
  - apply exec_ok_merged in E as (wk & r & _ & _ & [_ M2 M3 _ M5 _]).
    destruct Q as (_ & _ & _ & _ & _ & Qc).
    apply ctl_fields in Qc as (Qh & Qr & _ & Qs & _ & Ql & _ & Qe).
    destruct X as (s & Ew & Fs).
    cbn [save record wstate].
    destruct (decide (final_output s = ∅)) as [He | Hne].
    + left. rewrite (refresh_nothing s He) in Ew. rewrite Ew. split; [done |].
      by rewrite Fs, F0.
    + right. destruct (refresh_snapshot s Hne) as (R1 & R2 & R3). cbv zeta in *.
      rewrite <- Ew in R1, R2, R3.
      assert (Rl : run_status_or_status (wstate w1) = run_status (wstate w1)).
      { unfold run_status_or_status. rewrite Ql, Es0. cbn [set_run_status run_status].
        pose proof (derive_nonempty s0) as Hd. apply String.eqb_neq in Hd.
        by rewrite Hd. }
      rewrite Rl in R2.
      split; [done |]. split; [done |]. split; [done |].
      split; [by rewrite Qh, Es0 |]. split; [by rewrite Qs, Es0 |].
      exists s0. rewrite Ql, Qe, Qr, M2, M3, Es0.
      repeat split; try done.
  - destruct X as (X1 & X2). by rewrite X1, X2, O0, F0.
Qed.

Lemma add_error_final m s :
  final_output (add_error m s) = final_output s
  ∧ final_metadata (add_error m s) = final_metadata s.
Proof. unfold add_error. by destruct (mem m (errors s)). Qed.

Lemma handler_final env m w :
  final_output (wstate (handler env m w)) = final_output (wstate w)
  ∧ final_metadata (wstate (handler env m w)) = final_metadata (wstate w).
Proof.
  destruct (handler_world env m w) as (e & t & Est & _). rewrite Est.
  cbn [add_event set_events final_output final_metadata].
  match goal with |- context [add_error m ?s] =>
    destruct (add_error_final m s) as (E1 & E2); by rewrite E1, E2
  end.
Qed.

(** The metadata stored with the delivered output are a snapshot taken
    when the delivery step completes. They are present exactly when the
    delivery worker returned a non-empty output, and then the run is
    completed, with a route that ends on [delivery]; the snapshot holds the
    route, the step marks, the warnings, the errors and the translation
    method of the returned record, and all its events but the last one,
    the closing event. The status written into the output is the label
    derived before the delivery step: the returned [run_status], unless
    the output says [completed] and the record
    [completed_with_warnings]. *)
Theorem delivered_metadata_snapshot (env : Env) (req : Request) (aa : bool) :
  ∃ w, orchestrate env req aa = Some w
       ∧ (is_Some (final_metadata (wstate w)) ↔ final_output (wstate w) ≠ ∅)
       ∧ ∀ md, final_metadata (wstate w) = Some md →
           status (wstate w) = COMPLETED
           ∧ last (route_history (wstate w)) = Some "delivery"
           ∧ m_route_history md = route_history (wstate w)
           ∧ m_step_status md = step_status (wstate w)
           ∧ m_warnings md = warnings (wstate w)
           ∧ m_errors md = errors (wstate w)
           ∧ m_translation_method md = translation_method (wstate w)
           ∧ (∃ e, events (wstate w) = m_events md ++ [e])
           ∧ ∃ l, final_output (wstate w) !! "status" = Some (VStr l)
                  ∧ (l = run_status (wstate w)
                     ∨ (l = "completed"
                        ∧ run_status (wstate w) = "completed_with_warnings")).
Proof.
  destruct (orchestrate_summary env req aa) as (w0 & E0 & _).
  exists w0. split; [done |].
  revert E0. unfold orchestrate, orchestrate_fuel, try_block.
  pose proof (loop_final env aa (enough_fuel req) "intake" None (begin env req)) as L.
  assert (Bo : final_output (wstate (begin env req)) = ∅) by done.
  assert (Bn : final_metadata (wstate (begin env req)) = None) by done.
  assert (Hnone : ∀ s, final_output s = ∅ → final_metadata s = None →
            (is_Some (final_metadata s) ↔ final_output s ≠ ∅)
            ∧ ∀ md, final_metadata s = Some md →
                status s = COMPLETED
                ∧ last (route_history s) = Some "delivery"
                ∧ m_route_history md = route_history s
                ∧ m_step_status md = step_status s
                ∧ m_warnings md = warnings s
                ∧ m_errors md = errors s
                ∧ m_translation_method md = translation_method s
                ∧ (∃ e, events s = m_events md ++ [e])
                ∧ ∃ l, final_output s !! "status" = Some (VStr l)
                       ∧ (l = run_status s
                          ∨ (l = "completed"
                             ∧ run_status s = "completed_with_warnings"))).
  { intros s Ho Hn. rewrite Ho, Hn. split; [| done].
    split; [by intros [? ?] | done]. }
  destruct (loop _ env aa "intake" None (begin env req)) as [[c w | w | m w] |];
    [| | | done].
  - destruct L as (L1 & L2). rewrite Bo in L1. rewrite Bn in L2.
    pose proof (deliver_metadata env c w L1 L2) as D.
    destruct (deliver env c w) as [w' | m w']; intros [= <-].
    + destruct (finalize_world env w') as (e & t & Est & _). cbv zeta in Est.
      set (s1 := set_end_time (Some t) (set_status COMPLETED (wstate w'))) in Est.
      destruct D as [(D1 & D2) | (D1 & D2 & D3 & D4 & D5 & s0 & Dl & Ds & De & Dr & Dq & Dj & Dw)].
      * apply Hnone; by rewrite Est.
      * assert (Fo : final_output (wstate (finalize env w')) = final_output (wstate w'))
          by (by rewrite Est).
        assert (Fm : final_metadata (wstate (finalize env w')) = final_metadata (wstate w'))
          by (by rewrite Est).
        pose proof (derive_again s0 s1 Ds eq_refl De Dr Dq Dj Dw) as Hd.
        rewrite <- Dl in Hd.
        assert (Fl : run_status (wstate (finalize env w')) = _derive_run_status s1)
          by (by rewrite Est).
        assert (Fs : status (wstate (finalize env w')) = COMPLETED) by (by rewrite Est).
        assert (Fh : route_history (wstate (finalize env w')) = route_history (wstate w'))
          by (by rewrite Est).
        assert (Fk : step_status (wstate (finalize env w')) = step_status (wstate w'))
          by (by rewrite Est).
        assert (Fw : warnings (wstate (finalize env w')) = warnings (wstate w'))
          by (by rewrite Est).
        assert (Fe : errors (wstate (finalize env w')) = errors (wstate w'))
          by (by rewrite Est).
        assert (Ft : translation_method (wstate (finalize env w'))
                     = translation_method (wstate w')) by (by rewrite Est).
        assert (Fv : events (wstate (finalize env w')) = events (wstate w') ++ [e])
          by (by rewrite Est).
        clear Est. rewrite Fo, Fm, D2, Fl, Fs, Fh, Fk, Fw, Fe, Ft, Fv.
        split; [split; [done | by eexists] |].
        intros md [= <-]. cbn [m_route_history m_step_status m_warnings m_errors
                                m_translation_method m_events].
        split; [done |]. split; [rewrite D4; apply last_snoc |].
        do 5 (split; [done |]). split; [by eexists |].
        exists (run_status (wstate w')). split; [exact D3 |].
        destruct Hd as [Hd | (H1 & H2 & _)]; [by left | by right].
    + destruct D as (D1 & D2). destruct (handler_final env m w') as (H1 & H2).
      apply Hnone; by rewrite ?H1, ?H2.
  - intros [= <-]. destruct L as (L1 & L2). apply Hnone; by rewrite ?L1, ?L2.
  - intros [= <-]. destruct L as (L1 & L2). destruct (handler_final env m w) as (H1 & H2).
    apply Hnone; by rewrite ?H1, ?H2, ?L1, ?L2.
Qed.

(** ** The intake worker *)
















Section Intake.

Variable env : Env.
Variable req : Request.
Hypothesis intake_worker : worker_agents env !! "intake" = Some IntakeAgent.execute.
Hypothesis has_text : strip (raw_text req) ≠ "".
Hypothesis languages_differ :
  strip (lower (source_language req)) ≠ strip (lower (target_language req)).
Hypothesis has_pages : 1 ≤ page_count req.




End Intake.






(** ** The planner *)

Lemma estimate_duration_cases word_count complexity :
  let base := Z.max 5 (word_count / 25) in
  PlannerAgent._estimate_duration word_count complexity
  = if (complexity =? "medium")%string then (3 * base) / 2
    else if (complexity =? "high")%string then 2 * base
    else base.
Proof.
  cbv zeta. unfold PlannerAgent._estimate_duration.
  destruct (String.eqb_spec complexity "low") as [-> | _]; [done |].
  destruct (complexity =? "medium")%string; [| done].
  apply Z.quot_div_nonneg; lia.
Qed.

Lemma duration_over_minute word_count complexity :
  60 < PlannerAgent._estimate_duration word_count complexity
  ↔ (if (complexity =? "high")%string then 775
     else if (complexity =? "medium")%string then 1025 else 1525) ≤ word_count.
Proof.
  rewrite estimate_duration_cases.
  destruct (String.eqb_spec complexity "medium") as [-> | _]; simpl.
  - split; intros H; Z.to_euclidean_division_equations; lia.
  - destruct (complexity =? "high")%string;
      split; intros H; Z.to_euclidean_division_equations; lia.
Qed.

(** The planner asks for approval for a document of more than 15 pages,
    and otherwise from a number of words on that depends on the
    complexity: 775 words when it is high, 1025 when it is medium, 1525
    when it is low or unknown. *)
Theorem approval_thresholds (state : WorkflowState) (word_count : Z)
    (complexity : string) :
  word_count < 2 ^ 52 →
  PlannerAgent.requires_approval state word_count complexity = true
  ↔ 15 < page_count (request state)
    ∨ (if (complexity =? "high")%string then 775
       else if (complexity =? "medium")%string then 1025 else 1525) ≤ word_count.
Proof.
  intros _. unfold PlannerAgent.requires_approval.
  rewrite orb_true_iff, !Z.ltb_lt, duration_over_minute. tauto.
Qed.

Lemma approval_thresholds_witness :
  PlannerAgent.requires_approval
    (WorkflowState_init (Sample.request 1 false)) 1100 "medium" = true
  ↔ 15 < 3 ∨ 1025 ≤ 1100.
Proof.
  apply (approval_thresholds (WorkflowState_init (Sample.request 1 false)) 1100 "medium").
  reflexivity.
Defined.

(** With the complexity the intake worker estimates from the same word
    and page counts, the planner asks for approval exactly for documents
    of more than 1200 words, of more than 15 pages, of more than 10 pages
    with at least 775 words, or of more than 3 pages with at least 1025
    words. *)
Theorem approval_after_intake (state : WorkflowState) (word_count : Z) :
  word_count < 2 ^ 52 →
  PlannerAgent.requires_approval state word_count
    (IntakeAgent._estimate_complexity word_count (page_count (request state))) = true
  ↔ 1200 < word_count
    ∨ 15 < page_count (request state)
    ∨ (10 < page_count (request state) ∧ 775 ≤ word_count)
    ∨ (3 < page_count (request state) ∧ 1025 ≤ word_count).
Proof.
  intros _. unfold PlannerAgent.requires_approval.
  rewrite orb_true_iff, !Z.ltb_lt, duration_over_minute.
  unfold IntakeAgent._estimate_complexity.
  destruct (Z.ltb_spec 10 (page_count (request state)));
    destruct (Z.ltb_spec 4000 word_count);
    destruct (Z.ltb_spec 3 (page_count (request state)));
    destruct (Z.ltb_spec 1200 word_count); simpl; lia.
Qed.

Lemma approval_after_intake_witness :
  PlannerAgent.requires_approval (WorkflowState_init (Sample.request 1 false)) 1300
    (IntakeAgent._estimate_complexity 1300 3) = true
  ↔ 1200 < 1300 ∨ 15 < 3 ∨ (10 < 3 ∧ 775 ≤ 1300) ∨ (3 < 3 ∧ 1025 ≤ 1300).
Proof.
  apply (approval_after_intake (WorkflowState_init (Sample.request 1 false)) 1300).
  reflexivity.
Defined.

(** From the planner's answer to the approval gate: once the supervisor
    has merged the result of [PlannerAgent.execute], [requires_approval]
    holds the planner's decision, [pause_reason] holds the planner's
    reason exactly when approval is required (it is left as it was
    otherwise), and the router sends the run to the approval gate exactly
    when approval is required and has not been granted or refused yet. *)
Theorem planner_gate_decision (state : WorkflowState) (word_count : Z)
    (complexity : string) :
  let b := PlannerAgent.requires_approval state word_count complexity in
  let s' :=
    _merge_result "planner" (PlannerAgent.execute word_count complexity state) state in
  requires_approval s' = VBool b
  ∧ pause_reason s'
    = (if b then VStr "Estimated runtime exceeds approval threshold."
       else pause_reason state)
  ∧ determine_next_step "planner" s'
    = (if b && bool_decide (approval_granted state = None)
       then "pause_for_approval" else "execution").
Proof.
  cbv zeta.
  set (b := PlannerAgent.requires_approval state word_count complexity).
  set (s' := _merge_result "planner" _ state).
  assert (E1 : requires_approval s' = VBool b).
  { unfold s', PlannerAgent.execute. fold b. by destruct b. }
  assert (E2 : approval_granted s' = approval_granted state).
  { unfold s', PlannerAgent.execute. fold b. by destruct b. }
  assert (E3 : pause_reason s'
               = if b then VStr "Estimated runtime exceeds approval threshold."
                 else pause_reason state).
  { unfold s', PlannerAgent.execute. fold b. by destruct b. }
  split; [done |]. split; [done |].
  by rewrite router_planner, E1, E2.
Qed.

(** ** The quality check's recommendations *)

Ltac nodup_strings :=
  repeat (apply NoDup_cons; split; [apply (bool_decide_unpack _); by vm_compute |]);
  apply NoDup_nil_2.

Lemma mem_nil_false x : mem x [] = false.
Proof. reflexivity. Qed.

Lemma mem_true_nonempty x l : mem x l = true → l ≠ [].
Proof. intros H ->. by rewrite mem_nil_false in H. Qed.

(** The quality check recommends nothing exactly when no check failed
    and the terminology check gave no warning; whenever a check failed, of
    whatever name, there is a recommendation. No recommendation is given
    twice. *)
Theorem recommendations_cover_failures (failed_checks warning_checks : list string) :
  (QAAgent._generate_recommendations failed_checks warning_checks = []
   ↔ failed_checks = [] ∧ ¬ In "terminology_check" warning_checks)
  ∧ NoDup (QAAgent._generate_recommendations failed_checks warning_checks).
Proof.
  unfold QAAgent._generate_recommendations.
  rewrite <- (mem_In "terminology_check" warning_checks).
  destruct (mem "terminology_check" warning_checks) eqn:Hw;
    destruct (mem "length_check" failed_checks) eqn:H1;
    destruct (mem "format_check" failed_checks) eqn:H2;
    destruct (mem "terminology_check" failed_checks) eqn:H3;
    destruct (mem "forced_failure" failed_checks) eqn:H4;
    cbn [app bool_decide decide_rel andb negb];
    try (split;
         [ split; [done | by intros [_ ?]]
         | nodup_strings ]);
    try (apply mem_true_nonempty in H1 as Hn);
    try (apply mem_true_nonempty in H2 as Hn);
    try (apply mem_true_nonempty in H3 as Hn);
    try (apply mem_true_nonempty in H4 as Hn);
    try (split;
         [ split; [done | by intros [? _]]
         | nodup_strings ]).
  destruct failed_checks as [|x l]; simpl.
  - split; [done | apply NoDup_nil_2].
  - split; [split; [done | by intros [? _]] |].
    nodup_strings.
Qed.

(** The forced first-pass failure: while [force_qa_fail_once] is set and
    no retry has been made, the quality check reports fail whatever its
    own checks found, and recommends the safety-drill retry; the
    safety-drill recommendation appears in no other case, unless a check
    of that name failed by itself. *)
Theorem forced_failure_is_explained (own warning_checks : list string)
    (score_reached : bool) (state : WorkflowState) :
  let forced := force_qa_fail_once (request state) && (retry_count state =? 0) in
  let recommendations :=
    QAAgent._generate_recommendations (QAAgent.failed_checks own state) warning_checks in
  (forced = true → QAAgent_status own score_reached state = FAIL)
  ∧ (In "Retry triggered as part of QA safety drill." recommendations
     ↔ forced = true ∨ In "forced_failure" own)
  ∧ (QAAgent_status own score_reached state = PASS
     ↔ QAAgent.failed_checks own state = [] ∧ score_reached = true).
Proof.
  cbv zeta. unfold QAAgent_status, QAAgent.failed_checks.
  set (forced := force_qa_fail_once (request state) && (retry_count state =? 0)).
  set (f := if forced then own ++ ["forced_failure"] else own).
  assert (Hf : mem "forced_failure" f = true ↔ forced = true ∨ In "forced_failure" own).
  { unfold f. destruct forced.
    - rewrite mem_In. split; [by left |]. intros _. apply in_or_app. right. by left.
    - rewrite mem_In. split; [by right | by intros [? | ?]]. }
  split; [| split].
  - intros Hforced. unfold f. rewrite Hforced.
    rewrite bool_decide_eq_false_2; [done |]. intros E. by apply app_eq_nil in E as [_ ?].
  - rewrite <- Hf. unfold QAAgent._generate_recommendations.
    destruct (mem "forced_failure" f) eqn:H4.
    + split; [done |]. intros _.
      destruct (mem "length_check" f), (mem "format_check" f),
        (mem "terminology_check" f), (mem "terminology_check" warning_checks);
        cbn [app bool_decide decide_rel andb negb]; simpl; tauto.
    + split; [| done].
      destruct (mem "length_check" f), (mem "format_check" f),
        (mem "terminology_check" f), (mem "terminology_check" warning_checks);
        cbn [app bool_decide decide_rel andb negb];
        try (intros H; repeat (destruct H as [H | H]; [done |]); by destruct H).
      destruct (bool_decide (f = [])); simpl; [by intros [] |].
      intros [H | []]. done.
  - destruct (bool_decide_reflect (f = [])) as [E | E]; simpl.
    + destruct score_reached; split; try done. by intros [_ ?].
    + split; [done | by intros [? _]].
Qed.

(** ** The judge's verdict *)



(** ** The proxy variables around a direct model call *)

Lemma dict_set_fresh key value saved :
  ¬ In key saved.*1 →
  ExecutionAgent.dict_set key value saved = saved ++ [(key, value)].
Proof.
  induction saved as [|[k x] r IH]; simpl; intros H; [done |].
  destruct (String.eqb_spec k key) as [-> | Hne].
  - destruct H. by left.
  - rewrite IH; [done |]. intros Hin. apply H. by right.
Qed.

Lemma restore_lookup_ne saved environ key :
  ¬ In key saved.*1 →
  ExecutionAgent._restore_proxy_env saved environ !! key = environ !! key.
Proof.
  unfold ExecutionAgent._restore_proxy_env.
  revert environ. induction saved as [|[k x] r IH]; intros environ H; [done |].
  cbn [fold_left]. unfold ExecutionAgent.Environ in *. rewrite IH.
  - apply lookup_insert_ne. intros ->. apply H. by left.
  - intros Hin. apply H. by right.
Qed.

Lemma restore_delete saved environ key :
  ¬ In key saved.*1 →
  ExecutionAgent._restore_proxy_env saved (delete key environ)
  = delete key (ExecutionAgent._restore_proxy_env saved environ).
Proof.
  unfold ExecutionAgent._restore_proxy_env.
  revert environ. induction saved as [|[k x] r IH]; intros environ H; [done |].
  cbn [fold_left]. unfold ExecutionAgent.Environ in *. rewrite insert_delete_ne.
  - apply IH. intros Hin. apply H. by right.
  - intros ->. apply H. by left.
Qed.

Lemma restore_snoc saved key value environ :
  ExecutionAgent._restore_proxy_env (saved ++ [(key, value)]) environ
  = <[key := value]> (ExecutionAgent._restore_proxy_env saved environ).
Proof. unfold ExecutionAgent._restore_proxy_env. by rewrite fold_left_app. Qed.

(** The loop of [_strip_broken_proxy_env], from any point on. *)
Lemma strip_loop keys :
  ∀ saved environ original,
    ExecutionAgent._restore_proxy_env saved environ = original →
    (∀ k, In k saved.*1 → environ !! k = None) →
    ∀ saved' environ',
      fold_left
        (λ '(saved, environ) key,
           match environ !! key with
           | Some value => (ExecutionAgent.dict_set key value saved, delete key environ)
           | None => (saved, environ)
           end)
        keys (saved, environ) = (saved', environ') →
      ExecutionAgent._restore_proxy_env saved' environ' = original
      ∧ (∀ k, In k keys → environ' !! k = None)
      ∧ (∀ k, environ !! k = None → environ' !! k = None)
      ∧ (∀ k, ¬ In k keys → environ' !! k = environ !! k).
Proof.
  induction keys as [|key keys IH]; intros saved environ original Hr Hs saved' environ' E;
    unfold ExecutionAgent.Environ in *.
  - simpl in E. injection E as <- <-. done.
  - simpl in E. destruct (environ !! key) as [value |] eqn:Hk.
    + assert (Hfresh : ¬ In key saved.*1).
      { intros Hin. apply Hs in Hin. by rewrite Hin in Hk. }
      rewrite (dict_set_fresh _ _ _ Hfresh) in E.
      destruct (IH (saved ++ [(key, value)]) (delete key environ) original)
        with (saved' := saved') (environ' := environ') as (I1 & I2 & I3 & I4).
      * rewrite restore_snoc, restore_delete by done. rewrite Hr.
        apply insert_delete_id. by rewrite <- Hr, restore_lookup_ne.
      * intros k Hin. rewrite fmap_app in Hin. apply in_app_or in Hin as [Hin | [<- | []]].
        -- destruct (decide (key = k)) as [<- | Hne]; [apply lookup_delete_eq |].
           rewrite lookup_delete_ne by done. by apply Hs.
        -- apply lookup_delete_eq.
      * exact E.
      * split; [done |]. split; [| split].
        -- intros k [<- | Hin]; [apply I3, lookup_delete_eq | by apply I2].
        -- intros k Hn. apply I3.
           destruct (decide (key = k)) as [<- | Hne]; [apply lookup_delete_eq |].
           by rewrite lookup_delete_ne.
        -- intros k Hn. rewrite I4.
           ++ apply lookup_delete_ne. intros ->. apply Hn. by left.
           ++ intros Hin. apply Hn. by right.
    + destruct (IH saved environ original Hr Hs saved' environ' E) as (I1 & I2 & I3 & I4).
      split; [done |]. split; [| split; [done |]].
      * intros k [<- | Hin]; [by apply I3 | by apply I2].
      * intros k Hn. apply I4. intros Hin. apply Hn. by right.
Qed.

(** Stripping and restoring the proxy variables is a round trip: whatever
    the keys passed (repeated or absent ones included), after
    [_strip_broken_proxy_env] none of them is set in the environment and
    every other variable is as before, and [_restore_proxy_env] on the saved
    values brings the environment back exactly. *)
Theorem proxy_env_round_trip (keys : list string) (environ : ExecutionAgent.Environ) :
  let r := ExecutionAgent._strip_broken_proxy_env keys environ in
  ExecutionAgent._restore_proxy_env r.1 r.2 = environ
  ∧ (∀ k, In k keys → r.2 !! k = None)
  ∧ (∀ k, ¬ In k keys → r.2 !! k = environ !! k).
Proof.
  cbv zeta.
  destruct (strip_loop keys [] environ environ eq_refl (λ k (H : In k []), match H with end)
              (ExecutionAgent._strip_broken_proxy_env keys environ).1
              (ExecutionAgent._strip_broken_proxy_env keys environ).2)
    as (I1 & I2 & _ & I4); [| done].
  apply surjective_pairing.
Qed.

Lemma detect_loop (P : string → bool) keys :
  ∀ broken,
    fold_left (λ broken key, if P key then broken ++ [key] else broken) keys broken
    = broken ++ List.filter P keys.
Proof.
  induction keys as [|key keys IH]; intros broken; simpl; [by rewrite app_nil_r |].
  rewrite IH. destruct (P key); [by rewrite <- app_assoc | done].
Qed.

Lemma detect_spec environ k :
  In k (ExecutionAgent._detect_broken_proxy_keys environ)
  ↔ In k ExecutionAgent.proxy_keys
    ∧ contains "127.0.0.1:9" (default "" (environ !! k)) = true.
Proof.
  unfold ExecutionAgent._detect_broken_proxy_keys.
  rewrite (detect_loop (λ key, contains "127.0.0.1:9" (default "" (environ !! key)))).
  rewrite app_nil_l.
  apply (filter_In (λ key, contains "127.0.0.1:9" (default "" (environ !! key)))).
Qed.

(** Around a direct model call: once the keys found by
    [_detect_broken_proxy_keys] are stripped, none of the six proxy
    variables points at the dead local proxy [127.0.0.1:9]; a variable that
    did not point there, proxy variable or not, keeps its value; and
    restoring brings the environment back. *)
Theorem broken_proxies_lifted (environ : ExecutionAgent.Environ) :
  let keys := ExecutionAgent._detect_broken_proxy_keys environ in
  let r := ExecutionAgent._strip_broken_proxy_env keys environ in
  (∀ k, In k ExecutionAgent.proxy_keys →
        contains "127.0.0.1:9" (default "" (r.2 !! k)) = false)
  ∧ (∀ k, contains "127.0.0.1:9" (default "" (environ !! k)) = false →
          r.2 !! k = environ !! k)
  ∧ (∀ k, ¬ In k ExecutionAgent.proxy_keys → r.2 !! k = environ !! k)
  ∧ ExecutionAgent._restore_proxy_env r.1 r.2 = environ.
Proof.
  cbv zeta.
  destruct (proxy_env_round_trip (ExecutionAgent._detect_broken_proxy_keys environ) environ)
    as (R1 & R2 & R3).
  cbv zeta in *.
  set (r := ExecutionAgent._strip_broken_proxy_env _ environ) in *.
  split; [| split; [| split; [| done]]].
  - intros k Hk.
    destruct (contains "127.0.0.1:9" (default "" (environ !! k))) eqn:Hc.
    + rewrite R2; [done |]. by apply detect_spec.
    + rewrite R3; [done |]. rewrite detect_spec. intros [_ ?]. congruence.
  - intros k Hc. apply R3. rewrite detect_spec. intros [_ ?]. congruence.
  - intros k Hk. apply R3. rewrite detect_spec. by intros [? _].
Qed.

(** ** The mock translation path *)

Ltac later_chain :=
  repeat first
    [ apply Later_refl
    | eapply Later_trans; [| apply Later_add_event]
    | eapply Later_trans; [| apply Later_refresh]
    | eapply Later_trans; [| apply Later_merge_result]
    | eapply Later_trans; [| apply Later_add_warnings]
    | eapply Later_trans; [| apply Later_add_warning]
    | match goal with
      | |- Later _ (set_step_status _ _ ?x) => apply (Later_trans _ x); [| by split]
      | |- Later _ (set_agent_timings _ ?x) => apply (Later_trans _ x); [| by split]
      | |- Later _ (set_current_agent _ ?x) => apply (Later_trans _ x); [| by split]
      | |- Later _ (set_retry_count _ ?x) => apply (Later_trans _ x); [| split; simpl; (done || lia)]
      end ].

Lemma exec_later env a w :
  match _execute_step env a w with
  | Ok w' => Later (wstate w) (wstate w')
  | Raised _ w' => Later (wstate w) (wstate w')
  end.
Proof.
  unfold _execute_step. destruct (worker_agents env !! a) as [wk |]; [| apply Later_refl].
  cbn [wstate wtrace mutate _emit_event record].
  destruct (wk _) as [ws [r | m]]; cbn [completion added_warnings].
  - destruct (a =? "delivery")%string; cbn [wstate wtrace mutate _emit_event record];
      later_chain.
  - cbn [wstate wtrace mutate _emit_event record]. later_chain.
Qed.

Lemma sla_check_later env w : Later (wstate w) (wstate (sla_check env (save w))).
Proof.
  unfold sla_check, save. cbn [wstate record].
  destruct (is_breached env (wstate w)); [| apply Later_refl].
  destruct (mem _ _); [apply Later_refl |].
  unfold _emit_event. cbn [wstate mutate record]. later_chain.
Qed.

Lemma Later_warning s s' m : Later s s' → In m (warnings s) → In m (warnings s').
Proof.
  intros [_ _ [l ->] _ _ _ _] H. apply in_or_app. by left.
Qed.

Lemma add_warning_In m s : In m (warnings (add_warning m s)).
Proof.
  unfold add_warning. destruct (mem m (warnings s)) eqn:E.
  - by apply mem_In.
  - simpl. apply in_or_app. right. by left.
Qed.

Lemma occurrences_In x h : (0 < occurrences x h)%nat → In x h.
Proof.
  unfold occurrences. induction h as [|y h IH]; simpl; [lia |].
  rewrite filter_cons. destruct (decide ((y =? x)%string = true)) as [E | E].
  - intros _. left. by apply String.eqb_eq.
  - intros H. right. by apply IH.
Qed.

(** The execution step, when real translation was requested: a result
    that names the mock method leaves the warning. *)
Lemma exec_mock env w :
  requested_real_llm (request (wstate w)) = true →
  match _execute_step env "execution" w with
  | Ok w' =>
      ∃ (worker : Worker) r,
        worker_agents env !! "execution" = Some worker
        ∧ completion (worker (worker_input "execution" (wstate w))) = Returns r
        ∧ (eq_str (get r "method" VNone) "mock" = true →
           In "Mock translation path used." (warnings (wstate w')))
  | Raised _ _ => True
  end.
Proof.
  intros Hq. unfold _execute_step.
  destruct (worker_agents env !! "execution") as [wk |]; [| done].
  cbn [wstate wtrace mutate _emit_event record].
  fold_worker_input "execution" w.
  pose proof (ctl_fields _ _ (ctl_add_warnings
                (added_warnings (wk (worker_input "execution" (wstate w))))
                (worker_input "execution" (wstate w)))) as (_ & _ & Eq & _).
  destruct (completion (wk (worker_input "execution" (wstate w)))) as [r | m] eqn:Ec;
    [| done].
  exists wk, r. split; [done |]. split; [done |]. intros Hm.
  change ("execution" =? "delivery")%string with false. cbv iota.
  cbn [wstate wtrace mutate _emit_event record].
  cbn [add_event set_events set_step_status set_step_status_map warnings].
  match goal with |- In _ (warnings (_merge_result "execution" r ?s2)) =>
    change (_merge_result "execution" r s2)
      with (let st := set_translation_method (get r "method" VNone)
                        (set_translation_output (get r "translation" (VStr "")) s2) in
            if eq_str (translation_method st) "mock" && requested_real_llm (request st)
            then add_warning "Mock translation path used." st else st);
    assert (Hr : request s2 = request (wstate w))
  end.
  { cbn [set_agent_timings request]. fold_worker_input "execution" w. by rewrite Eq. }
  cbv zeta. cbn [set_translation_method set_translation_output translation_method request].
  cbn [set_agent_timings request] in Hr. fold_worker_input "execution" w.
  change (add_event (mkEvent "execution" "in_progress" "info" ("execution" +:+ " started."))
            (set_step_status "execution" "in_progress"
               (set_current_agent (Some "execution") (wstate w))))
    with (worker_input "execution" (wstate w)) in Hr.
  rewrite Hm. cbn [set_agent_timings request]. rewrite Hr, Hq. simpl.
  apply add_warning_In.
Qed.

Section Mock.

Variable env : Env.
Variable execution : Worker.
Variable req : Request.
Hypothesis execution_worker : worker_agents env !! "execution" = Some execution.
Hypothesis real_requested : requested_real_llm req = true.
Hypothesis mock_method :
  ∀ s r, request s = req → completion (execution s) = Returns r →
         eq_str (get r "method" VNone) "mock" = true.

(** The run is on the request, and once the execution step is on the
    route the warning is recorded. *)
Let flagged (w : World) : Prop :=
  request (wstate w) = req
  ∧ (In "execution" (route_history (wstate w)) →
     In "Mock translation path used." (warnings (wstate w))).

Lemma iteration_flagged aa c p w :
  flagged w →
  match iteration env aa c p w with
  | Continue _ _ w' => flagged w'
  | Return w' => flagged w'
  | Throw _ _ => True
  end.
Proof.
  intros [Hq Hf]. destruct (c =? "pause_for_approval")%string eqn:Hp.
  - unfold iteration. rewrite Hp. by destruct aa.
  - rewrite (iteration_eq _ _ _ _ _ Hp).
    destruct (entered_fields c p w) as (Eh & _ & Eq & _). cbv zeta in Eh, Eq.
    assert (El : Later (wstate w) (wstate (entered c p w))).
    { unfold entered. destruct (retry_gate c p (wstate w)).
      - unfold retry_attempt, _emit_event. cbn [wstate wtrace mutate record].
        match goal with |- Later _ (set_route_history _ ?x) =>
          apply (Later_trans _ x); [| split; simpl; try done; by apply prefix_app_r]
        end.
        later_chain.
      - cbn [wstate mutate]. split; simpl; try done. by apply prefix_app_r. }
    pose proof (exec_later env c (entered c p w)) as L.
    pose proof (exec_quiet env c (entered c p w)) as Q.
    pose proof (exec_mock env (entered c p w)) as M.
    destruct (String.eqb_spec c "execution") as [-> | Hne].
    + destruct (_execute_step env "execution" (entered "execution" p w)) as [w1 | m w1];
        [| done].
      destruct Q as (_ & _ & _ & _ & _ & Qc). apply ctl_fields in Qc as (_ & _ & Qq & _).
      destruct (sla_check_keeps env w1) as (Sc & _). cbv zeta in Sc.
      apply ctl_fields in Sc as (_ & _ & Sq & _).
      split; [by rewrite Sq, Qq, Eq |]. intros _.
      apply (Later_warning (wstate w1)); [apply sla_check_later |].
      destruct M as (wk & r & Hw & Hc & Hm); [by rewrite Eq, Hq |].
      unfold Worker in *. rewrite execution_worker in Hw. injection Hw as <-.
      apply Hm. eapply mock_method; [| exact Hc].
      rewrite worker_input_request. by rewrite Eq.
    + destruct (_execute_step env c (entered c p w)) as [w1 | m w1]; [| done].
      destruct Q as (_ & _ & _ & _ & _ & Qc).
      apply ctl_fields in Qc as (Qh & _ & Qq & _).
      destruct (sla_check_keeps env w1) as (Sc & _). cbv zeta in Sc.
      apply ctl_fields in Sc as (Sh & _ & Sq & _).
      split; [by rewrite Sq, Qq, Eq |]. rewrite Sh, Qh, Eh. intros Hin.
      apply in_app_or in Hin as [Hin | [Hin | []]]; [| by subst c].
      apply (Later_warning (wstate w)); [| by apply Hf].
      eapply Later_trans; [exact El |]. eapply Later_trans; [exact L |].
      apply sla_check_later.
Qed.

Lemma loop_flagged aa fuel :
  ∀ c p w, flagged w →
    match loop fuel env aa c p w with
    | Some (Exit _ w') => flagged w'
    | Some (Returned w') => flagged w'
    | _ => True
    end.
Proof.
  induction fuel as [|fuel IH]; intros c p w F; simpl.
  - by destruct (_ || _).
  - destruct (_ || _); [done |].
    pose proof (iteration_flagged aa c p w F) as X.
    destruct (iteration env aa c p w) as [c1 p1 w1 | w1 | m w1]; [by apply IH | done | done].
Qed.

End Mock.

Lemma derive_with_warnings s :
  status s = COMPLETED → warnings s ≠ [] → _derive_run_status s = "completed_with_warnings".
Proof.
  intros Es Hw. unfold _derive_run_status. rewrite Es. simpl.
  rewrite (bool_decide_eq_false_2 (warnings s = [])) by done. simpl.
  by rewrite orb_true_r.
Qed.

(** A silent fallback is always flagged. When real translation was
    requested and the execution worker, on the states of the request,
    can only answer with the mock method, every completed run records the
    warning "Mock translation path used." and is labelled
    [completed_with_warnings]. *)
Theorem mock_fallback_is_flagged (env : Env) (req : Request) (aa : bool)
    (execution : Worker) :
  requested_real_llm req = true →
  worker_agents env !! "execution" = Some execution →
  (∀ s r, request s = req → completion (execution s) = Returns r →
          eq_str (get r "method" VNone) "mock" = true) →
  ∃ w, orchestrate env req aa = Some w
       ∧ (status (wstate w) = COMPLETED →
          In "Mock translation path used." (warnings (wstate w))
          ∧ run_status (wstate w) = "completed_with_warnings").
Proof.
  intros Hq He Hm.
  unfold orchestrate, orchestrate_fuel, try_block.
  destruct (loop_inv env aa (enough_fuel req) "intake" None (begin env req)
              (begin_inv env req) (begin_potential env req)) as (r & El & Hr).
  pose proof (loop_flagged env execution req He Hq Hm aa (enough_fuel req) "intake" None
                (begin env req)) as F.
  rewrite El in F. rewrite El.
  assert (F0 : request (wstate (begin env req)) = req
               ∧ (In "execution" (route_history (wstate (begin env req))) →
                  In "Mock translation path used." (warnings (wstate (begin env req))))).
  { destruct (begin_fields env req) as (Bh & _ & Bq & _). cbv zeta in Bh, Bq.
    rewrite Bh. split; [exact Bq | by intros []]. }
  specialize (F F0).
  destruct r as [c w | w | m w].
  - destruct Hr as [-> HI]. destruct F as [_ Ff].
    assert (Hin : In "Mock translation path used." (warnings (wstate w))).
    { apply Ff. apply occurrences_In.
      destruct HI as [[_ Gn _] _ _ _ Po].
      inversion Po as [| | | | | | |s Hro]; subst.
      destruct Hro as [_ _ Hen]. destruct (sound_retries _ Gn) as [H0 _]. lia. }
    pose proof (exec_later env "delivery") as L.
    unfold deliver. change ("delivery" =? "delivery")%string with true. cbv iota.
    set (w0 := assign_run_status _ _).
    assert (E0 : warnings (wstate w0) = warnings (wstate w)) by reflexivity.
    specialize (L w0).
    destruct (_execute_step env "delivery" w0) as [w1 | m w1].
    + eexists. split; [reflexivity |]. intros _.
      assert (H1 : In "Mock translation path used." (warnings (wstate w1))).
      { apply (Later_warning (wstate w0)); [done | by rewrite E0]. }
      destruct (finalize_world env (save w1)) as (e & t & Est & _). cbv zeta in Est.
      rewrite Est.
      cbn [add_event set_events set_run_status warnings run_status
           set_end_time set_status save record wstate].
      split; [done |]. apply derive_with_warnings; [done |].
      cbn [set_end_time set_status warnings]. intros E. by rewrite E in H1.
    + eexists. split; [reflexivity |].
      destruct (handler_keeps env m w1) as (_ & _ & _ & _ & Ks & _).
      rewrite Ks. done.
  - eexists. split; [reflexivity |]. destruct Hr as [_ St _ _ _ _ _]. by rewrite St.
  - eexists. split; [reflexivity |].
    destruct (handler_keeps env m w) as (_ & _ & _ & _ & Ks & _).
    rewrite Ks. done.
Qed.

Lemma mock_fallback_is_flagged_witness :
  ∃ w, orchestrate Sample.plain
         (mkRequest "en" "es" "legal" 3 "LEGAL SERVICES AGREEMENT" 1 true false true [])
         true = Some w
       ∧ (status (wstate w) = COMPLETED →
          In "Mock translation path used." (warnings (wstate w))
          ∧ run_status (wstate w) = "completed_with_warnings").
Proof.
  apply (mock_fallback_is_flagged Sample.plain _ true Sample.execution).
  - reflexivity.
  - reflexivity.
  - intros s r _ [= <-]. reflexivity.
Defined.

(** ** Runs that an exception outside [Exception] can leave *)

Lemma env_of_lookup E a : worker_agents (env_of E) !! a = caught <$> agents E !! a.
Proof. unfold env_of. simpl. by rewrite lookup_fmap. Qed.

(** A step of the supervisor either does what it does when every raise is
    an [Exception], or its worker was interrupted. *)
Lemma exec_tame E a w :
  match Interruptible._execute_step E a w with
  | Within r => _execute_step (env_of E) a w = r
  | Escaped m _ => Interrupts E a (worker_input a (wstate w)) m
  end.
Proof.
  unfold Interruptible._execute_step, _execute_step. rewrite env_of_lookup.
  destruct (agents E !! a) as [agent |] eqn:Ea; [| done].
  cbn [fmap option_fmap option_map]. cbv zeta. unfold caught.
  cbn [wstate wtrace mutate _emit_event record].
  fold_worker_input a w.
  destruct (agent (worker_input a (wstate w))) as [o | added m] eqn:Ec.
  - destruct (completion o); reflexivity.
  - by exists agent, added.
Qed.

Lemma iteration_tame E aa c p w :
  match Interruptible.iteration E aa c p w with
  | Within r => iteration (env_of E) aa c p w = r
  | Escaped m _ => ∃ a s, Interrupts E a s m
  end.
Proof.
  unfold Interruptible.iteration, iteration.
  destruct (c =? "pause_for_approval")%string; [by destruct aa |].
  cbv zeta.
  match goal with |- context [Interruptible._execute_step E c ?w0] =>
    pose proof (exec_tame E c w0) as H;
    destruct (Interruptible._execute_step E c w0) as [r | m w']
  end.
  - rewrite H. by destruct r.
  - eauto.
Qed.

Lemma loop_tame E aa fuel :
  ∀ c p w,
    match Interruptible.loop fuel E aa c p w with
    | None => loop fuel (env_of E) aa c p w = None
    | Some (Within r) => loop fuel (env_of E) aa c p w = Some r
    | Some (Escaped m _) => ∃ a s, Interrupts E a s m
    end.
Proof.
  induction fuel as [|fuel IH]; intros c p w; simpl.
  - by destruct (_ || _).
  - destruct (_ || _); [done |].
    pose proof (iteration_tame E aa c p w) as H.
    destruct (Interruptible.iteration E aa c p w) as [r | m w']; [| done].
    rewrite H. destruct r as [c' p' w' | w' | m w']; [apply IH | done | done].
Qed.

Lemma deliver_tame E c w :
  match Interruptible.deliver E c w with
  | Within r => deliver (env_of E) c w = r
  | Escaped m _ => ∃ a s, Interrupts E a s m
  end.
Proof.
  unfold Interruptible.deliver, deliver.
  destruct (c =? "delivery")%string; [| done]. cbv zeta.
  match goal with |- context [Interruptible._execute_step E "delivery" ?w0] =>
    pose proof (exec_tame E "delivery" w0) as H;
    destruct (Interruptible._execute_step E "delivery" w0) as [r | m w']
  end.
  - rewrite H. by destruct r.
  - eauto.
Qed.

(** A run returns what it returns when every raise is an [Exception],
    unless a worker was interrupted. *)
Lemma orchestrate_fuel_tame fuel E req aa :
  match Interruptible.orchestrate_fuel fuel E req aa with
  | None => orchestrate_fuel fuel (env_of E) req aa = None
  | Some (Within w) => orchestrate_fuel fuel (env_of E) req aa = Some w
  | Some (Escaped m _) => ∃ a s, Interrupts E a s m
  end.
Proof.
  unfold Interruptible.orchestrate_fuel, orchestrate_fuel,
    Interruptible.try_block, try_block.
  pose proof (loop_tame E aa fuel "intake" None (begin (env_of E) req)) as H.
  destruct (Interruptible.loop fuel E aa "intake" None (begin (env_of E) req))
    as [[r | m w'] |]; [| done | by rewrite H].
  rewrite H. destruct r as [c w' | w' | m w']; [| done | done].
  pose proof (deliver_tame E c w') as D.
  destruct (Interruptible.deliver E c w') as [r | m w'']; [| done].
  rewrite D. by destruct r.
Qed.



Lemma env_of_uninterrupted env : env_of (uninterrupted env) = env.
Proof.
  destruct env as [ws sl ck pf]. unfold env_of, uninterrupted. simpl. f_equal.
  rewrite <- map_fmap_compose. rewrite <- (map_fmap_id ws) at 2.
  apply map_fmap_ext. intros a worker _. reflexivity.
Qed.

(** With workers whose raises are all [Exception]s, the run is the one
    described by [orchestrate]. *)
Lemma uninterrupted_run env req aa :
  Interruptible.orchestrate (uninterrupted env) req aa
  = Within <$> orchestrate env req aa.
Proof.
  pose proof (orchestrate_fuel_tame (enough_fuel req) (uninterrupted env) req aa) as H.
  rewrite env_of_uninterrupted in H.
  unfold Interruptible.orchestrate, orchestrate.
  destruct (Interruptible.orchestrate_fuel _ _ _ _) as [[w | m w] |].
  - by rewrite H.
  - destruct H as (a & s & agent & added & Ha & Hs).
    unfold uninterrupted in Ha. simpl in Ha. rewrite lookup_fmap in Ha.
    destruct (worker_agents env !! a) as [worker |]; [| done].
    injection Ha as <-. done.
  - by rewrite H.
Qed.


